(** * Shallow embedding of [src/inference_engine.py] (class [LogicalRCA])

    Characters are 8-bit ([ascii], read as Latin-1); Python [str] values are
    Rocq [string]s.  Python dicts whose iteration order matters
    ([msg_map], [children_map], [silent_suspects]) are association lists in
    insertion order.  Floats of the source are either confidence constants
    (modelled as exact rationals [Q]) or the ratio [len(affected)/total]
    (kept as the exact rational in the evidence record and in the comparison
    with 0.5: for child counts below 2^40 the rounded float compares with 0.5
    exactly as the rational does; the printed [ratio=] text is computed from
    the double itself, see [float_div] and [fmt_ratio2]). *)

From Stdlib Require Import String Ascii List Bool ZArith QArith Lia Permutation Sorted.
Import ListNotations.
Open Scope string_scope.

(* ------------------------------------------------------------------ *)
(** ** Python string primitives *)

Module Py.
Local Open Scope nat_scope.

(** [p in s] for strings. *)
Fixpoint prefixb (p s : string) : bool :=
  match p, s with
  | EmptyString, _ => true
  | String a p', String b s' => Ascii.eqb a b && prefixb p' s'
  | String _ _, EmptyString => false
  end.

Fixpoint contains (p s : string) : bool :=
  prefixb p s ||
  match s with
  | EmptyString => false
  | String _ s' => contains p s'
  end.

Definition endswith (p s : string) : bool :=
  (String.length p <=? String.length s)%nat && String.eqb (substring (String.length s - String.length p) (String.length p) s) p.

Definition drop (n : nat) (s : string) : string := substring n (String.length s - n) s.
Definition drop_end (n : nat) (s : string) : string := substring 0 (String.length s - n) s.

Fixpoint smap (f : ascii -> ascii) (s : string) : string :=
  match s with
  | EmptyString => EmptyString
  | String c s' => String (f c) (smap f s')
  end.

(** [str.lower] on Latin-1: A-Z and U+00C0..U+00DE except U+00D7. *)
Definition lower_char (c : ascii) : ascii :=
  let n := nat_of_ascii c in
  if ((65 <=? n) && (n <=? 90)) || ((192 <=? n) && (n <=? 222) && negb (n =? 215))
  then ascii_of_nat (n + 32) else c.

Definition lower (s : string) : string := smap lower_char s.

(** [str.upper] on ASCII letters (the only characters compared after it). *)
Definition upper_char (c : ascii) : ascii :=
  let n := nat_of_ascii c in
  if (97 <=? n) && (n <=? 122) then ascii_of_nat (n - 32) else c.

Definition upper (s : string) : string := smap upper_char s.

(** [sep.join(l)] *)
Fixpoint join (sep : string) (l : list string) : string :=
  match l with
  | [] => EmptyString
  | [x] => x
  | x :: l' => x ++ sep ++ join sep l'
  end.

(** [str.isspace] on Latin-1; also the class [\s] of [re] on [str]. *)
Definition is_space (c : ascii) : bool :=
  let n := nat_of_ascii c in
  ((9 <=? n) && (n <=? 13)) || ((28 <=? n) && (n <=? 32)) || (n =? 133) || (n =? 160).

(** The class [\d] of [re] on [str], restricted to Latin-1. *)
Definition is_digit (c : ascii) : bool :=
  let n := nat_of_ascii c in (48 <=? n) && (n <=? 57).

Fixpoint lstrip (s : string) : string :=
  match s with
  | String c s' => if is_space c then lstrip s' else s
  | EmptyString => EmptyString
  end.

Fixpoint srev (s : string) : string :=
  match s with
  | EmptyString => EmptyString
  | String c s' => srev s' ++ String c EmptyString
  end.

(** [str.strip()] *)
Definition strip (s : string) : string := srev (lstrip (srev (lstrip s))).

(** Longest prefix whose characters satisfy [p], and the rest. *)
Fixpoint span (p : ascii -> bool) (s : string) : string * string :=
  match s with
  | String c s' =>
      if p c then let (a, b) := span p s' in (String c a, b) else (EmptyString, s)
  | EmptyString => (EmptyString, EmptyString)
  end.

End Py.

Import Py.

Definition dq : ascii := "034"%char.

(* ------------------------------------------------------------------ *)
(** ** [re.sub] with the four patterns of [_sanitize_text]

    A matcher, applied to the text from the current position, returns the
    replacement and the text after the match.  Every pattern of
    [_sanitize_text] admits at most one match at a position: each [\s+] is
    followed by a non-space, each [\S+] by a space or the end, and
    the non-quote run by a quote, so backtracking never yields a different match;
    the matchers below compute that match. *)

Definition matcher := string -> option (string * string).

Fixpoint re_sub_go (m : matcher) (fuel : nat) (s : string) : string :=
  match fuel with
  | O => s
  | S f =>
      match m s with
      | Some (r, rest) => r ++ re_sub_go m f rest
      | None =>
          match s with
          | EmptyString => EmptyString
          | String c s' => String c (re_sub_go m f s')
          end
      end
  end.

Definition re_sub (m : matcher) (s : string) : string := re_sub_go m (S (String.length s)) s.

Definition nonempty (s : string) : bool :=
  match s with EmptyString => false | _ => true end.

Definition not_space c := negb (is_space c).
Definition not_quote c := negb (Ascii.eqb c dq).

(** [re.sub(r'(encrypted-password\s+)QQ', r'\1Q********Q', text)], where [Q] stands for a double quote and [QQ] for a double-quoted non-empty run of non-quotes. *)
Definition m_encpw : matcher := fun s =>
  let kw := "encrypted-password" in
  if prefixb kw s then
    let (ws, r1) := span is_space (drop (String.length kw) s) in
    if nonempty ws then
      match r1 with
      | String q r2 =>
          if Ascii.eqb q dq then
            let (body, r3) := span not_quote r2 in
            if nonempty body then
              match r3 with
              | String q' r4 =>
                  if Ascii.eqb q' dq
                  then Some (kw ++ ws ++ String dq ("********" ++ String dq EmptyString), r4)
                  else None
              | EmptyString => None
              end
            else None
          else None
      | EmptyString => None
      end
    else None
  else None.

(** [\s+(\d)\s+\S+] after a keyword: the digit and the rest. *)
Definition digit_token (s : string) : option (ascii * string) :=
  let (ws1, r1) := span is_space s in
  if nonempty ws1 then
    match r1 with
    | String d r2 =>
        if is_digit d then
          let (ws2, r3) := span is_space r2 in
          if nonempty ws2 then
            let (tok, r4) := span not_space r3 in
            if nonempty tok then Some (d, r4) else None
          else None
        else None
    | EmptyString => None
    end
  else None.

(** [(password|secret)\s+(\d)\s+\S+] -> [\1 \2 ********] *)
Definition m_pwsecret : matcher := fun s =>
  let try_kw kw :=
    if prefixb kw s then
      match digit_token (drop (String.length kw) s) with
      | Some (d, rest) => Some (kw ++ " " ++ String d " ********", rest)
      | None => None
      end
    else None in
  match try_kw "password" with
  | Some r => Some r
  | None => try_kw "secret"
  end.

(** [(username\s+\S+\s+secret)\s+\d\s+\S+] -> [\1 5 ********] *)
Definition m_username : matcher := fun s =>
  let kw := "username" in
  if prefixb kw s then
    let (ws1, r1) := span is_space (drop (String.length kw) s) in
    if nonempty ws1 then
      let (x, r2) := span not_space r1 in
      if nonempty x then
        let (ws2, r3) := span is_space r2 in
        if nonempty ws2 && prefixb "secret" r3 then
          match digit_token (drop 6 r3) with
          | Some (_, rest) => Some (kw ++ ws1 ++ x ++ ws2 ++ "secret" ++ " 5 ********", rest)
          | None => None
          end
        else None
      else None
    else None
  else None.

(** [(snmp-server community)\s+\S+] -> [\1 ********] *)
Definition m_community : matcher := fun s =>
  let kw := "snmp-server community" in
  if prefixb kw s then
    let (ws, r1) := span is_space (drop (String.length kw) s) in
    if nonempty ws then
      let (tok, r2) := span not_space r1 in
      if nonempty tok then Some (kw ++ " ********", r2) else None
    else None
  else None.

(** [_sanitize_text] *)
Definition _sanitize_text (text : string) : string :=
  let text := re_sub m_encpw text in
  let text := re_sub m_pwsecret text in
  let text := re_sub m_username text in
  let text := re_sub m_community text in
  text.

(* ------------------------------------------------------------------ *)
(** ** JSON values and [json.loads]

    [JNum] keeps the literal text of the number.  The decoder follows the
    grammar of Python's [json] module in strict mode (with [NaN],
    [Infinity] and [-Infinity]); a [\u] escape above U+00FF has no 8-bit
    character and is refused. *)

#[warnings="-register-all"]
Inductive json :=
| JNull
| JBool (b : bool)
| JNum (lit : string)
| JStr (s : string)
| JArr (l : list json)
| JObj (kv : list (string * json)).

Module Json.
Local Open Scope nat_scope.

Definition is_ws (c : ascii) : bool :=
  let n := nat_of_ascii c in (n =? 32) || (n =? 9) || (n =? 10) || (n =? 13).

Definition skip_ws (s : string) : string := snd (span is_ws s).

Definition hex_val (c : ascii) : option nat :=
  let n := nat_of_ascii c in
  if (48 <=? n) && (n <=? 57) then Some (n - 48)
  else if (97 <=? n) && (n <=? 102) then Some (n - 87)
  else if (65 <=? n) && (n <=? 70) then Some (n - 55)
  else None.

Definition escape_char (e : ascii) : option ascii :=
  let n := nat_of_ascii e in
  if n =? 34 then Some e            (* quote *)
  else if n =? 92 then Some e       (* backslash *)
  else if n =? 47 then Some e       (* slash *)
  else if n =? 98 then Some (ascii_of_nat 8)
  else if n =? 102 then Some (ascii_of_nat 12)
  else if n =? 110 then Some (ascii_of_nat 10)
  else if n =? 114 then Some (ascii_of_nat 13)
  else if n =? 116 then Some (ascii_of_nat 9)
  else None.

(** Body of a string literal, after its opening quote. *)
Fixpoint p_string (s : string) : option (string * string) :=
  match s with
  | EmptyString => None
  | String c r =>
      let n := nat_of_ascii c in
      if n =? 34 then Some (EmptyString, r)
      else if n <? 32 then None
      else if n =? 92 then
        match r with
        | String e r' =>
            if nat_of_ascii e =? 117 then
              match r' with
              | String h1 (String h2 (String h3 (String h4 r''))) =>
                  match hex_val h1, hex_val h2, hex_val h3, hex_val h4 with
                  | Some a, Some b, Some c0, Some d =>
                      let v := ((a * 16 + b) * 16 + c0) * 16 + d in
                      if v <? 256 then
                        match p_string r'' with
                        | Some (t, rest) => Some (String (ascii_of_nat v) t, rest)
                        | None => None
                        end
                      else None
                  | _, _, _, _ => None
                  end
              | _ => None
              end
            else
              match escape_char e with
              | Some ch =>
                  match p_string r' with
                  | Some (t, rest) => Some (String ch t, rest)
                  | None => None
                  end
              | None => None
              end
        | EmptyString => None
        end
      else
        match p_string r with
        | Some (t, rest) => Some (String c t, rest)
        | None => None
        end
  end.

(** Number literal: optional minus, 0 or a digit run not starting with 0, optional fraction, optional exponent. *)
Definition p_number (s : string) : option (string * string) :=
  let (sign, s1) := match s with
                    | String c r => if nat_of_ascii c =? 45 then ("-", r) else (EmptyString, s)
                    | EmptyString => (EmptyString, s)
                    end in
  let intpart :=
    match s1 with
    | String c r =>
        if nat_of_ascii c =? 48 then Some (String c EmptyString, r)
        else if is_digit c then let (ds, r') := span is_digit r in Some (String c ds, r')
        else None
    | EmptyString => None
    end in
  match intpart with
  | None => None
  | Some (ip, s2) =>
      let (frac, s3) :=
        match s2 with
        | String c r =>
            if nat_of_ascii c =? 46 then
              let (ds, r') := span is_digit r in
              if nonempty ds then (String c ds, r') else (EmptyString, s2)
            else (EmptyString, s2)
        | EmptyString => (EmptyString, s2)
        end in
      let (ex, s4) :=
        match s3 with
        | String c r =>
            if (nat_of_ascii c =? 101) || (nat_of_ascii c =? 69) then
              let (sg, r1) := match r with
                              | String c' r'' =>
                                  if (nat_of_ascii c' =? 43) || (nat_of_ascii c' =? 45)
                                  then (String c' EmptyString, r'') else (EmptyString, r)
                              | EmptyString => (EmptyString, r)
                              end in
              let (ds, r2) := span is_digit r1 in
              if nonempty ds then (String c (sg ++ ds), r2) else (EmptyString, s3)
            else (EmptyString, s3)
        | EmptyString => (EmptyString, s3)
        end in
      Some (sign ++ ip ++ frac ++ ex, s4)
  end.

Fixpoint p_value (fuel : nat) (s : string) {struct fuel} : option (json * string) :=
  match fuel with
  | O => None
  | S f =>
      match s with
      | EmptyString => None
      | String c r =>
          let n := nat_of_ascii c in
          if n =? 34 then
            match p_string r with Some (t, rest) => Some (JStr t, rest) | None => None end
          else if n =? 123 then
            let r1 := skip_ws r in
            match r1 with
            | String c1 r2 => if nat_of_ascii c1 =? 125 then Some (JObj [], r2)
                              else p_members f r1 []
            | EmptyString => None
            end
          else if n =? 91 then
            let r1 := skip_ws r in
            match r1 with
            | String c1 r2 => if nat_of_ascii c1 =? 93 then Some (JArr [], r2)
                              else p_elements f r1 []
            | EmptyString => None
            end
          else if prefixb "null" s then Some (JNull, drop 4 s)
          else if prefixb "true" s then Some (JBool true, drop 4 s)
          else if prefixb "false" s then Some (JBool false, drop 5 s)
          else match p_number s with
               | Some (lit, rest) => Some (JNum lit, rest)
               | None =>
                   if prefixb "NaN" s then Some (JNum "NaN", drop 3 s)
                   else if prefixb "Infinity" s then Some (JNum "Infinity", drop 8 s)
                   else if prefixb "-Infinity" s then Some (JNum "-Infinity", drop 9 s)
                   else None
               end
      end
  end
(** Members of an object, from a key onwards; [acc] in reverse order. *)
with p_members (fuel : nat) (s : string) (acc : list (string * json)) {struct fuel}
  : option (json * string) :=
  match fuel with
  | O => None
  | S f =>
      match s with
      | String c r =>
          if nat_of_ascii c =? 34 then
            match p_string r with
            | Some (k, r1) =>
                match skip_ws r1 with
                | String col r2 =>
                    if nat_of_ascii col =? 58 then
                      match p_value f (skip_ws r2) with
                      | Some (v, r3) =>
                          match skip_ws r3 with
                          | String d r4 =>
                              if nat_of_ascii d =? 125 then Some (JObj (rev ((k, v) :: acc)), r4)
                              else if nat_of_ascii d =? 44 then p_members f (skip_ws r4) ((k, v) :: acc)
                              else None
                          | EmptyString => None
                          end
                      | None => None
                      end
                    else None
                | EmptyString => None
                end
            | None => None
            end
          else None
      | EmptyString => None
      end
  end
(** Elements of an array; [acc] in reverse order. *)
with p_elements (fuel : nat) (s : string) (acc : list json) {struct fuel}
  : option (json * string) :=
  match fuel with
  | O => None
  | S f =>
      match p_value f s with
      | Some (v, r1) =>
          match skip_ws r1 with
          | String d r2 =>
              if nat_of_ascii d =? 93 then Some (JArr (rev (v :: acc)), r2)
              else if nat_of_ascii d =? 44 then p_elements f (skip_ws r2) (v :: acc)
              else None
          | EmptyString => None
          end
      | None => None
      end
  end.

(** [json.loads]: one value, surrounded by whitespace only.  Each step of
    the parser consumes a character, so [2 * len + 2] steps suffice. *)
Definition loads (s : string) : option json :=
  match p_value (2 * String.length s + 2) (skip_ws s) with
  | Some (v, rest) => if nonempty (skip_ws rest) then None else Some v
  | None => None
  end.

(** [d.get(k)] on the dict decoded from an object: the last binding wins. *)
Definition get (kv : list (string * json)) (k : string) : option json :=
  match find (fun p => String.eqb (fst p) k) (rev kv) with
  | Some (_, v) => Some v
  | None => None
  end.

(** [str(v)] of a decoded value.  Only compared, after [upper], with
    GREEN/NORMAL/YELLOW/WARNING; the text of a number, [None], [True],
    [False], a list or a dict is never one of these. *)
Definition py_str (v : json) : string :=
  match v with
  | JStr s => s
  | JNull => "None"
  | JBool true => "True"
  | JBool false => "False"
  | JNum lit => lit
  | JArr _ => "[...]"
  | JObj _ => "{...}"
  end.

End Json.

(* ------------------------------------------------------------------ *)
(** ** Topology entries *)

(** [metadata] of a device: the two fields [_get_psu_count] reads.
    [hw_psu_count] is [None] when [metadata.hw_inventory] has no
    [psu_count] key (or is not a dict), [Some None] when the key is present
    but [int()] raises on its value, [Some (Some n)] when [int()] gives [n].
    [redundancy_type] is [str(md.get("redundancy_type", ""))]. *)
Record device_metadata := {
  hw_psu_count : option (option Z);
  redundancy_type : string;
}.

(** A topology entry ([dict] or [NetworkNode]).  [parent_id] is
    [info.get("parent_id")] ([None] also for a JSON [null]); [parent_ids] is
    the list field written by the topology builder. *)
Record device_info := {
  parent_id : option string;
  parent_ids : list string;
  metadata : device_metadata;
}.

Definition empty_metadata : device_metadata := {| hw_psu_count := None; redundancy_type := "" |}.
Definition empty_info : device_info := {| parent_id := None; parent_ids := []; metadata := empty_metadata |}.

(** [self.topology]: a dict device id -> entry, in insertion order. *)
Definition topology := list (string * device_info).

Fixpoint assoc {A} (k : string) (l : list (string * A)) : option A :=
  match l with
  | [] => None
  | (k', v) :: l' => if String.eqb k k' then Some v else assoc k l'
  end.

(** Python truthiness of an optional string. *)
Definition truthy (p : option string) : bool :=
  match p with Some s => nonempty s | None => false end.

Definition _get_device_info (topo : topology) (device_id : string) : device_info :=
  match assoc device_id topo with Some i => i | None => empty_info end.

Definition _get_parent_id (topo : topology) (device_id : string) : option string :=
  parent_id (_get_device_info topo device_id).

Definition _get_metadata (topo : topology) (device_id : string) : device_metadata :=
  metadata (_get_device_info topo device_id).

Definition _get_psu_count (topo : topology) (device_id : string) (default : Z) : Z :=
  let md := _get_metadata topo device_id in
  match hw_psu_count md with
  | Some (Some n) => n
  | _ => if String.eqb (upper (redundancy_type md)) "PSU" then 2%Z else default
  end.

(* ------------------------------------------------------------------ *)
(** ** Decimal rendering of integers (f-strings) *)

Fixpoint digits_go (fuel : nat) (n : Z) (acc : string) : string :=
  match fuel with
  | O => acc
  | S f =>
      let acc' := String (ascii_of_nat (48 + Z.to_nat (n mod 10))) acc in
      if (n / 10 =? 0)%Z then acc' else digits_go f (n / 10) acc'
  end.

Definition z_to_str (z : Z) : string :=
  let fuel := S (Z.to_nat (Z.log2 (Z.abs z))) in
  if (z <? 0)%Z then "-" ++ digits_go fuel (Z.abs z) EmptyString
  else digits_go fuel z EmptyString.

(* ------------------------------------------------------------------ *)
(** ** [analyze_redundancy_depth] *)

Inductive HealthStatus := NORMAL | WARNING | CRITICAL.

(** The dict returned by [analyze_redundancy_depth].  [reason] and
    [impact_type] are JSON values because the inference branch copies them
    from the decoded reply. *)
Record analysis := {
  status : HealthStatus;
  reason : json;
  impact_type : json;
}.

Definition mk (st : HealthStatus) (r it : string) : analysis :=
  {| status := st; reason := JStr r; impact_type := JStr it |}.

(** Outcome of [self.model.generate_content(...)] followed by
    [response.text]: an exception, or the reply text. *)
Inductive llm_reply := ReplyRaise (msg : string) | ReplyText (text : string).

(** The process environment and the external service.  The prompt is
    built from the device id, its metadata, its sanitized configuration file
    and the sanitized alerts; metadata and configuration are fixed per device
    id, so the service is a function of the id and the sanitized alerts. *)
Record env := {
  google_api_key : option string;   (* os.environ.get("GOOGLE_API_KEY") *)
  configure_ok : bool;              (* genai.configure / GenerativeModel do not raise *)
  generate_content : string -> list string -> llm_reply;
}.

(** [_ensure_api_configured]; its cache flag only skips a repeated, equal
    configuration, so with a fixed environment the answer is the same on
    every call. *)
Definition _ensure_api_configured (e : env) : bool :=
  truthy (google_api_key e) && configure_ok e.

(** Rule 0): the stop conditions, tested on the text as it is (line 351). *)
Definition stop_condition (joined : string) : bool :=
  contains "Power Supply: Dual Loss" joined || contains "Dual Loss" joined
  || contains "Device Down" joined || contains "Thermal Shutdown" joined.

(** Rules 0) to 3) of [analyze_redundancy_depth] on the aggregated text
    [joined]; [None] when none applies. *)
Definition local_safety_rules (topo : topology) (device_id : string) (joined : string)
  : option analysis :=
  let joined_lower := lower joined in
  let has s := contains s joined_lower in
  if stop_condition joined then
    Some (mk CRITICAL "Device down / dual PSU loss / thermal shutdown detected (local safety rule)." "Hardware/Physical")
  else
  let psu_count := _get_psu_count topo device_id 1 in
  let psu_single_fail := (has "power supply" && has "failed" && negb (has "dual"))
                         || (has "psu" && has "fail" && negb (has "dual")) in
  if psu_single_fail then
    if (2 <=? psu_count)%Z then
      Some (mk WARNING ("Single PSU failure with redundancy (psu_count=" ++ z_to_str psu_count ++ ") (local safety rule).") "Hardware/Redundancy")
    else
      Some (mk CRITICAL ("Single PSU failure without redundancy (psu_count=" ++ z_to_str psu_count ++ ") (local safety rule).") "Hardware/Physical")
  else
  let fan_fail := has "fan fail" || (has "fan" && has "fail") in
  let overheat_hint := has "high temperature" || has "overheat" || has "thermal" in
  if fan_fail then
    if overheat_hint then
      Some (mk CRITICAL "Fan failure with overheat/thermal symptom detected (local safety rule)." "Hardware/Physical")
    else
      Some (mk WARNING "Fan failure detected. Service likely continues but risk of thermal escalation (local safety rule)." "Hardware/Degraded")
  else
  let mem_symptom := has "memory high" || has "memory leak" || (has "memory" && (has "leak" || has "high")) in
  let oom_hint := has "out of memory" || has "oom" || has "killed process" || has "kernel panic" in
  if mem_symptom then
    if oom_hint then
      Some (mk CRITICAL "Memory leak/high with OOM/crash symptom detected (local safety rule)." "Software/Resource")
    else
      Some (mk WARNING "Memory high/leak symptom detected. Likely degraded but not down yet (local safety rule)." "Software/Resource")
  else None.

(** Lines 416-419: a leading json code fence and a trailing fence are cut. *)
Definition strip_code_fence (t1 : string) : string :=
  let t2 := if prefixb "```json" t1 then drop 7 t1 else t1 in
  if endswith "```" t2 then drop_end 3 t2 else t2.

(** [str(result_json.get("status", "CRITICAL")).upper()] *)
Definition status_str (kv : list (string * json)) : string :=
  upper (match Json.get kv "status" with Some v => Json.py_str v | None => "CRITICAL" end).

(** The [try] block around the inference call (lines 413-434), for a JSON
    decoder [loads].  The text of a caught exception is not modelled. *)
Definition ai_fallback_with (loads : string -> option json) (reply : llm_reply) : analysis :=
  let ai_error := {| status := WARNING; reason := JStr "AI Analysis Failed: <exception>";
                     impact_type := JStr "AI_ERROR" |} in
  match reply with
  | ReplyRaise _ => ai_error
  | ReplyText text =>
      match loads (strip_code_fence (strip text)) with
      | Some (JObj kv) =>
          let status_str := status_str kv in
          let health_status :=
            if String.eqb status_str "GREEN" || String.eqb status_str "NORMAL" then NORMAL
            else if String.eqb status_str "YELLOW" || String.eqb status_str "WARNING" then WARNING
            else CRITICAL in
          {| status := health_status;
             reason := match Json.get kv "reason" with Some v => v | None => JStr "AI provided no reason" end;
             impact_type := match Json.get kv "impact_type" with Some v => v | None => JStr "UNKNOWN" end |}
      | Some _ => ai_error      (* [.get] on a non-dict raises AttributeError *)
      | None => ai_error        (* JSONDecodeError *)
      end
  end.

Definition ai_fallback := ai_fallback_with Json.loads.

Definition analyze_redundancy_depth (e : env) (topo : topology) (device_id : string)
  (alerts : list string) : analysis :=
  match alerts with
  | [] => mk NORMAL "No active alerts detected." "NONE"
  | _ =>
      let safe_alerts := map _sanitize_text alerts in
      let joined := join " " safe_alerts in
      match local_safety_rules topo device_id joined with
      | Some a => a
      | None =>
          if negb (_ensure_api_configured e) then
            mk WARNING "API key not configured. Manual analysis required." "UNKNOWN"
          else ai_fallback (generate_content e device_id safe_alerts)
      end
  end.

(* ------------------------------------------------------------------ *)
(** ** Silent-failure inference *)

Definition nl : string := String (ascii_of_nat 10) EmptyString.

(** [m.setdefault(k, []).append(v)] on an insertion-ordered dict. *)
Fixpoint setdefault_append {A} (m : list (string * list A)) (k : string) (v : A)
  : list (string * list A) :=
  match m with
  | [] => [(k, [v])]
  | (k', vs) :: m' =>
      if String.eqb k k' then (k', app vs [v]) :: m' else (k', vs) :: setdefault_append m' k v
  end.

(** [self.children_map] built in [__init__]: parent -> [children...]. *)
Definition children_map (topo : topology) : list (string * list string) :=
  fold_left (fun m (di : string * device_info) =>
               let (dev_id, info) := di in
               match parent_id info with
               | Some p => if nonempty p then setdefault_append m p dev_id else m
               | None => m
               end) topo [].

Definition SILENT_MIN_CHILDREN : nat := 2.
Definition SILENT_RATIO : Q := 1 # 2.

Definition _is_connection_loss (msg : string) : bool :=
  let msg_l := lower msg in
  contains "connection lost" msg_l || contains "link down" msg_l
  || contains "port down" msg_l || contains "unreachable" msg_l.

Definition msg_map_t := list (string * list string).

Definition msgs_of (msg_map : msg_map_t) (d : string) : list string :=
  match assoc d msg_map with Some l => l | None => [] end.

Definition has_key {A} (k : string) (m : list (string * A)) : bool :=
  match assoc k m with Some _ => true | None => false end.

(** [n / d] rounded to an integer, ties to even ([0 <= n], [0 < d]). *)
Definition round_half_even (n d : Z) : Z :=
  let q := (n / d)%Z in
  let r := (n mod d)%Z in
  if (d <? 2 * r)%Z then (q + 1)%Z
  else if (2 * r =? d)%Z then (if Z.even q then q else q + 1)%Z
  else q.

(** The fraction [n * 2^k / d] as a pair (numerator, denominator) of integers,
    for either sign of [k]. *)
Definition scale2 (n d k : Z) : Z * Z :=
  if (0 <=? k)%Z then ((n * 2 ^ k)%Z, d) else (n, (d * 2 ^ (- k))%Z).

(** Python's true division [a / t] of two ints ([0 <= a], [0 < t], both far
    below 2^1000): the IEEE double nearest to [a / t], ties to even, returned
    as [(m, k)] with value [m / 2^k] and [m] a 53-bit significand.  [k0] puts
    [a * 2^k0 / t] in (2^52, 2^54); one less when it is 2^53 or more. *)
Definition float_div (a t : Z) : Z * Z :=
  let k0 := (53 + Z.log2 t - Z.log2 a)%Z in
  let k := let '(n, d) := scale2 a t k0 in
           if (2 ^ 53 <=? n / d)%Z then (k0 - 1)%Z else k0 in
  let '(n, d) := scale2 a t k in
  (round_half_even n d, k).

(** [f"{x:.2f}"] for [x = a / t] computed as a double: the exact binary
    value [m / 2^k] of the double, times 100, rounded to an integer with ties
    to even (as CPython's float formatting rounds), printed with two
    decimals. *)
Definition fmt_ratio2 (a t : Z) : string :=
  let '(m, k) := float_div a t in
  let '(n, d) := scale2 (100 * m) 1 (- k) in
  let K := round_half_even n d in
  let frac := (K mod 100)%Z in
  z_to_str (K / 100) ++ "." ++ (if (frac <? 10)%Z then "0" else "") ++ z_to_str frac.

Record evidence := {
  ev_children : list string;
  evidence_count : nat;
  total_children : nat;
  ratio : Q;
  report : string;
}.

Definition silent_report (parent : string) (a total : nat) : string :=
  "[Silent Failure Heuristic]" ++ nl ++
  "- Suspected upstream device: " ++ parent ++ nl ++
  "- Affected children: " ++ z_to_str (Z.of_nat a) ++ "/" ++ z_to_str (Z.of_nat total)
    ++ " (ratio=" ++ fmt_ratio2 (Z.of_nat a) (Z.of_nat (Nat.max total 1)) ++ ")" ++ nl ++
  "- Evidence: children raised Connection Lost/Unreachable simultaneously" ++ nl ++
  "- Recommended checks:" ++ nl ++
  "  1) Check uplink interface counters/errors on " ++ parent ++ nl ++
  "  2) Verify MAC table / ARP / STP state changes around incident time" ++ nl ++
  "  3) Compare syslog/event logs for link flap, STP re-convergence" ++ nl ++
  "  4) Run targeted ping/ARP from CORE side to affected APs" ++ nl.

(** [affected] in [_detect_silent_failures]: children with a connection-loss message. *)
Definition affected_children (msg_map : msg_map_t) (children : list string) : list string :=
  filter (fun c => existsb _is_connection_loss (msgs_of msg_map c)) children.

(** One iteration of the loop of [_detect_silent_failures]. *)
Definition silent_candidate (msg_map : msg_map_t) (parent : string) (children : list string)
  : option evidence :=
  match children with
  | [] => None
  | _ =>
      if has_key parent msg_map then None else
      let affected := affected_children msg_map children in
      match affected with
      | [] => None
      | _ =>
          let total := length children in
          let ratio := (Z.of_nat (length affected) # Pos.of_nat (Nat.max total 1)) in
          if (SILENT_MIN_CHILDREN <=? length affected)%nat && Qle_bool SILENT_RATIO ratio then
            Some {| ev_children := affected; evidence_count := length affected;
                    total_children := total; ratio := ratio;
                    report := silent_report parent (length affected) total |}
          else None
      end
  end.

Fixpoint detect_loop (msg_map : msg_map_t) (cm : list (string * list string))
  : list (string * evidence) :=
  match cm with
  | [] => []
  | (parent, children) :: cm' =>
      match silent_candidate msg_map parent children with
      | Some ev => (parent, ev) :: detect_loop msg_map cm'
      | None => detect_loop msg_map cm'
      end
  end.

Definition _detect_silent_failures (topo : topology) (msg_map : msg_map_t)
  : list (string * evidence) :=
  detect_loop msg_map (children_map topo).

(* ------------------------------------------------------------------ *)
(** ** [analyze] *)

Record alarm := { device_id : string; message : string }.

(** A result dict; [r_analyst_report] and [r_auto_investigation] are the
    two keys only silent-failure results carry. *)
Record result := {
  r_id : string;
  r_label : string;
  r_prob : Q;
  r_type : json;
  r_tier : Z;
  r_reason : json;
  r_analyst_report : option string;
  r_auto_investigation : list string;
}.

Definition SILENT_MESSAGE : string := "Silent Failure Suspected (Derived from child Connection Lost)".

Definition AUTO_INVESTIGATION : list string :=
  ["Pull interface counters/errors (uplinks)"; "Check STP/MAC flaps";
   "Ping/ARP reachability tests from upstream"; "Correlate syslog around incident time"].

Definition opt_str (p : option string) : string :=
  match p with Some s => s | None => "None" end.

(** [needle in v] for the reason value; [None] when Python raises
    TypeError (a number, a bool or [None] on the right of [in]). *)
Definition py_in (needle : string) (v : json) : option bool :=
  match v with
  | JStr s => Some (contains needle s)
  | JArr l => Some (existsb (fun x => match x with JStr s => String.eqb s needle | _ => false end) l)
  | JObj kv => Some (existsb (fun p => String.eqb (fst p) needle) kv)
  | _ => None
  end.

Definition is_unknown (v : json) : bool :=
  match v with JStr s => String.eqb s "UNKNOWN" | _ => false end.

(** The closures [parent_is_alarmed] and [parent_is_silent_suspect]. *)
Definition parent_is_alarmed (topo : topology) (alarmed_ids : list string) (dev : string) : bool :=
  let p := _get_parent_id topo dev in
  truthy p && match p with Some q => existsb (String.eqb q) alarmed_ids | None => false end.

Definition parent_is_silent_suspect (topo : topology) (silent_suspects : list (string * evidence))
  (dev : string) : bool :=
  let p := _get_parent_id topo dev in
  truthy p && match p with Some q => has_key q silent_suspects | None => false end.

(** The body of the loop over [msg_map.items()]: the result for one
    device, or [None] when Python raises. *)
Definition analyze_device (e : env) (topo : topology) (silent_suspects : list (string * evidence))
  (alarmed_ids : list string) (dev : string) (messages : list string) : option result :=
  let p := _get_parent_id topo dev in
  let parent_is_alarmed := parent_is_alarmed topo alarmed_ids dev in
  let parent_is_silent_suspect := parent_is_silent_suspect topo silent_suspects dev in
  let label := join " / " messages in
  if parent_is_silent_suspect && existsb _is_connection_loss messages then
    Some {| r_id := dev; r_label := label; r_prob := 4 # 10; r_type := JStr "Network/ConnectionLost";
            r_tier := 3;
            r_reason := JStr ("Downstream symptom under suspected silent failure parent (parent="
                              ++ opt_str p ++ ").");
            r_analyst_report := None; r_auto_investigation := [] |}
  else if existsb (fun m => contains "unreachable" (lower m)) messages && parent_is_alarmed then
    Some {| r_id := dev; r_label := label; r_prob := 2 # 10; r_type := JStr "Network/Unreachable";
            r_tier := 3;
            r_reason := JStr ("Downstream unreachable due to upstream alarm (parent=" ++ opt_str p ++ ").");
            r_analyst_report := None; r_auto_investigation := [] |}
  else match assoc dev silent_suspects with
  | Some info =>
    Some {| r_id := dev; r_label := label; r_prob := 8 # 10; r_type := JStr "Network/SilentFailure";
            r_tier := 1;
            r_reason := JStr ("Silent failure suspected: " ++ z_to_str (Z.of_nat (evidence_count info))
                              ++ "/" ++ z_to_str (Z.of_nat (total_children info)) ++ " children affected.");
            r_analyst_report := Some (report info); r_auto_investigation := AUTO_INVESTIGATION |}
  | None =>
    let a := analyze_redundancy_depth e topo dev messages in
    let special :=
      if is_unknown (impact_type a) then py_in "API key not configured" (reason a) else Some false in
    match special with
    | None => None
    | Some sp =>
        let '(prob, tier) :=
          if sp then (5 # 10, 3%Z)
          else match status a with
               | CRITICAL => (9 # 10, 1%Z)
               | WARNING => (7 # 10, 2%Z)
               | NORMAL => (3 # 10, 3%Z)
               end in
        Some {| r_id := dev; r_label := label; r_prob := prob; r_type := impact_type a;
                r_tier := tier; r_reason := reason a;
                r_analyst_report := None; r_auto_investigation := [] |}
    end
  end.

(** [results.sort(key=lambda x: x["prob"], reverse=True)]: a stable sort
    by decreasing [prob] (insertion keeps equal keys in input order). *)
Fixpoint insert_desc (x : result) (l : list result) : list result :=
  match l with
  | [] => [x]
  | y :: l' => if Qle_bool (r_prob x) (r_prob y) then y :: insert_desc x l' else x :: l
  end.

Definition sort_desc (l : list result) : list result :=
  fold_left (fun acc x => insert_desc x acc) l [].

Fixpoint map_opt {A B} (f : A -> option B) (l : list A) : option (list B) :=
  match l with
  | [] => Some []
  | x :: l' =>
      match f x with
      | Some y => match map_opt f l' with Some ys => Some (y :: ys) | None => None end
      | None => None
      end
  end.

(** A loop [for b in l: acc.setdefault(g(b), []).append(h(b))]. *)
Definition fold_sd {A B} (g : B -> string) (h : B -> A) (l : list B) (acc : list (string * list A)) :=
  fold_left (fun m b => setdefault_append m (g b) (h b)) l acc.

(** [msg_map] built from the alarms, in first-occurrence order. *)
Definition build_msg_map (alarms : list alarm) : msg_map_t :=
  fold_sd device_id message alarms [].

(** [msg_map] after the synthetic alarm is added to each suspect. *)
Definition inject_silent (msg_map : msg_map_t) (silent : list (string * evidence)) : msg_map_t :=
  fold_sd fst (fun _ => SILENT_MESSAGE) silent msg_map.

Definition SYSTEM_RESULT : result :=
  {| r_id := "SYSTEM"; r_label := "No alerts detected"; r_prob := 0 # 1; r_type := JStr "Normal";
     r_tier := 0; r_reason := JStr "No active alerts detected.";
     r_analyst_report := None; r_auto_investigation := [] |}.

(** Unsorted results of [analyze] (its loop), for non-empty [alarms]. *)
Definition analyze_results (e : env) (topo : topology) (alarms : list alarm) : option (list result) :=
  let msg_map := build_msg_map alarms in
  let silent_suspects := _detect_silent_failures topo msg_map in
  let msg_map := inject_silent msg_map silent_suspects in
  let alarmed_ids := map fst msg_map in
  map_opt (fun dm => analyze_device e topo silent_suspects alarmed_ids (fst dm) (snd dm)) msg_map.

(** [analyze]; [None] when it raises. *)
Definition analyze (e : env) (topo : topology) (alarms : list alarm) : option (list result) :=
  match alarms with
  | [] => Some [SYSTEM_RESULT]
  | _ => match analyze_results e topo alarms with
         | Some rs => Some (sort_desc rs)
         | None => None
         end
  end.

(* ------------------------------------------------------------------ *)
(** ** Concrete inputs used by witnesses and counterexamples *)

(** No [GOOGLE_API_KEY] in the environment. *)
Definition env_no_key : env :=
  {| google_api_key := None; configure_ok := true;
     generate_content := fun _ _ => ReplyRaise "not called" |}.

Definition node (p : option string) (md : device_metadata) : device_info :=
  {| parent_id := p; parent_ids := []; metadata := md |}.

Definition psu_md (n : Z) : device_metadata :=
  {| hw_psu_count := Some (Some n); redundancy_type := "" |}.

Definition topo_psu2 : topology := [("R1", node None (psu_md 2))].

Definition al (d m : string) : alarm := {| device_id := d; message := m |}.

(** A parent [CORE] of four access switches. *)
Definition topo_core4 : topology :=
  [("CORE", empty_info); ("A1", node (Some "CORE") empty_metadata);
   ("A2", node (Some "CORE") empty_metadata); ("A3", node (Some "CORE") empty_metadata);
   ("A4", node (Some "CORE") empty_metadata)].

(** [G] is the parent of [P], [c1], [c2]; [P] is the parent of [d1], [d2]. *)
Definition topo_nested : topology :=
  [("G", empty_info); ("P", node (Some "G") empty_metadata);
   ("c1", node (Some "G") empty_metadata); ("c2", node (Some "G") empty_metadata);
   ("d1", node (Some "P") empty_metadata); ("d2", node (Some "P") empty_metadata)].

Definition alarms_nested : list alarm :=
  [al "c1" "Connection Lost"; al "c2" "Connection Lost";
   al "d1" "Connection Lost"; al "d2" "Connection Lost"].

(** Two access switches whose uplink is declared only through [parent_ids]. *)
Definition topo_multi : topology :=
  [("CORE", empty_info);
   ("A1", {| parent_id := None; parent_ids := ["CORE"]; metadata := empty_metadata |});
   ("A2", {| parent_id := None; parent_ids := ["CORE"]; metadata := empty_metadata |})].

(** The same topology with every [parent_ids] list emptied. *)
Definition forget_parent_ids (topo : topology) : topology :=
  map (fun di : string * device_info =>
         let (d, info) := di in
         (d, {| parent_id := parent_id info; parent_ids := []; metadata := metadata info |})) topo.

(** The environment holds a key and the service replies with [text]. *)
Definition env_reply (text : string) : env :=
  {| google_api_key := Some "key"; configure_ok := true;
     generate_content := fun _ _ => ReplyText text |}.

(** Two access switches lose their uplink, a third one reports a fan failure. *)
Definition alarms_silent : list alarm :=
  [al "A1" "Connection Lost"; al "A2" "Connection Lost"; al "A3" "Fan failed"].
Definition alarms_cascade : list alarm := [al "CORE" "Device Down"; al "A1" "Host unreachable"].
Definition results_silent : list result :=
  Eval vm_compute in match analyze env_no_key topo_core4 alarms_silent with Some rs => rs | None => [] end.
Definition results_cascade : list result :=
  Eval vm_compute in match analyze env_no_key topo_core4 alarms_cascade with Some rs => rs | None => [] end.
(** The evidence found for [CORE] under [alarms_silent]. *)
Definition no_evidence : evidence :=
  {| ev_children := []; evidence_count := 0; total_children := 0; ratio := 0; report := "" |}.
Definition evidence_core : evidence :=
  Eval vm_compute in snd (hd ("", no_evidence) (_detect_silent_failures topo_core4 (build_msg_map alarms_silent))).
(** A device that declares PSU redundancy only through [redundancy_type]. *)
Definition topo_psu_type : topology :=
  [("R2", node None {| hw_psu_count := None; redundancy_type := "Psu" |})].

(** The reason of the local stop rule. *)
Definition STOP_REASON : string :=
  "Device down / dual PSU loss / thermal shutdown detected (local safety rule).".

(* ------------------------------------------------------------------ *)
(** ** Shapes of the matches of [_sanitize_text] *)

Definition hd_s (s : string) : option ascii :=
  match s with EmptyString => None | String c _ => Some c end.

Fixpoint allb (p : ascii -> bool) (s : string) : bool :=
  match s with EmptyString => true | String c s' => p c && allb p s' end.

(** [s] is empty or starts with a character outside [p]: a run of [p]
    characters stops before it. *)
Definition stop (p : ascii -> bool) (s : string) : bool :=
  match s with EmptyString => true | String c _ => negb (p c) end.

(** Suffixes of a string. *)
Fixpoint suffixes (s : string) : list string :=
  match s with
  | EmptyString => []
  | String c s' => s :: suffixes s'
  end.

Definition has_quote (s : string) : bool := negb (allb not_quote s).

Definition KE : string := "encrypted-password".
Definition KC : string := "snmp-server community".
Definition STARS : string := "********".

(** [\s+(\d)\s+\S+], as read by [digit_token]. *)
Definition dt_shape (ws1 : string) (d : ascii) (ws2 tok : string) : Prop :=
  ws1 <> "" /\ allb is_space ws1 = true /\ is_digit d = true /\
  ws2 <> "" /\ allb is_space ws2 = true /\ tok <> "" /\ allb not_space tok = true.

(** [\s+\S+\s+] between [username] and [secret] in [m_username]. *)
Definition u_shape (ws1 x ws2 : string) : Prop :=
  ws1 <> "" /\ allb is_space ws1 = true /\ x <> "" /\ allb not_space x = true /\
  ws2 <> "" /\ allb is_space ws2 = true.

(** What follows [(username\s+)\S+] in a match of [m_username]. *)
Definition x_tail (y : string) : Prop :=
  exists ws2 ws3 d ws4 tok rest, ws2 <> "" /\ allb is_space ws2 = true /\ dt_shape ws3 d ws4 tok /\
    y = ws2 ++ "secret" ++ ws3 ++ String d (ws4 ++ tok ++ rest).

(** What follows [encrypted-password] in a match of [m_encpw]. *)
Definition key_tail (y : string) : Prop :=
  exists ws y', ws <> "" /\ allb is_space ws = true /\ y = ws ++ String dq y'.

(** A character that is no space, digit, star or quote: every keyword
    starts with one. *)
Definition letter (b0 : ascii) : Prop :=
  is_space b0 = false /\ is_digit b0 = false /\ b0 <> "*"%char /\ b0 <> dq.

(** The match of [m] at the start of [u], if any, is left unchanged by its
    replacement. *)
Definition canon_at (m : matcher) (u : string) : Prop :=
  forall r rest, m u = Some (r, rest) -> r ++ rest = u.

(** Every match of [m] in [t] is left unchanged by its replacement. *)
Definition canon (m : matcher) (t : string) : Prop :=
  forall a u, t = a ++ u -> canon_at m u.

(** A well-behaved matcher: a match consumes a non-empty prefix and the
    replacement starts with the same character; nothing matches [""]. *)
Record wf_matcher (m : matcher) : Prop := {
  wf_consume : forall u r rest, m u = Some (r, rest) -> exists w, u = w ++ rest /\ w <> "";
  wf_head : forall u r rest, m u = Some (r, rest) -> hd_s r = hd_s u;
  wf_nil : m "" = None
}.

(** Every match of [m] starts with a [letter]. *)
Definition starts_letter (m : matcher) : Prop :=
  forall u r rest, m u = Some (r, rest) -> exists b0, letter b0 /\ hd_s u = Some b0.

(** After [re_sub m], [m'] is canonical at the positions inside a
    replacement ([HM_ok]) and at an unmatched position before a
    replacement, if it was there before ([HO_ok]). *)
Definition HM_ok (m m' : matcher) : Prop :=
  forall u r rest, m u = Some (r, rest) ->
  forall r1 r2, r = r1 ++ r2 -> r2 <> "" -> canon_at m' (r2 ++ re_sub m rest).

Definition HO_ok (m m' : matcher) : Prop :=
  forall c p w rest r, m (w ++ rest) = Some (r, rest) ->
  canon_at m' (String c (p ++ w ++ rest)) -> canon_at m' (String c (p ++ r ++ re_sub m rest)).

(* ------------------------------------------------------------------ *)
(** ** Views of the output of [analyze] *)

(** The messages of the alarms of device [d], in arrival order. *)
Definition messages_of (alarms : list alarm) (d : string) : list string :=
  map message (filter (fun a => String.eqb (device_id a) d) alarms).

(** [x] comes before [y] in [results.sort(key=prob, reverse=True)]. *)
Definition prob_desc (x y : result) : Prop := (r_prob y <= r_prob x)%Q.

(** [x] has a tier no larger than [y]. *)
Definition tier_asc (x y : result) : Prop := (r_tier x <= r_tier y)%Z.

(** The confidence and tier pairs [analyze_device] hands out. *)
Definition tier_table (r : result) : Prop :=
  (r_prob r = 4 # 10 /\ r_tier r = 3%Z) \/ (r_prob r = 2 # 10 /\ r_tier r = 3%Z) \/
  (r_prob r = 8 # 10 /\ r_tier r = 1%Z) \/ (r_prob r = 5 # 10 /\ r_tier r = 3%Z) \/
  (r_prob r = 9 # 10 /\ r_tier r = 1%Z) \/ (r_prob r = 7 # 10 /\ r_tier r = 2%Z) \/
  (r_prob r = 3 # 10 /\ r_tier r = 3%Z).

(* ------------------------------------------------------------------ *)
(** ** Lemmas on the string primitives *)

Lemma prefixb_app p s t : prefixb p s = true -> prefixb p (s ++ t) = true.
Proof.
  revert s; induction p as [|a p IH]; intros [|b s] H; simpl in *; try easy.
  apply andb_true_iff in H as [H1 H2]. rewrite H1, (IH _ H2). reflexivity.
Qed.

Lemma contains_app_l p s t : contains p s = true -> contains p (s ++ t) = true.
Proof.
  induction s as [|c s IH]; intros H; simpl in *.
  - destruct p; [destruct t; reflexivity | discriminate].
  - apply orb_true_iff in H as [H|H].
    + change (String c (s ++ t)) with (String c s ++ t). rewrite (prefixb_app _ _ _ H). reflexivity.
    + rewrite (IH H), orb_true_r. reflexivity.
Qed.

Lemma contains_app_r p s t : contains p t = true -> contains p (s ++ t) = true.
Proof.
  induction s as [|c s IH]; intros H; simpl; [exact H|].
  rewrite (IH H), orb_true_r. reflexivity.
Qed.

Lemma contains_join sep l x p :
  In x l -> contains p x = true -> contains p (join sep l) = true.
Proof.
  induction l as [|y l IH]; intros Hin Hx; [destruct Hin|].
  destruct Hin as [<-|Hin].
  - destruct l; simpl; [exact Hx | now apply contains_app_l].
  - destruct l as [|z l]; [destruct Hin|].
    change (join sep (y :: z :: l)) with (y ++ sep ++ join sep (z :: l)).
    apply contains_app_r, contains_app_r, IH; assumption.
Qed.

Lemma contains_empty p : nonempty p = true -> contains p "" = false.
Proof. destruct p; easy. Qed.

Lemma join_nil_contains p sep : nonempty p = true -> contains p (join sep []) = false.
Proof. intros H. apply contains_empty, H. Qed.

Lemma lower_empty : lower "" = "".
Proof. reflexivity. Qed.

(* ------------------------------------------------------------------ *)
(** ** Local severity rules *)

Lemma analyze_redundancy_depth_stop e topo d alerts :
  stop_condition (join " " (map _sanitize_text alerts)) = true ->
  analyze_redundancy_depth e topo d alerts = mk CRITICAL STOP_REASON "Hardware/Physical".
Proof.
  intros H. destruct alerts as [|a0 l]; [discriminate H|].
  unfold analyze_redundancy_depth, local_safety_rules. rewrite H. reflexivity.
Qed.

(** C1 (amended).  An alert that still contains "Device Down" or
    "Thermal Shutdown" after [_sanitize_text] makes
    [analyze_redundancy_depth] return Critical with impact type
    Hardware/Physical, whatever the topology and the environment (API key,
    service). *)
Theorem C1_sanitized_stop_phrase_is_critical : forall e topo d alerts a,
  In a alerts ->
  contains "Device Down" (_sanitize_text a) = true \/
  contains "Thermal Shutdown" (_sanitize_text a) = true ->
  analyze_redundancy_depth e topo d alerts = mk CRITICAL STOP_REASON "Hardware/Physical".
Proof.
  intros e topo d alerts a Hin Hc. apply analyze_redundancy_depth_stop.
  unfold stop_condition.
  destruct Hc as [Hc|Hc];
    rewrite (contains_join " " _ _ _ (in_map _sanitize_text _ _ Hin) Hc);
    rewrite ?orb_true_r; reflexivity.
Qed.

Lemma C1_witness :
  In "Thermal Shutdown" ["Thermal Shutdown"] /\
  (contains "Device Down" (_sanitize_text "Thermal Shutdown") = true \/
   contains "Thermal Shutdown" (_sanitize_text "Thermal Shutdown") = true) /\
  analyze_redundancy_depth env_no_key [] "R1" ["Thermal Shutdown"]
  = mk CRITICAL STOP_REASON "Hardware/Physical".
Proof.
  split; [left; reflexivity|]. split; [right; vm_compute; reflexivity|].
  apply (C1_sanitized_stop_phrase_is_critical env_no_key [] "R1" ["Thermal Shutdown"] "Thermal Shutdown").
  - left; reflexivity.
  - right; vm_compute; reflexivity.
Defined.

(** C1 fails as stated: the message [snmp-server community Device Down]
    contains "Device Down", but [_sanitize_text] redacts the word after
    [snmp-server community], so the stop rule does not fire and, without an
    API key, the device is classified Warning. *)
Lemma C1_counterexample :
  contains "Device Down" "snmp-server community Device Down" = true /\
  status (analyze_redundancy_depth env_no_key [] "R1" ["snmp-server community Device Down"])
  <> CRITICAL.
Proof. split; vm_compute; [reflexivity | discriminate]. Qed.

(** C2.  With [psu_count >= 2] in the hardware inventory, an aggregated
    (sanitized, joined) alert text matching the single-PSU-failure pattern,
    without "dual" and without a stop condition, is classified Warning with
    impact type Hardware/Redundancy. *)
Theorem C2_single_psu_failure_with_redundancy_is_warning : forall e topo d alerts n,
  hw_psu_count (_get_metadata topo d) = Some (Some n) ->
  (2 <= n)%Z ->
  let joined := join " " (map _sanitize_text alerts) in
  let jl := lower joined in
  ((contains "power supply" jl && contains "failed" jl) || (contains "psu" jl && contains "fail" jl))
    = true ->
  contains "dual" jl = false ->
  stop_condition joined = false ->
  analyze_redundancy_depth e topo d alerts
  = mk WARNING ("Single PSU failure with redundancy (psu_count=" ++ z_to_str n
                ++ ") (local safety rule).") "Hardware/Redundancy".
Proof.
  intros e topo d alerts n Hpsu Hn joined jl Hfail Hdual Hstop.
  destruct alerts as [|a0 l]; [discriminate Hfail|].
  unfold analyze_redundancy_depth, local_safety_rules.
  fold joined. rewrite Hstop. fold jl.
  unfold _get_psu_count. rewrite Hpsu. rewrite Hdual.
  rewrite !andb_true_r. rewrite Hfail.
  apply Z.leb_le in Hn. rewrite Hn. reflexivity.
Qed.

Lemma C2_witness :
  hw_psu_count (_get_metadata topo_psu2 "R1") = Some (Some 2%Z) /\
  (2 <= 2)%Z /\
  analyze_redundancy_depth env_no_key topo_psu2 "R1" ["PSU1 failed"]
  = mk WARNING ("Single PSU failure with redundancy (psu_count=" ++ z_to_str 2
                ++ ") (local safety rule).") "Hardware/Redundancy".
Proof.
  split; [reflexivity|]. split; [lia|].
  apply (C2_single_psu_failure_with_redundancy_is_warning env_no_key topo_psu2 "R1" ["PSU1 failed"] 2%Z);
    [reflexivity | lia | vm_compute; reflexivity | vm_compute; reflexivity | vm_compute; reflexivity].
Defined.

(** C8 (amended).  The stop-condition rule tests the exact-case phrases
    ("Power Supply: Dual Loss", "Dual Loss", "Device Down",
    "Thermal Shutdown") and, when one is present, decides Critical with
    impact type Hardware/Physical; the other rules only read the
    lower-cased text, so two texts with the same lower-case form and the
    same stop-condition verdict get the same local decision. *)
Theorem C8_stop_rule_exact_case_others_case_insensitive : forall topo d j1 j2,
  (stop_condition j1 = true ->
   local_safety_rules topo d j1 = Some (mk CRITICAL STOP_REASON "Hardware/Physical")) /\
  (lower j1 = lower j2 -> stop_condition j1 = stop_condition j2 ->
   local_safety_rules topo d j1 = local_safety_rules topo d j2).
Proof.
  intros topo d j1 j2. split.
  - intros H. unfold local_safety_rules. rewrite H. reflexivity.
  - intros Hl Hs. unfold local_safety_rules. rewrite Hs, Hl. reflexivity.
Qed.

Lemma C8_witness :
  (stop_condition "Device Down" = true ->
   local_safety_rules [] "R1" "Device Down" = Some (mk CRITICAL STOP_REASON "Hardware/Physical")) /\
  (lower "Device Down" = lower "Device Down" -> stop_condition "Device Down" = stop_condition "Device Down" ->
   local_safety_rules [] "R1" "Device Down" = local_safety_rules [] "R1" "Device Down") /\
  stop_condition "Device Down" = true /\
  local_safety_rules [] "R1" "Device Down" = Some (mk CRITICAL STOP_REASON "Hardware/Physical") /\
  local_safety_rules [] "R1" "FAN Fail" = local_safety_rules [] "R1" "fan fail".
Proof.
  destruct (C8_stop_rule_exact_case_others_case_insensitive [] "R1" "Device Down" "Device Down") as [H1 H2].
  destruct (C8_stop_rule_exact_case_others_case_insensitive [] "R1" "FAN Fail" "fan fail") as [_ H3].
  split; [exact H1|]. split; [exact H2|]. split; [vm_compute; reflexivity|].
  split; [apply H1; vm_compute; reflexivity|].
  apply H3; vm_compute; reflexivity.
Defined.

(** C8 fails as stated: the all-lowercase text "device down" is not a stop
    condition; without an API key the device is classified Warning. *)
Lemma C8_counterexample :
  status (analyze_redundancy_depth env_no_key [] "R1" ["device down"]) <> CRITICAL.
Proof. vm_compute. discriminate. Qed.

(* ------------------------------------------------------------------ *)
(** ** Missing API key *)

(** C6 (amended).  A device handled by the rule-based branch of [analyze]
    (not a symptom of a silent suspect, not an unreachable cascade, not a
    suspect itself) whose alerts match no local rule, with no usable API
    key, gets tier 3 with confidence 0.5, impact type UNKNOWN and the
    reason "API key not configured. Manual analysis required.". *)
Theorem C6_no_rule_no_key_is_tier3 : forall e topo silent alarmed d msgs,
  msgs <> [] ->
  local_safety_rules topo d (join " " (map _sanitize_text msgs)) = None ->
  _ensure_api_configured e = false ->
  (parent_is_silent_suspect topo silent d && existsb _is_connection_loss msgs) = false ->
  (existsb (fun m => contains "unreachable" (lower m)) msgs && parent_is_alarmed topo alarmed d) = false ->
  assoc d silent = None ->
  analyze_device e topo silent alarmed d msgs
  = Some {| r_id := d; r_label := join " / " msgs; r_prob := 5 # 10; r_type := JStr "UNKNOWN";
            r_tier := 3; r_reason := JStr "API key not configured. Manual analysis required.";
            r_analyst_report := None; r_auto_investigation := [] |}.
Proof.
  intros e topo silent alarmed d msgs Hne Hloc Hapi Hb1 Hb2 Hs.
  unfold analyze_device. cbv zeta. rewrite Hb1, Hb2, Hs.
  unfold analyze_redundancy_depth.
  destruct msgs as [|m0 l]; [congruence|].
  rewrite Hloc, Hapi. reflexivity.
Qed.

Lemma C6_witness :
  ["CPU load spike"] <> [] /\
  local_safety_rules [] "R1" (join " " (map _sanitize_text ["CPU load spike"])) = None /\
  _ensure_api_configured env_no_key = false /\
  analyze_device env_no_key [] [] ["R1"] "R1" ["CPU load spike"]
  = Some {| r_id := "R1"; r_label := join " / " ["CPU load spike"]; r_prob := 5 # 10;
            r_type := JStr "UNKNOWN"; r_tier := 3;
            r_reason := JStr "API key not configured. Manual analysis required.";
            r_analyst_report := None; r_auto_investigation := [] |}.
Proof.
  split; [discriminate|]. split; [vm_compute; reflexivity|]. split; [reflexivity|].
  apply C6_no_rule_no_key_is_tier3; try (vm_compute; reflexivity). discriminate.
Defined.

(** C6 fails as stated: one alert matching no local rule, no API key; the
    orchestrator emits tier 3 with confidence 0.5 (not tier 2 with 0.7). *)
Lemma C6_counterexample :
  local_safety_rules [] "R1" "CPU load spike" = None /\
  option_map (map (fun r => (r_tier r, r_prob r, r_type r)))
    (analyze env_no_key [] [al "R1" "CPU load spike"])
  = Some [(3%Z, 5 # 10, JStr "UNKNOWN")].
Proof. split; vm_compute; reflexivity. Qed.

(* ------------------------------------------------------------------ *)
(** ** Inference fallback *)

(** C7 (amended).  For any JSON decoder: a call that raises, or a reply
    that does not decode, or decodes to something other than an object,
    gives Warning with impact type AI_ERROR.  A decoded object is classified
    by its upper-cased status: GREEN or NORMAL gives Normal, YELLOW or
    WARNING gives Warning, anything else gives Critical (so Critical exactly
    when the status is none of the four), and a missing status is read as
    CRITICAL and gives Critical. *)
Theorem C7_fallback_outcomes : forall (loads : string -> option json) (reply : llm_reply),
  let a := ai_fallback_with loads reply in
  match reply with
  | ReplyRaise _ => status a = WARNING /\ impact_type a = JStr "AI_ERROR"
  | ReplyText t =>
      match loads (strip_code_fence (strip t)) with
      | Some (JObj kv) =>
          (In (status_str kv) ["GREEN"; "NORMAL"] -> status a = NORMAL) /\
          (In (status_str kv) ["YELLOW"; "WARNING"] -> status a = WARNING) /\
          (status a = CRITICAL <-> ~ In (status_str kv) ["GREEN"; "NORMAL"; "YELLOW"; "WARNING"]) /\
          (Json.get kv "status" = None -> status a = CRITICAL)
      | _ => status a = WARNING /\ impact_type a = JStr "AI_ERROR"
      end
  end.
Proof.
  intros loads reply a. subst a. destruct reply as [msg|t]; [split; reflexivity|].
  unfold ai_fallback_with.
  destruct (loads (strip_code_fence (strip t))) as [[| | | | |kv]|]; try (split; reflexivity).
  cbn [status]. split; [|split; [|split]].
  - generalize (status_str kv) as s; intros s [<-|[<-|[]]]; reflexivity.
  - generalize (status_str kv) as s; intros s [<-|[<-|[]]]; reflexivity.
  - generalize (status_str kv) as s; intros s.
    destruct (String.eqb_spec s "GREEN") as [->|E1];
      [split; [discriminate | intros H; exfalso; apply H; simpl; tauto]|].
    destruct (String.eqb_spec s "NORMAL") as [->|E2];
      [split; [discriminate | intros H; exfalso; apply H; simpl; tauto]|].
    destruct (String.eqb_spec s "YELLOW") as [->|E3];
      [split; [discriminate | intros H; exfalso; apply H; simpl; tauto]|].
    destruct (String.eqb_spec s "WARNING") as [->|E4];
      [split; [discriminate | intros H; exfalso; apply H; simpl; tauto]|].
    simpl. split; [intros _ [?|[?|[?|[?|[]]]]]; congruence | reflexivity].
  - intros Hg. unfold status_str. rewrite Hg. reflexivity.
Qed.

(** C7 fails as stated: the reply [{}] is valid JSON without a status
    field; the fallback classifies it Critical. *)
Lemma C7_counterexample :
  Json.loads "{}" = Some (JObj []) /\
  status (analyze_redundancy_depth (env_reply "{}") [] "R1" ["CPU load spike"]) = CRITICAL.
Proof. split; vm_compute; reflexivity. Qed.

(* ------------------------------------------------------------------ *)
(** ** Insertion-ordered dicts *)

Section Dicts.
Context {A : Type}.

Lemma assoc_In (k : string) (m : list (string * A)) v : assoc k m = Some v -> In (k, v) m.
Proof.
  induction m as [|[k' v'] m IH]; simpl; [discriminate|].
  destruct (String.eqb_spec k k') as [->|_]; [intros [= ->]; left; reflexivity|].
  intros H; right; apply IH, H.
Qed.

Lemma assoc_not_key (k : string) (m : list (string * A)) : ~ In k (map fst m) -> assoc k m = None.
Proof.
  induction m as [|[k' v'] m IH]; simpl; [reflexivity|].
  intros H. destruct (String.eqb_spec k k') as [->|_]; [exfalso; apply H; left; reflexivity|].
  apply IH. intros H'; apply H; right; exact H'.
Qed.

Lemma In_assoc_NoDup (k : string) (m : list (string * A)) v :
  NoDup (map fst m) -> In (k, v) m -> assoc k m = Some v.
Proof.
  induction m as [|[k' v'] m IH]; simpl; [intros _ []|].
  intros ND [E|H]; inversion ND as [|? ? Hn ND']; subst.
  - inversion E; subst. rewrite String.eqb_refl. reflexivity.
  - destruct (String.eqb_spec k k') as [->|_].
    + exfalso. apply Hn. apply (in_map fst) in H. exact H.
    + apply IH; assumption.
Qed.

Lemma assoc_key (k : string) (m : list (string * A)) v : assoc k m = Some v -> In k (map fst m).
Proof. intros H. apply assoc_In in H. apply (in_map fst) in H. exact H. Qed.

Lemma setdefault_keys (m : list (string * list A)) k v k' :
  In k' (map fst (setdefault_append m k v)) <-> k' = k \/ In k' (map fst m).
Proof.
  induction m as [|[k0 vs] m IH]; simpl.
  - intuition congruence.
  - destruct (String.eqb_spec k k0) as [->|_]; simpl; [intuition congruence|].
    rewrite IH. intuition congruence.
Qed.

Lemma setdefault_NoDup (m : list (string * list A)) k v :
  NoDup (map fst m) -> NoDup (map fst (setdefault_append m k v)).
Proof.
  induction m as [|[k0 vs] m IH]; simpl; intros ND.
  - constructor; [intros []|constructor].
  - inversion ND as [|? ? Hn ND']; subst.
    destruct (String.eqb_spec k k0) as [->|Hne]; simpl; constructor; auto.
    rewrite setdefault_keys. intros [->|H]; [apply Hne; reflexivity|apply Hn, H].
Qed.

Lemma setdefault_assoc_same (m : list (string * list A)) k v :
  exists vs, assoc k (setdefault_append m k v) = Some vs /\ In v vs.
Proof.
  induction m as [|[k0 vs] m IH]; simpl.
  - rewrite String.eqb_refl. exists [v]. split; [reflexivity|left; reflexivity].
  - destruct (String.eqb k k0) eqn:E; simpl; rewrite E.
    + exists (app vs [v]). split; [reflexivity|apply in_or_app; right; left; reflexivity].
    + exact IH.
Qed.

Lemma setdefault_assoc_mono (m : list (string * list A)) k v k' vs :
  assoc k' m = Some vs -> exists vs', assoc k' (setdefault_append m k v) = Some vs' /\ incl vs vs'.
Proof.
  induction m as [|[k0 vs0] m IH]; simpl; [discriminate|].
  destruct (String.eqb k' k0) eqn:E1; intros H.
  - inversion H; subst. destruct (String.eqb k k0); simpl; rewrite E1; eexists;
      (split; [reflexivity|]); intros x Hx; [apply in_or_app; left|]; exact Hx.
  - destruct (String.eqb k k0); simpl; rewrite E1; [exists vs; split; [exact H|intros x Hx; exact Hx]|].
    apply IH, H.
Qed.

Section Fold.
Context {B : Type} (g : B -> string) (h : B -> A).

Lemma fold_sd_mono l acc k vs :
  assoc k acc = Some vs -> exists vs', assoc k (fold_sd g h l acc) = Some vs' /\ incl vs vs'.
Proof.
  revert acc vs; induction l as [|b l IH]; intros acc vs H; simpl.
  - exists vs. split; [exact H|intros x Hx; exact Hx].
  - destruct (setdefault_assoc_mono acc (g b) (h b) k vs H) as [vs1 [H1 I1]].
    destruct (IH _ _ H1) as [vs2 [H2 I2]]. exists vs2. split; [exact H2|].
    intros x Hx; apply I2, I1, Hx.
Qed.

Lemma fold_sd_In l acc b :
  In b l -> exists vs, assoc (g b) (fold_sd g h l acc) = Some vs /\ In (h b) vs.
Proof.
  revert acc; induction l as [|b0 l IH]; intros acc Hin; [destruct Hin|].
  destruct Hin as [->|Hin]; simpl.
  - destruct (setdefault_assoc_same acc (g b) (h b)) as [vs1 [H1 I1]].
    destruct (fold_sd_mono l _ _ _ H1) as [vs2 [H2 I2]]. exists vs2. split; [exact H2|apply I2, I1].
  - apply IH, Hin.
Qed.

Lemma fold_sd_NoDup l acc : NoDup (map fst acc) -> NoDup (map fst (fold_sd g h l acc)).
Proof.
  revert acc; induction l as [|b l IH]; intros acc ND; simpl; [exact ND|].
  apply IH, setdefault_NoDup, ND.
Qed.

End Fold.
End Dicts.

Lemma has_key_assoc {A} (k : string) (m : list (string * A)) :
  has_key k m = false <-> assoc k m = None.
Proof. unfold has_key. destruct (assoc k m); split; congruence. Qed.

Lemma children_map_NoDup topo : NoDup (map fst (children_map topo)).
Proof.
  unfold children_map.
  cut (NoDup (map fst (@nil (string * list string)))); [|constructor].
  generalize (@nil (string * list string)) as acc.
  induction topo as [|[d info] topo IH]; intros acc ND; simpl; [exact ND|].
  apply IH. destruct (parent_id info) as [p|]; [|exact ND].
  destruct (nonempty p); [apply setdefault_NoDup|]; exact ND.
Qed.

(* ------------------------------------------------------------------ *)
(** ** Silent-failure detection *)

Lemma detect_loop_keys m cm q ev : In (q, ev) (detect_loop m cm) -> In q (map fst cm).
Proof.
  induction cm as [|[k cs] cm IH]; simpl; [intros []|].
  destruct (silent_candidate m k cs); [intros [E|H]; [inversion E; left; reflexivity|]|intros H];
    right; apply IH, H.
Qed.

Lemma detect_loop_assoc m cm parent :
  NoDup (map fst cm) ->
  assoc parent (detect_loop m cm)
  = match assoc parent cm with Some cs => silent_candidate m parent cs | None => None end.
Proof.
  induction cm as [|[k cs] cm IH]; simpl; intros ND; [reflexivity|].
  inversion ND as [|? ? Hn ND']; subst.
  destruct (silent_candidate m k cs) as [ev|] eqn:E; simpl;
    destruct (String.eqb_spec parent k) as [->|Hne]; auto.
  rewrite E. apply assoc_not_key. intros Hk.
  apply Hn. apply in_map_iff in Hk as [[q e'] [Eq Hq]]. simpl in Eq; subst.
  apply (detect_loop_keys _ _ _ _ Hq).
Qed.

Lemma silent_candidate_not_alarmed m parent cs ev :
  silent_candidate m parent cs = Some ev -> has_key parent m = false.
Proof.
  unfold silent_candidate. destruct cs; [discriminate|].
  destruct (has_key parent m); [discriminate|reflexivity].
Qed.

Lemma detect_not_alarmed topo m q ev :
  In (q, ev) (_detect_silent_failures topo m) -> has_key q m = false.
Proof.
  unfold _detect_silent_failures. generalize (children_map topo) as cm.
  induction cm as [|[k cs] cm IH]; simpl; [intros []|].
  destruct (silent_candidate m k cs) eqn:E; [intros [Eq|H]; [inversion Eq; subst|]|intros H].
  - apply (silent_candidate_not_alarmed _ _ _ _ E).
  - apply IH, H.
  - apply IH, H.
Qed.

Lemma silent_candidate_spec m parent children :
  children <> [] -> has_key parent m = false ->
  let affected := affected_children m children in
  silent_candidate m parent children
  = if (2 <=? length affected)%nat
       && Qle_bool (1 # 2) (Z.of_nat (length affected) # Pos.of_nat (length children))
    then Some {| ev_children := affected; evidence_count := length affected;
                 total_children := length children;
                 ratio := Z.of_nat (length affected) # Pos.of_nat (length children);
                 report := silent_report parent (length affected) (length children) |}
    else None.
Proof.
  intros Hne Hk affected. unfold silent_candidate.
  destruct children as [|c0 cs]; [congruence|]. rewrite Hk.
  replace (Nat.max (length (c0 :: cs)) 1) with (length (c0 :: cs)) by (simpl; lia).
  unfold affected.
  destruct (affected_children m (c0 :: cs)) as [|x l]; reflexivity.
Qed.

(** C3.  For a parent listed in [children_map] (at least one child) with
    no alert of its own, [_detect_silent_failures] emits evidence for it
    exactly when at least 2 children have a connection-loss message and
    their share of the children is at least 1/2; the evidence holds the
    affected children, their number, the total, the ratio and the report. *)
Theorem C3_silent_failure_threshold : forall topo msg_map parent children,
  In (parent, children) (children_map topo) ->
  children <> [] ->
  has_key parent msg_map = false ->
  let affected := affected_children msg_map children in
  let a := length affected in
  let total := length children in
  match assoc parent (_detect_silent_failures topo msg_map) with
  | Some ev =>
      ((SILENT_MIN_CHILDREN <= a)%nat /\ (SILENT_RATIO <= Z.of_nat a # Pos.of_nat total)%Q) /\
      ev = {| ev_children := affected; evidence_count := a; total_children := total;
              ratio := Z.of_nat a # Pos.of_nat total; report := silent_report parent a total |}
  | None =>
      ~ ((SILENT_MIN_CHILDREN <= a)%nat /\ (SILENT_RATIO <= Z.of_nat a # Pos.of_nat total)%Q)
  end.
Proof.
  intros topo msg_map parent children Hin Hne Hk affected a total.
  unfold _detect_silent_failures.
  rewrite (detect_loop_assoc _ _ _ (children_map_NoDup topo)).
  rewrite (In_assoc_NoDup _ _ _ (children_map_NoDup topo) Hin).
  rewrite (silent_candidate_spec _ _ _ Hne Hk). fold affected a total.
  unfold SILENT_MIN_CHILDREN, SILENT_RATIO.
  destruct (Nat.leb_spec 2 a) as [H2|H2];
    destruct (Qle_bool (1 # 2) (Z.of_nat a # Pos.of_nat total)) eqn:Hq; simpl.
  - split; [split; [exact H2|apply Qle_bool_iff, Hq]|reflexivity].
  - intros [_ Hq']. apply Qle_bool_iff in Hq'. congruence.
  - intros [H2' _]. lia.
  - intros [H2' _]. lia.
Qed.

Lemma C3_witness :
  let m := [("A1", ["Connection Lost"]); ("A2", ["Connection Lost"])] in
  In ("CORE", ["A1"; "A2"; "A3"; "A4"]) (children_map topo_core4) /\
  ["A1"; "A2"; "A3"; "A4"] <> [] /\
  has_key "CORE" m = false /\
  assoc "CORE" (_detect_silent_failures topo_core4 m)
  = Some {| ev_children := ["A1"; "A2"]; evidence_count := 2; total_children := 4;
            ratio := 2 # 4; report := silent_report "CORE" 2 4 |}.
Proof.
  intros m.
  assert (Hin : In ("CORE", ["A1"; "A2"; "A3"; "A4"]) (children_map topo_core4))
    by (vm_compute; left; reflexivity).
  assert (Hne : ["A1"; "A2"; "A3"; "A4"] <> []) by discriminate.
  assert (Hk : has_key "CORE" m = false) by reflexivity.
  split; [exact Hin|]. split; [exact Hne|]. split; [exact Hk|].
  pose proof (C3_silent_failure_threshold topo_core4 m "CORE" _ Hin Hne Hk) as H.
  destruct (assoc "CORE" (_detect_silent_failures topo_core4 m)) as [ev|].
  - destruct H as [_ ->]. reflexivity.
  - exfalso. apply H. split; [vm_compute; lia|vm_compute; discriminate].
Defined.

(** The [ratio=] text of the report follows the double: 21/40 is stored as
    0.525000000000000022..., printed 0.53; 101/200 as 0.505000000000000004...,
    printed 0.51; an exact tie such as 1/8 rounds to even. *)
Lemma fmt_ratio2_values :
  fmt_ratio2 2 4 = "0.50" /\ fmt_ratio2 21 40 = "0.53" /\ fmt_ratio2 101 200 = "0.51" /\
  fmt_ratio2 1 8 = "0.12" /\ fmt_ratio2 3 8 = "0.38" /\ fmt_ratio2 2 3 = "0.67" /\
  fmt_ratio2 0 1 = "0.00" /\ fmt_ratio2 3 3 = "1.00".
Proof. vm_compute. repeat split. Qed.

(** The second scenario of the spec: one affected child out of four
    (ratio 0.25) does not make [CORE] a suspect. *)
Lemma silent_one_of_four_not_promoted :
  _detect_silent_failures topo_core4 [("A1", ["Connection Lost"])] = [].
Proof. vm_compute. reflexivity. Qed.

(* ------------------------------------------------------------------ *)
(** ** The loop and the sort of [analyze] *)

Lemma map_opt_In {A B} (f : A -> option B) l ys x :
  map_opt f l = Some ys -> In x l -> exists y, f x = Some y /\ In y ys.
Proof.
  revert ys; induction l as [|x0 l IH]; intros ys H Hin; [destruct Hin|]. simpl in H.
  destruct (f x0) as [y0|] eqn:E0; [|discriminate].
  destruct (map_opt f l) as [ys'|]; [|discriminate]. inversion H; subst.
  destruct Hin as [->|Hin].
  - exists y0. split; [exact E0|left; reflexivity].
  - destruct (IH ys' eq_refl Hin) as [y [Hy Iy]]. exists y. split; [exact Hy|right; exact Iy].
Qed.

Lemma map_opt_In_inv {A B} (f : A -> option B) l ys y :
  map_opt f l = Some ys -> In y ys -> exists x, In x l /\ f x = Some y.
Proof.
  revert ys; induction l as [|x0 l IH]; intros ys H Hin; simpl in H.
  - inversion H; subst. destruct Hin.
  - destruct (f x0) as [y0|] eqn:E0; [|discriminate].
    destruct (map_opt f l) as [ys'|]; [|discriminate]. inversion H; subst.
    destruct Hin as [<-|Hin].
    + exists x0. split; [left; reflexivity|exact E0].
    + destruct (IH ys' eq_refl Hin) as [x [Ix Hx]]. exists x. split; [right; exact Ix|exact Hx].
Qed.

Lemma insert_desc_In x l y : In y (insert_desc x l) <-> y = x \/ In y l.
Proof.
  induction l as [|y0 l IH]; simpl; [intuition congruence|].
  destruct (Qle_bool (r_prob x) (r_prob y0)); simpl; [rewrite IH|]; intuition congruence.
Qed.

Lemma sort_desc_In l y : In y (sort_desc l) <-> In y l.
Proof.
  unfold sort_desc.
  cut (forall acc, In y (fold_left (fun acc x => insert_desc x acc) l acc) <-> In y l \/ In y acc).
  { intros H. rewrite H. simpl. tauto. }
  induction l as [|x l IH]; intros acc; simpl; [tauto|].
  rewrite IH, insert_desc_In. intuition congruence.
Qed.

Lemma analyze_device_id e topo silent alarmed dev msgs r :
  analyze_device e topo silent alarmed dev msgs = Some r -> r_id r = dev.
Proof.
  unfold analyze_device.
  destruct (_ && _); [intros [= <-]; reflexivity|].
  destruct (_ && _); [intros [= <-]; reflexivity|].
  destruct (assoc dev silent); [intros [= <-]; reflexivity|].
  destruct (if is_unknown _ then _ else _) as [sp|]; [|discriminate].
  destruct (if sp then _ else _) as [prob tier]. intros [= <-]. reflexivity.
Qed.

Lemma msg_map_NoDup alarms silent :
  NoDup (map fst (inject_silent (build_msg_map alarms) silent)).
Proof. apply fold_sd_NoDup, fold_sd_NoDup. constructor. Qed.

Lemma alarm_in_msg_map alarms silent a :
  In a alarms ->
  exists vs, assoc (device_id a) (inject_silent (build_msg_map alarms) silent) = Some vs
             /\ In (message a) vs.
Proof.
  intros Hin. destruct (fold_sd_In device_id message alarms [] a Hin) as [vs1 [H1 I1]].
  destruct (fold_sd_mono fst (fun _ => SILENT_MESSAGE) silent _ _ _ H1) as [vs2 [H2 I2]].
  exists vs2. split; [exact H2|apply I2, I1].
Qed.

(** The alarmed devices are never silent suspects. *)
Lemma alarmed_not_suspect topo alarms a :
  In a alarms -> assoc (device_id a) (_detect_silent_failures topo (build_msg_map alarms)) = None.
Proof.
  intros Hin. destruct (fold_sd_In device_id message alarms [] a Hin) as [vs1 [H1 _]].
  destruct (assoc (device_id a) (_detect_silent_failures topo (build_msg_map alarms)))
    as [ev|] eqn:E; [|reflexivity].
  apply assoc_In, detect_not_alarmed in E. unfold has_key, build_msg_map in E.
  rewrite H1 in E. discriminate.
Qed.

(** C5.  A device of the batch with a message containing [unreachable]
    (any case), whose parent (a non-empty id) has an alert in the batch,
    gets from [analyze] exactly one result, and that result is Tier 3 with
    confidence 0.2, impact type Network/Unreachable and a reason naming the
    parent.  (Such a parent is never a silent suspect, since it is
    alarmed.)  The hypothesis [analyze ... = Some rs] excludes the runs
    where [analyze] raises. *)
Theorem C5_unreachable_cascade : forall e topo alarms rs a b p,
  In a alarms ->
  contains "unreachable" (lower (message a)) = true ->
  _get_parent_id topo (device_id a) = Some p ->
  nonempty p = true ->
  In b alarms -> device_id b = p ->
  analyze e topo alarms = Some rs ->
  exists r, In r rs /\ (forall r', In r' rs -> r_id r' = device_id a -> r' = r) /\
    r_id r = device_id a /\ r_tier r = 3%Z /\ r_prob r = 2 # 10 /\
    r_type r = JStr "Network/Unreachable" /\
    r_reason r = JStr ("Downstream unreachable due to upstream alarm (parent=" ++ p ++ ").").
Proof.
  intros e topo alarms rs a b p Ha Hu Hp Hne Hb Hbp Han.
  assert (Hrs : exists rs0, analyze_results e topo alarms = Some rs0 /\ rs = sort_desc rs0).
  { unfold analyze in Han. destruct alarms as [|a0 al0]; [destruct Ha|].
    destruct (analyze_results e topo (a0 :: al0)) as [rs0|]; [|discriminate].
    inversion Han. exists rs0. split; reflexivity. }
  clear Han. destruct Hrs as [rs0' [Han ->]].
  unfold analyze_results in Han.
  set (silent := _detect_silent_failures topo (build_msg_map alarms)) in Han.
  set (mm := inject_silent (build_msg_map alarms) silent) in Han.
  set (f := fun dm : string * list string =>
              analyze_device e topo silent (map fst mm) (fst dm) (snd dm)) in Han.
  rename rs0' into rs0. rename Han into Em. fold f in Em.
  destruct (alarm_in_msg_map alarms silent a Ha) as [vs [Hvs Ivs]]. fold mm in Hvs.
  assert (Hnd : NoDup (map fst mm)) by apply msg_map_NoDup.
  assert (Hdm : In (device_id a, vs) mm) by (apply assoc_In; exact Hvs).
  destruct (map_opt_In f mm rs0 _ Em Hdm) as [r [Hr Ir]].
  assert (Hsil : parent_is_silent_suspect topo silent (device_id a) = false).
  { unfold parent_is_silent_suspect, truthy. rewrite Hp, Hne. simpl.
    apply has_key_assoc. subst p. apply alarmed_not_suspect, Hb. }
  assert (Halm : parent_is_alarmed topo (map fst mm) (device_id a) = true).
  { unfold parent_is_alarmed, truthy. rewrite Hp, Hne. simpl. apply existsb_exists.
    destruct (alarm_in_msg_map alarms silent b Hb) as [vsb [Hvsb _]]. fold mm in Hvsb.
    exists p. split; [subst p; apply (assoc_key _ _ _ Hvsb)|apply String.eqb_refl]. }
  assert (Hex : existsb (fun m => contains "unreachable" (lower m)) vs = true)
    by (apply existsb_exists; exists (message a); split; assumption).
  unfold f in Hr. simpl in Hr. unfold analyze_device in Hr.
  rewrite Hsil, Hex, Halm, Hp in Hr. simpl in Hr. inversion Hr; subst r; clear Hr.
  eexists. split; [apply sort_desc_In, Ir|]. split.
  - intros r' Ir' Eid. rewrite sort_desc_In in Ir'.
    destruct (map_opt_In_inv f mm rs0 r' Em Ir') as [[d msgs] [Idm Hf]].
    unfold f in Hf. simpl in Hf. pose proof (analyze_device_id _ _ _ _ _ _ _ Hf) as Hid.
    rewrite Eid in Hid. subst d.
    rewrite (In_assoc_NoDup _ _ _ Hnd Idm) in Hvs. inversion Hvs; subst msgs.
    unfold analyze_device in Hf. rewrite Hsil, Hex, Halm, Hp in Hf. simpl in Hf.
    inversion Hf. reflexivity.
  - repeat split.
Qed.

Lemma C5_witness :
  let alarms := [al "CORE" "Power Supply: Dual Loss"; al "A1" "Host unreachable"] in
  let rs := match analyze env_no_key topo_core4 alarms with Some rs => rs | None => [] end in
  analyze env_no_key topo_core4 alarms = Some rs /\
  exists r, In r rs /\ (forall r', In r' rs -> r_id r' = "A1" -> r' = r) /\
    r_id r = "A1" /\ r_tier r = 3%Z /\ r_prob r = 2 # 10 /\
    r_type r = JStr "Network/Unreachable" /\
    r_reason r = JStr ("Downstream unreachable due to upstream alarm (parent=" ++ "CORE" ++ ").").
Proof.
  intros alarms rs.
  assert (H : analyze env_no_key topo_core4 alarms = Some rs) by (vm_compute; reflexivity).
  split; [exact H|].
  apply (C5_unreachable_cascade env_no_key topo_core4 alarms rs
           (al "A1" "Host unreachable") (al "CORE" "Power Supply: Dual Loss") "CORE").
  - right; left; reflexivity.
  - vm_compute; reflexivity.
  - reflexivity.
  - reflexivity.
  - left; reflexivity.
  - reflexivity.
  - exact H.
Defined.

(** C4.  In [topo_nested] (G is the parent of P, c1, c2; P is the parent
    of d1, d2) with a connection loss on c1, c2, d1 and d2, both G and P
    are silent suspects.  The synthetic message injected on P contains
    [Connection Lost] and P's parent G is a suspect, so [analyze] reports P
    as a downstream symptom (Tier 3, 0.4, no report, no checklist) and not
    as a silent failure (Tier 1, 0.8). *)
Lemma C4_nested_suspect_loses_tier1 :
  map fst (_detect_silent_failures topo_nested (build_msg_map alarms_nested)) = ["G"; "P"] /\
  _is_connection_loss SILENT_MESSAGE = true /\
  match analyze env_no_key topo_nested alarms_nested with
  | Some rs =>
      map (fun r => (r_id r, r_tier r, r_prob r, r_type r,
                     match r_analyst_report r with Some _ => true | None => false end,
                     length (r_auto_investigation r))) rs
  | None => []
  end
  = [("G", 1%Z, 8 # 10, JStr "Network/SilentFailure", true, 4%nat);
     ("c1", 3%Z, 4 # 10, JStr "Network/ConnectionLost", false, 0%nat);
     ("c2", 3%Z, 4 # 10, JStr "Network/ConnectionLost", false, 0%nat);
     ("d1", 3%Z, 4 # 10, JStr "Network/ConnectionLost", false, 0%nat);
     ("d2", 3%Z, 4 # 10, JStr "Network/ConnectionLost", false, 0%nat);
     ("P", 3%Z, 4 # 10, JStr "Network/ConnectionLost", false, 0%nat)].
Proof. vm_compute. repeat split. Qed.

(* ------------------------------------------------------------------ *)
(** ** Multi-parent uplinks *)

Lemma map_opt_ext {A B} (f g : A -> option B) l :
  (forall x, f x = g x) -> map_opt f l = map_opt g l.
Proof. intros H; induction l as [|x l IH]; simpl; [reflexivity|]. rewrite H, IH. reflexivity. Qed.

Lemma assoc_forget d topo :
  assoc d (forget_parent_ids topo)
  = option_map (fun info => {| parent_id := parent_id info; parent_ids := [];
                               metadata := metadata info |}) (assoc d topo).
Proof.
  induction topo as [|[d' info] topo IH]; simpl; [reflexivity|].
  destruct (String.eqb d d'); [reflexivity|exact IH].
Qed.

Lemma get_parent_forget topo d : _get_parent_id (forget_parent_ids topo) d = _get_parent_id topo d.
Proof.
  unfold _get_parent_id, _get_device_info. rewrite assoc_forget. destruct (assoc d topo); reflexivity.
Qed.

Lemma get_metadata_forget topo d : _get_metadata (forget_parent_ids topo) d = _get_metadata topo d.
Proof.
  unfold _get_metadata, _get_device_info. rewrite assoc_forget. destruct (assoc d topo); reflexivity.
Qed.

Lemma children_map_forget topo : children_map (forget_parent_ids topo) = children_map topo.
Proof.
  unfold children_map. generalize (@nil (string * list string)) as acc.
  induction topo as [|[d info] topo IH]; intros acc; simpl; [reflexivity|]. apply IH.
Qed.

Lemma local_safety_rules_forget topo d j :
  local_safety_rules (forget_parent_ids topo) d j = local_safety_rules topo d j.
Proof. unfold local_safety_rules, _get_psu_count. rewrite get_metadata_forget. reflexivity. Qed.

Lemma analyze_device_forget e topo silent alarmed dev msgs :
  analyze_device e (forget_parent_ids topo) silent alarmed dev msgs
  = analyze_device e topo silent alarmed dev msgs.
Proof.
  unfold analyze_device, parent_is_alarmed, parent_is_silent_suspect, analyze_redundancy_depth.
  rewrite !get_parent_forget, !local_safety_rules_forget. reflexivity.
Qed.

Lemma setdefault_In_value {A} (m : list (string * list A)) k v p cs x :
  In (p, cs) (setdefault_append m k v) -> In x cs -> x = v \/ exists cs0, In (p, cs0) m /\ In x cs0.
Proof.
  induction m as [|[k0 vs] m IH]; simpl.
  - intros [E|[]] Hx. inversion E; subst. destruct Hx as [->|[]]. left; reflexivity.
  - destruct (String.eqb k k0).
    + intros [E|H] Hx.
      * inversion E; subst. apply in_app_or in Hx as [Hx|[->|[]]]; [|left; reflexivity].
        right. exists vs. split; [left; reflexivity|exact Hx].
      * right. exists cs. split; [right; exact H|exact Hx].
    + intros [E|H] Hx.
      * inversion E; subst. right. exists cs. split; [left; reflexivity|exact Hx].
      * destruct (IH H Hx) as [->|[cs0 [I0 X0]]]; [left; reflexivity|].
        right. exists cs0. split; [right; exact I0|exact X0].
Qed.

(** C10.  The engine never reads [parent_ids]: [analyze] gives the same
    output when every [parent_ids] list is emptied.  A device whose
    entries all have no [parent_id] has no parent for the engine and is a
    child in no list of [children_map], whatever its [parent_ids] say. *)
Theorem C10_parent_ids_never_read : forall topo,
  (forall e alarms, analyze e (forget_parent_ids topo) alarms = analyze e topo alarms) /\
  (forall d, (forall info, In (d, info) topo -> parent_id info = None) ->
     _get_parent_id topo d = None /\
     forall p cs, In (p, cs) (children_map topo) -> ~ In d cs).
Proof.
  intros topo. split.
  - intros e alarms. unfold analyze, analyze_results, _detect_silent_failures.
    rewrite children_map_forget.
    destruct alarms; [reflexivity|].
    rewrite (map_opt_ext _ (fun dm => analyze_device e topo
               (detect_loop (build_msg_map (a :: alarms)) (children_map topo))
               (map fst (inject_silent (build_msg_map (a :: alarms))
                  (detect_loop (build_msg_map (a :: alarms)) (children_map topo))))
               (fst dm) (snd dm)));
      [reflexivity|intros x; apply analyze_device_forget].
  - intros d Hd. split.
    + unfold _get_parent_id, _get_device_info.
      destruct (assoc d topo) as [info|] eqn:E; [|reflexivity].
      apply Hd, assoc_In, E.
    + unfold children_map.
      cut (forall p cs, In (p, cs) (@nil (string * list string)) -> ~ In d cs); [|intros p cs []].
      generalize (@nil (string * list string)) as acc.
      induction topo as [|[d0 info] topo IH]; intros acc Hacc; simpl; [exact Hacc|].
      apply IH; [intros info' Hi; apply Hd; right; exact Hi|].
      destruct (parent_id info) as [q|] eqn:Eq; [|exact Hacc].
      destruct (nonempty q); [|exact Hacc].
      intros p cs Hin Hx.
      destruct (setdefault_In_value acc q d0 p cs d Hin Hx) as [->|[cs0 [I0 X0]]].
      * rewrite (Hd info (or_introl eq_refl)) in Eq. discriminate.
      * apply (Hacc p cs0 I0 X0).
Qed.

Lemma C10_witness :
  (forall info, In ("A1", info) topo_multi -> parent_id info = None) /\
  _get_parent_id topo_multi "A1" = None /\
  (forall p cs, In (p, cs) (children_map topo_multi) -> ~ In "A1" cs).
Proof.
  assert (H : forall info, In ("A1", info) topo_multi -> parent_id info = None).
  { intros info Hi. simpl in Hi.
    destruct Hi as [E|[E|[E|[]]]]; inversion E; reflexivity. }
  split; [exact H|]. exact (proj2 (C10_parent_ids_never_read topo_multi) "A1" H).
Defined.

Lemma C10_counterexample :
  _detect_silent_failures topo_multi
    (build_msg_map [al "A1" "Connection Lost"; al "A2" "Connection Lost"]) = [] /\
  match analyze env_no_key topo_multi [al "CORE" "Power Supply: Dual Loss"; al "A1" "Host unreachable"] with
  | Some rs => map (fun r => (r_id r, r_tier r, r_prob r, r_type r)) rs
  | None => []
  end
  = [("CORE", 1%Z, 9 # 10, JStr "Hardware/Physical"); ("A1", 3%Z, 5 # 10, JStr "UNKNOWN")].
Proof. vm_compute. split; reflexivity. Qed.

Local Open Scope nat_scope.

(* ------------------------------------------------------------------ *)
(** ** Strings: append, head, runs *)




Lemma app_nil_r_s (a : string) : a ++ "" = a.
Proof. induction a as [|c a IH]; simpl; [reflexivity|rewrite IH; reflexivity]. Qed.

Lemma app_assoc_s (a b c : string) : (a ++ b) ++ c = a ++ (b ++ c).
Proof. induction a as [|x a IH]; simpl; [reflexivity|rewrite IH; reflexivity]. Qed.

Lemma length_app_s (a b : string) : String.length (a ++ b) = String.length a + String.length b.
Proof. induction a as [|x a IH]; simpl; [reflexivity|rewrite IH; reflexivity]. Qed.

Lemma app_eq_app_s (a b c d : string) :
  a ++ b = c ++ d ->
  exists l, (c = a ++ l /\ b = l ++ d) \/ (a = c ++ l /\ d = l ++ b).
Proof.
  revert c; induction a as [|x a IH]; intros c H; simpl in H.
  - exists c. left. split; [reflexivity|exact H].
  - destruct c as [|y c]; simpl in H.
    + exists (String x a). right. split; [reflexivity|symmetry; exact H].
    + inversion H; subst. destruct (IH c H2) as [l [[-> ->]|[-> ->]]];
        exists l; [left|right]; split; reflexivity.
Qed.

Lemma app_inv_head_s (a b c : string) : a ++ b = a ++ c -> b = c.
Proof. induction a as [|x a IH]; simpl; [auto|intros H; inversion H; auto]. Qed.

Lemma app_inv_tail_s (a b c : string) : a ++ c = b ++ c -> a = b.
Proof.
  intros H. destruct (app_eq_app_s _ _ _ _ H) as [l [[-> E]|[-> E]]].
  - assert (Hl : String.length c = String.length l + String.length c)
      by (rewrite <- length_app_s, <- E; reflexivity).
    destruct l; [rewrite app_nil_r_s; reflexivity|simpl in Hl; lia].
  - assert (Hl : String.length c = String.length l + String.length c)
      by (rewrite <- length_app_s, <- E; reflexivity).
    destruct l; [rewrite app_nil_r_s; reflexivity|simpl in Hl; lia].
Qed.

Lemma app_eq_nil_s (a b : string) : a ++ b = "" -> a = "" /\ b = "".
Proof. destruct a; simpl; [auto|discriminate]. Qed.

Lemma hd_app_l (a b : string) : a <> "" -> hd_s (a ++ b) = hd_s a.
Proof. destruct a; simpl; [congruence|reflexivity]. Qed.

Lemma allb_app p (a b : string) : allb p (a ++ b) = allb p a && allb p b.
Proof. induction a as [|x a IH]; simpl; [reflexivity|rewrite IH, andb_assoc; reflexivity]. Qed.

Lemma stop_app p (a b : string) : a <> "" -> stop p (a ++ b) = stop p a.
Proof. destruct a; simpl; [congruence|reflexivity]. Qed.

Lemma span_app p (a b : string) :
  allb p a = true -> stop p b = true -> span p (a ++ b) = (a, b).
Proof.
  induction a as [|x a IH]; simpl; intros Ha Hb.
  - destruct b as [|y b]; simpl in *; [reflexivity|]. destruct (p y); [discriminate|reflexivity].
  - apply andb_true_iff in Ha as [Hx Ha]. rewrite Hx, (IH Ha Hb). reflexivity.
Qed.

Lemma span_spec p (s a b : string) :
  span p s = (a, b) -> s = a ++ b /\ allb p a = true /\ stop p b = true.
Proof.
  revert a b; induction s as [|x s IH]; intros a b H; simpl in H.
  - inversion H; subst. repeat split.
  - destruct (p x) eqn:Ex.
    + destruct (span p s) as [a' b'] eqn:E. injection H as <- <-.
      destruct (IH a' b' eq_refl) as [-> [Ha Hb]]. simpl. rewrite Ex, Ha. repeat split; assumption.
    + inversion H; subst. simpl. rewrite Ex. repeat split.
Qed.

(** Two decompositions into a maximal run of [p] characters and a rest agree. *)
Lemma run_unique p (a b a' b' : string) :
  allb p a = true -> stop p b = true -> allb p a' = true -> stop p b' = true ->
  a ++ b = a' ++ b' -> a = a' /\ b = b'.
Proof.
  intros Ha Hb Ha' Hb' E.
  pose proof (span_app p a b Ha Hb) as S1. pose proof (span_app p a' b' Ha' Hb') as S2.
  rewrite E in S1. rewrite S1 in S2. inversion S2. split; reflexivity.
Qed.

Lemma prefixb_app_self (a x : string) : prefixb a (a ++ x) = true.
Proof. induction a as [|c a IH]; simpl; [reflexivity|rewrite Ascii.eqb_refl; exact IH]. Qed.

Lemma prefixb_spec (a s : string) : prefixb a s = true -> exists x, s = a ++ x.
Proof.
  revert s; induction a as [|c a IH]; intros s H; [exists s; reflexivity|].
  destruct s as [|c' s]; simpl in H; [discriminate|].
  apply andb_true_iff in H as [Hc H]. apply Ascii.eqb_eq in Hc; subst c'.
  destruct (IH s H) as [x ->]. exists x. reflexivity.
Qed.

Lemma substring_all (s : string) : substring 0 (String.length s) s = s.
Proof. induction s as [|c s IH]; simpl; [reflexivity|rewrite IH; reflexivity]. Qed.

Lemma drop_app (a x : string) : drop (String.length a) (a ++ x) = x.
Proof.
  unfold drop. rewrite length_app_s.
  replace (String.length a + String.length x - String.length a) with (String.length x) by lia.
  induction a as [|c a IH]; simpl; [apply substring_all|exact IH].
Qed.

(* ------------------------------------------------------------------ *)
(** ** [re_sub]: unfolding, fixed points, transfer of canonicity *)




Section ReSub.
Variable m : matcher.
Hypothesis Hm : wf_matcher m.

Lemma wf_length u r rest : m u = Some (r, rest) -> String.length rest < String.length u.
Proof.
  intros H. destruct (wf_consume m Hm _ _ _ H) as [w [-> Hw]].
  rewrite length_app_s. destruct w; [congruence|simpl; lia].
Qed.

Lemma re_sub_go_fuel f1 f2 t :
  String.length t < f1 -> String.length t < f2 -> re_sub_go m f1 t = re_sub_go m f2 t.
Proof.
  revert f2 t; induction f1 as [|f1 IH]; intros f2 t H1 H2; [lia|].
  destruct f2 as [|f2]; [lia|]. simpl.
  destruct (m t) as [[r rest]|] eqn:E.
  - pose proof (wf_length _ _ _ E). rewrite (IH f2); [reflexivity|lia|lia].
  - destruct t as [|c t]; [reflexivity|]. simpl in *. rewrite (IH f2); [reflexivity|lia|lia].
Qed.

Lemma re_sub_match t r rest : m t = Some (r, rest) -> re_sub m t = r ++ re_sub m rest.
Proof.
  intros E. pose proof (wf_length _ _ _ E). unfold re_sub at 1. simpl. rewrite E.
  unfold re_sub. rewrite (re_sub_go_fuel (String.length t) (S (String.length rest))); [reflexivity|lia|lia].
Qed.

Lemma re_sub_nomatch c t : m (String c t) = None -> re_sub m (String c t) = String c (re_sub m t).
Proof.
  intros E. unfold re_sub at 1. simpl. rewrite E. reflexivity.
Qed.

Lemma re_sub_nil : re_sub m "" = "".
Proof. unfold re_sub. simpl. rewrite (wf_nil m Hm). reflexivity. Qed.

Lemma hd_re_sub t : hd_s (re_sub m t) = hd_s t.
Proof.
  destruct t as [|c t]; [rewrite re_sub_nil; reflexivity|].
  destruct (m (String c t)) as [[r rest]|] eqn:E.
  - rewrite (re_sub_match _ _ _ E). pose proof (wf_head m Hm _ _ _ E) as Hh.
    destruct r as [|x r]; [discriminate|]. exact Hh.
  - rewrite (re_sub_nomatch _ _ E). reflexivity.
Qed.

(** The text up to the first match is copied. *)
Lemma re_sub_first t :
  re_sub m t = t \/
  exists p w rest r, t = p ++ w ++ rest /\ m (w ++ rest) = Some (r, rest) /\
                     re_sub m t = p ++ r ++ re_sub m rest.
Proof.
  induction t as [|c t IH].
  - left. apply re_sub_nil.
  - destruct (m (String c t)) as [[r rest]|] eqn:E.
    + right. destruct (wf_consume m Hm _ _ _ E) as [w [Ew _]].
      exists "", w, rest, r. rewrite <- Ew. split; [reflexivity|split; [exact E|]].
      apply re_sub_match, E.
    + rewrite (re_sub_nomatch _ _ E). destruct IH as [IH|[p [w [rest [r [Et [Em Eo]]]]]]].
      * left. rewrite IH. reflexivity.
      * right. exists (String c p), w, rest, r. rewrite Eo, Et. repeat split; assumption.
Qed.

Lemma canon_fixed t : canon m t -> re_sub m t = t.
Proof.
  unfold re_sub. generalize (S (String.length t)) as f.
  intros f; revert t; induction f as [|f IH]; intros t Hc; simpl; [reflexivity|].
  destruct (m t) as [[r rest]|] eqn:E.
  - pose proof (Hc "" t eq_refl r rest E) as Ht.
    rewrite IH; [exact Ht|]. intros a u Hu. apply (Hc (r ++ a)).
    rewrite <- Ht, Hu, app_assoc_s. reflexivity.
  - destruct t as [|c t]; [reflexivity|]. rewrite IH; [reflexivity|].
    intros a u Hu. apply (Hc (String c a)). rewrite Hu. reflexivity.
Qed.

End ReSub.

Lemma canon_cons m c s : canon_at m (String c s) -> canon m s -> canon m (String c s).
Proof.
  intros H1 H2 a u E. destruct a as [|x a]; simpl in E.
  - subst u. exact H1.
  - inversion E; subst. apply (H2 a u eq_refl).
Qed.

Lemma canon_app m r s :
  (forall r1 r2, r = r1 ++ r2 -> r2 <> "" -> canon_at m (r2 ++ s)) -> canon m s -> canon m (r ++ s).
Proof.
  intros H1 H2 a u E. destruct (app_eq_app_s _ _ _ _ E) as [l [[-> E2]|[E1 E2]]].
  - apply (H2 l u E2).
  - subst u. destruct l as [|x l]; [apply (H2 "" s eq_refl)|].
    apply (H1 a (String x l) E1). discriminate.
Qed.

Lemma canon_nil m : m "" = None -> canon m "".
Proof.
  intros H a u E. symmetry in E. apply app_eq_nil_s in E as [_ ->]. intros r rest E. congruence.
Qed.

(** Canonicity of [m'] after [re_sub m], from a precondition [Pre] on
    the input: [HM] covers the positions inside a replacement, [HO] the
    unmatched positions before a replacement. *)
Section Transfer.
Variables (m m' : matcher) (Pre : string -> Prop).
Hypothesis Hm : wf_matcher m.
Hypothesis Hm'nil : m' "" = None.
Hypothesis Pre_suffix : forall a b, Pre (a ++ b) -> Pre b.
Hypothesis Pre_at : forall c t, Pre (String c t) -> m (String c t) = None -> canon_at m' (String c t).
Hypothesis HM : forall u r rest, m u = Some (r, rest) ->
  forall r1 r2, r = r1 ++ r2 -> r2 <> "" -> canon_at m' (r2 ++ re_sub m rest).
Hypothesis HO : forall c p w rest r, m (w ++ rest) = Some (r, rest) ->
  canon_at m' (String c (p ++ w ++ rest)) ->
  canon_at m' (String c (p ++ r ++ re_sub m rest)).

Theorem transfer_canon : forall t, Pre t -> canon m' (re_sub m t).
Proof.
  intros t. remember (String.length t) as n eqn:En.
  revert t En. induction n as [n IH] using lt_wf_ind. intros t En Ht.
  destruct (m t) as [[r rest]|] eqn:E.
  - rewrite (re_sub_match m Hm _ _ _ E).
    destruct (wf_consume m Hm _ _ _ E) as [w [Ew Hw]].
    assert (Hrest : canon m' (re_sub m rest)).
    { apply (IH (String.length rest)); [|reflexivity|].
      - subst n. apply (wf_length m Hm _ _ _ E).
      - rewrite Ew in Ht. apply (Pre_suffix _ _ Ht). }
    apply canon_app; [|exact Hrest].
    intros r1 r2 Er Hr2. apply (HM _ _ _ E r1 r2 Er Hr2).
  - destruct t as [|c t]; [rewrite (re_sub_nil m Hm); apply canon_nil, Hm'nil|].
    rewrite (re_sub_nomatch m _ _ E). apply canon_cons.
    + destruct (re_sub_first m Hm t) as [Hid|[p [w [rest [r [Et [Em Eo]]]]]]].
      * rewrite Hid. apply (Pre_at _ _ Ht E).
      * rewrite Eo. apply (HO c p w rest r Em). rewrite <- Et. apply (Pre_at _ _ Ht E).
    + apply (IH (String.length t)); [subst n; simpl; lia|reflexivity|].
      apply (Pre_suffix (String c "") t Ht).
Qed.

End Transfer.

(* ------------------------------------------------------------------ *)
(** ** The four matchers as string shapes *)


Lemma nonempty_iff (s : string) : nonempty s = true <-> s <> "".
Proof. destruct s; simpl; split; congruence. Qed.

Lemma digit_not_space d : is_digit d = true -> is_space d = false.
Proof. destruct d as [[] [] [] [] [] [] [] []]; vm_compute; congruence. Qed.

Lemma dq_not_space : is_space dq = false.
Proof. reflexivity. Qed.

Lemma stop_space_of_nonspace (s : string) :
  s <> "" -> allb not_space s = true -> stop is_space s = true.
Proof.
  destruct s as [|c s]; simpl; [congruence|]. intros _ H.
  apply andb_true_iff in H as [H _]. exact H.
Qed.

Lemma stop_nonspace_of_space (s : string) :
  s <> "" -> allb is_space s = true -> stop not_space s = true.
Proof.
  destruct s as [|c s]; simpl; [congruence|]. intros _ H.
  apply andb_true_iff in H as [H _]. unfold not_space. rewrite H. reflexivity.
Qed.


Lemma digit_token_spec s d rest :
  digit_token s = Some (d, rest) <->
  exists ws1 ws2 tok, dt_shape ws1 d ws2 tok /\ stop not_space rest = true /\
                      s = ws1 ++ String d (ws2 ++ tok ++ rest).
Proof.
  split.
  - unfold digit_token. destruct (span is_space s) as [ws1 r1] eqn:S1.
    apply span_spec in S1 as [-> [A1 _]].
    destruct (nonempty ws1) eqn:N1; [|discriminate]. apply nonempty_iff in N1.
    destruct r1 as [|d' r2]; [discriminate|].
    destruct (is_digit d') eqn:D; [|discriminate].
    destruct (span is_space r2) as [ws2 r3] eqn:S2. apply span_spec in S2 as [-> [A2 _]].
    destruct (nonempty ws2) eqn:N2; [|discriminate]. apply nonempty_iff in N2.
    destruct (span not_space r3) as [tok r4] eqn:S3. apply span_spec in S3 as [-> [A3 T3]].
    destruct (nonempty tok) eqn:N3; [|discriminate]. apply nonempty_iff in N3.
    intros H; inversion H; subst.
    exists ws1, ws2, tok. repeat split; assumption.
  - intros [ws1 [ws2 [tok [[N1 [A1 [D [N2 [A2 [N3 A3]]]]]] [T ->]]]]].
    unfold digit_token.
    rewrite (span_app is_space ws1); [|exact A1|simpl; rewrite (digit_not_space d D); reflexivity].
    apply nonempty_iff in N1. rewrite N1, D.
    rewrite (span_app is_space ws2); [|exact A2|rewrite stop_app by exact N3; apply stop_space_of_nonspace; assumption].
    apply nonempty_iff in N2. rewrite N2.
    rewrite (span_app not_space tok); [|exact A3|exact T].
    apply nonempty_iff in N3. rewrite N3. reflexivity.
Qed.

(** [m_pwsecret] *)
Lemma m_pwsecret_spec u r rest :
  m_pwsecret u = Some (r, rest) <->
  exists K ws1 d ws2 tok, (K = "password" \/ K = "secret") /\ dt_shape ws1 d ws2 tok /\
    stop not_space rest = true /\
    u = K ++ ws1 ++ String d (ws2 ++ tok ++ rest) /\ r = K ++ " " ++ String d " ********".
Proof.
  split.
  - unfold m_pwsecret. cbv zeta.
    destruct (prefixb "password" u) eqn:P1.
    + destruct (prefixb_spec _ _ P1) as [s ->].
      change (String.length "password") with (String.length "password") at 1.
      rewrite drop_app.
      destruct (digit_token s) as [[d rest0]|] eqn:D.
      * intros H; inversion H; subst.
        apply digit_token_spec in D as [ws1 [ws2 [tok [Sh [T ->]]]]].
        exists "password", ws1, d, ws2, tok. split; [left; reflexivity|]. auto.
      * simpl. discriminate.
    + destruct (prefixb "secret" u) eqn:P2; [|discriminate].
      destruct (prefixb_spec _ _ P2) as [s ->]. rewrite drop_app.
      destruct (digit_token s) as [[d rest0]|] eqn:D; [|discriminate].
      intros H; inversion H; subst.
      apply digit_token_spec in D as [ws1 [ws2 [tok [Sh [T ->]]]]].
      exists "secret", ws1, d, ws2, tok. split; [right; reflexivity|]. auto.
  - intros [K [ws1 [d [ws2 [tok [HK [Sh [T [-> ->]]]]]]]]].
    assert (D : digit_token (ws1 ++ String d (ws2 ++ tok ++ rest)) = Some (d, rest))
      by (apply digit_token_spec; exists ws1, ws2, tok; auto).
    unfold m_pwsecret. cbv zeta.
    destruct HK as [->| ->].
    + rewrite prefixb_app_self, drop_app, D. reflexivity.
    + simpl prefixb at 1. cbv iota. rewrite prefixb_app_self, drop_app, D. reflexivity.
Qed.


Lemma m_username_spec u r rest :
  m_username u = Some (r, rest) <->
  exists ws1 x ws2 ws3 d ws4 tok, u_shape ws1 x ws2 /\ dt_shape ws3 d ws4 tok /\
    stop not_space rest = true /\
    u = "username" ++ ws1 ++ x ++ ws2 ++ "secret" ++ ws3 ++ String d (ws4 ++ tok ++ rest) /\
    r = "username" ++ ws1 ++ x ++ ws2 ++ "secret" ++ " 5 ********".
Proof.
  split.
  - unfold m_username. cbv zeta.
    destruct (prefixb "username" u) eqn:P1; [|discriminate].
    destruct (prefixb_spec _ _ P1) as [s ->]. rewrite drop_app.
    destruct (span is_space s) as [ws1 r1] eqn:S1. apply span_spec in S1 as [-> [A1 _]].
    destruct (nonempty ws1) eqn:N1; [|discriminate]. apply nonempty_iff in N1.
    destruct (span not_space r1) as [x r2] eqn:S2. apply span_spec in S2 as [-> [A2 _]].
    destruct (nonempty x) eqn:N2; [|discriminate]. apply nonempty_iff in N2.
    destruct (span is_space r2) as [ws2 r3] eqn:S3. apply span_spec in S3 as [-> [A3 _]].
    destruct (nonempty ws2 && prefixb "secret" r3) eqn:N3; [|discriminate].
    apply andb_true_iff in N3 as [N3 P3]. apply nonempty_iff in N3.
    destruct (prefixb_spec _ _ P3) as [s3 ->].
    change 6 with (String.length "secret"). rewrite drop_app.
    destruct (digit_token s3) as [[d rest0]|] eqn:D; [|discriminate].
    intros H; inversion H; subst.
    apply digit_token_spec in D as [ws3 [ws4 [tok [Sh [T ->]]]]].
    exists ws1, x, ws2, ws3, d, ws4, tok.
    split; [repeat split; assumption|]. split; [exact Sh|]. auto.
  - intros [ws1 [x [ws2 [ws3 [d [ws4 [tok [[N1 [A1 [N2 [A2 [N3 A3]]]]] [Sh [T [-> ->]]]]]]]]]]].
    assert (D : digit_token (ws3 ++ String d (ws4 ++ tok ++ rest)) = Some (d, rest))
      by (apply digit_token_spec; exists ws3, ws4, tok; auto).
    unfold m_username. cbv zeta. rewrite prefixb_app_self, drop_app.
    rewrite (span_app is_space ws1); [|exact A1|rewrite stop_app by exact N2; apply stop_space_of_nonspace; assumption].
    apply nonempty_iff in N1. rewrite N1.
    rewrite (span_app not_space x); [|exact A2|rewrite stop_app by exact N3; apply stop_nonspace_of_space; assumption].
    apply nonempty_iff in N2. rewrite N2.
    rewrite (span_app is_space ws2); [|exact A3|reflexivity].
    apply nonempty_iff in N3. rewrite N3, prefixb_app_self. simpl andb.
    change 6 with (String.length "secret"). rewrite drop_app, D. reflexivity.
Qed.

(** [m_community] *)
Lemma m_community_spec u r rest :
  m_community u = Some (r, rest) <->
  exists ws tok, ws <> "" /\ allb is_space ws = true /\ tok <> "" /\ allb not_space tok = true /\
    stop not_space rest = true /\ u = KC ++ ws ++ tok ++ rest /\ r = KC ++ " ********".
Proof.
  split.
  - unfold m_community. cbv zeta.
    destruct (prefixb "snmp-server community" u) eqn:P1; [|discriminate].
    destruct (prefixb_spec _ _ P1) as [s ->]. rewrite drop_app.
    destruct (span is_space s) as [ws r1] eqn:S1. apply span_spec in S1 as [-> [A1 _]].
    destruct (nonempty ws) eqn:N1; [|discriminate]. apply nonempty_iff in N1.
    destruct (span not_space r1) as [tok r2] eqn:S2. apply span_spec in S2 as [-> [A2 T2]].
    destruct (nonempty tok) eqn:N2; [|discriminate]. apply nonempty_iff in N2.
    intros H; inversion H; subst. exists ws, tok. repeat split; assumption.
  - intros [ws [tok [N1 [A1 [N2 [A2 [T [-> ->]]]]]]]].
    unfold m_community. cbv zeta. unfold KC. rewrite prefixb_app_self, drop_app.
    rewrite (span_app is_space ws); [|exact A1|rewrite stop_app by exact N2; apply stop_space_of_nonspace; assumption].
    apply nonempty_iff in N1. rewrite N1.
    rewrite (span_app not_space tok); [|exact A2|exact T].
    apply nonempty_iff in N2. rewrite N2. reflexivity.
Qed.

(** [m_encpw] *)
Lemma m_encpw_spec u r rest :
  m_encpw u = Some (r, rest) <->
  exists ws body, ws <> "" /\ allb is_space ws = true /\ body <> "" /\ allb not_quote body = true /\
    u = KE ++ ws ++ String dq (body ++ String dq rest) /\
    r = KE ++ ws ++ String dq (STARS ++ String dq "").
Proof.
  split.
  - unfold m_encpw. cbv zeta.
    destruct (prefixb "encrypted-password" u) eqn:P1; [|discriminate].
    destruct (prefixb_spec _ _ P1) as [s ->]. rewrite drop_app.
    destruct (span is_space s) as [ws r1] eqn:S1. apply span_spec in S1 as [-> [A1 _]].
    destruct (nonempty ws) eqn:N1; [|discriminate]. apply nonempty_iff in N1.
    destruct r1 as [|q r2]; [discriminate|].
    destruct (Ascii.eqb q dq) eqn:Q1; [|discriminate]. apply Ascii.eqb_eq in Q1; subst q.
    destruct (span not_quote r2) as [body r3] eqn:S2. apply span_spec in S2 as [-> [A2 _]].
    destruct (nonempty body) eqn:N2; [|discriminate]. apply nonempty_iff in N2.
    destruct r3 as [|q r4]; [discriminate|].
    destruct (Ascii.eqb q dq) eqn:Q2; [|discriminate]. apply Ascii.eqb_eq in Q2; subst q.
    intros H; inversion H; subst. exists ws, body. repeat split; assumption.
  - intros [ws [body [N1 [A1 [N2 [A2 [-> ->]]]]]]].
    unfold m_encpw. cbv zeta. unfold KE. rewrite prefixb_app_self, drop_app.
    rewrite (span_app is_space ws); [|exact A1|reflexivity].
    apply nonempty_iff in N1. rewrite N1. simpl (Ascii.eqb dq dq).
    rewrite (span_app not_quote body); [|exact A2|reflexivity].
    apply nonempty_iff in N2. rewrite N2. reflexivity.
Qed.

Ltac sapp := repeat progress (rewrite ?app_assoc_s; cbn [append]).

Lemma stop_hd p (x y : string) : hd_s y = hd_s x -> stop p y = stop p x.
Proof. destruct x, y; simpl; congruence. Qed.

Lemma wf_pwsecret : wf_matcher m_pwsecret.
Proof.
  split.
  - intros u r rest H. apply m_pwsecret_spec in H as [K [ws1 [d [ws2 [tok [HK [Sh [T [-> ->]]]]]]]]].
    exists (K ++ ws1 ++ String d (ws2 ++ tok)). split; [sapp; reflexivity|].
    destruct HK as [->| ->]; discriminate.
  - intros u r rest H. apply m_pwsecret_spec in H as [K [ws1 [d [ws2 [tok [HK [Sh [T [-> ->]]]]]]]]].
    destruct HK as [->| ->]; reflexivity.
  - reflexivity.
Qed.

Lemma wf_username : wf_matcher m_username.
Proof.
  split.
  - intros u r rest H. apply m_username_spec in H as [ws1 [x [ws2 [ws3 [d [ws4 [tok [Su [Sh [T [-> ->]]]]]]]]]]].
    exists ("username" ++ ws1 ++ x ++ ws2 ++ "secret" ++ ws3 ++ String d (ws4 ++ tok)).
    split; [sapp; reflexivity|discriminate].
  - intros u r rest H. apply m_username_spec in H as [ws1 [x [ws2 [ws3 [d [ws4 [tok [Su [Sh [T [-> ->]]]]]]]]]]].
    reflexivity.
  - reflexivity.
Qed.

Lemma wf_community : wf_matcher m_community.
Proof.
  split.
  - intros u r rest H. apply m_community_spec in H as [ws [tok [N1 [A1 [N2 [A2 [T [-> ->]]]]]]]].
    exists (KC ++ ws ++ tok). split; [sapp; reflexivity|discriminate].
  - intros u r rest H. apply m_community_spec in H as [ws [tok [N1 [A1 [N2 [A2 [T [-> ->]]]]]]]].
    reflexivity.
  - reflexivity.
Qed.

Lemma wf_encpw : wf_matcher m_encpw.
Proof.
  split.
  - intros u r rest H. apply m_encpw_spec in H as [ws [body [N1 [A1 [N2 [A2 [-> ->]]]]]]].
    exists (KE ++ ws ++ String dq (body ++ String dq "")). split; [sapp; reflexivity|discriminate].
  - intros u r rest H. apply m_encpw_spec in H as [ws [body [N1 [A1 [N2 [A2 [-> ->]]]]]]].
    reflexivity.
  - reflexivity.
Qed.

(** A match depends only on the matched text and on whether the next
    character is a space ([m_encpw]: on the matched text alone). *)
Lemma frame_pwsecret w x y r :
  m_pwsecret (w ++ x) = Some (r, x) -> hd_s y = hd_s x -> m_pwsecret (w ++ y) = Some (r, y).
Proof.
  intros H Hy. apply m_pwsecret_spec in H as [K [ws1 [d [ws2 [tok [HK [Sh [T [Ew ->]]]]]]]]].
  assert (Ew' : w = K ++ ws1 ++ String d (ws2 ++ tok)).
  { apply (app_inv_tail_s _ _ x). rewrite Ew. sapp. reflexivity. }
  subst w. apply m_pwsecret_spec. exists K, ws1, d, ws2, tok.
  split; [exact HK|]. split; [exact Sh|]. split; [rewrite (stop_hd _ _ _ Hy); exact T|].
  split; [sapp; reflexivity|reflexivity].
Qed.

Lemma frame_username w x y r :
  m_username (w ++ x) = Some (r, x) -> hd_s y = hd_s x -> m_username (w ++ y) = Some (r, y).
Proof.
  intros H Hy. apply m_username_spec in H as [ws1 [x0 [ws2 [ws3 [d [ws4 [tok [Su [Sh [T [Ew ->]]]]]]]]]]].
  assert (Ew' : w = "username" ++ ws1 ++ x0 ++ ws2 ++ "secret" ++ ws3 ++ String d (ws4 ++ tok)).
  { apply (app_inv_tail_s _ _ x). rewrite Ew. sapp. reflexivity. }
  subst w. apply m_username_spec. exists ws1, x0, ws2, ws3, d, ws4, tok.
  split; [exact Su|]. split; [exact Sh|]. split; [rewrite (stop_hd _ _ _ Hy); exact T|].
  split; [sapp; reflexivity|reflexivity].
Qed.

Lemma frame_community w x y r :
  m_community (w ++ x) = Some (r, x) -> hd_s y = hd_s x -> m_community (w ++ y) = Some (r, y).
Proof.
  intros H Hy. apply m_community_spec in H as [ws [tok [N1 [A1 [N2 [A2 [T [Ew ->]]]]]]]].
  assert (Ew' : w = KC ++ ws ++ tok).
  { apply (app_inv_tail_s _ _ x). rewrite Ew. sapp. reflexivity. }
  subst w. apply m_community_spec. exists ws, tok.
  repeat split; try assumption; [rewrite (stop_hd _ _ _ Hy); exact T|sapp; reflexivity].
Qed.

Lemma frame_encpw w x y r :
  m_encpw (w ++ x) = Some (r, x) -> m_encpw (w ++ y) = Some (r, y).
Proof.
  intros H. apply m_encpw_spec in H as [ws [body [N1 [A1 [N2 [A2 [Ew ->]]]]]]].
  assert (Ew' : w = KE ++ ws ++ String dq (body ++ String dq "")).
  { apply (app_inv_tail_s _ _ x). rewrite Ew. sapp. reflexivity. }
  subst w. apply m_encpw_spec. exists ws, body.
  repeat split; try assumption. sapp. reflexivity.
Qed.

(* ------------------------------------------------------------------ *)
(** ** A match found after a replacement was already there before *)

Lemma stars_char a s b0 : STARS = a ++ s -> hd_s s = Some b0 -> b0 = "*"%char.
Proof.
  intros E H. assert (Hs : allb (fun c => Ascii.eqb c "*") STARS = true) by reflexivity.
  rewrite E, allb_app in Hs. apply andb_true_iff in Hs as [_ Hs].
  destruct s as [|c s]; [discriminate|]. inversion H; subst. simpl in Hs.
  apply andb_true_iff in Hs as [Hs _]. apply Ascii.eqb_eq, Hs.
Qed.

Lemma hd_app_r (a b : string) : a = "" -> hd_s (a ++ b) = hd_s b.
Proof. intros ->. reflexivity. Qed.

(** Splitting [A ++ B = w ++ rest] at the end of the match [w]. *)
Lemma split_match (A B w rest : string) :
  A ++ B = w ++ rest -> A <> "" ->
  (exists l, A = w ++ l /\ rest = l ++ B) \/ (exists l, w = A ++ l /\ l <> "" /\ B = l ++ rest).
Proof.
  intros E HA. destruct (app_eq_app_s _ _ _ _ E) as [l [[Ew Eb]|[Ea Er]]].
  - destruct l as [|x l].
    + left. exists "". rewrite app_nil_r_s in Ew. subst w.
      split; [rewrite app_nil_r_s; reflexivity|symmetry; exact Eb].
    + right. exists (String x l). split; [exact Ew|split; [discriminate|exact Eb]].
  - left. exists l. split; assumption.
Qed.

(** Where a piece [l] after [A] begins inside [a ++ b]. *)
Lemma split_piece (A l a b : string) :
  A ++ l = a ++ b -> l <> "" ->
  (exists l1, a = A ++ l1 /\ l1 <> "" /\ l = l1 ++ b) \/ (exists l1, A = a ++ l1 /\ b = l1 ++ l).
Proof.
  intros E Hl. destruct (app_eq_app_s _ _ _ _ E) as [l1 [[Ea Eb]|[EA El]]].
  - destruct l1 as [|x l1].
    + right. exists "". rewrite app_nil_r_s in Ea. subst a.
      split; [rewrite app_nil_r_s; reflexivity|symmetry; exact Eb].
    + left. exists (String x l1). split; [exact Ea|split; [discriminate|exact Eb]].
  - right. exists l1. split; assumption.
Qed.

Lemma hd_space_piece (ws l1 b : string) b0 :
  allb is_space ws = true -> ws = l1 ++ b -> l1 <> "" -> hd_s (l1 ++ b) = Some b0 -> is_space b0 = true.
Proof.
  intros A E N H. rewrite <- E in H. destruct ws as [|c ws]; [discriminate|].
  inversion H; subst. simpl in A. apply andb_true_iff in A as [A _]. exact A.
Qed.

Lemma allb_hd p (s : string) b0 : allb p s = true -> hd_s s = Some b0 -> p b0 = true.
Proof.
  destruct s as [|c s]; [discriminate|]. intros A H. inversion H; subst.
  simpl in A. apply andb_true_iff in A as [A _]. exact A.
Qed.

Lemma allb_app_l p (a b : string) : allb p (a ++ b) = true -> allb p a = true.
Proof. rewrite allb_app. intros H. apply andb_true_iff in H as [H _]. exact H. Qed.

Lemma allb_app_r p (a b : string) : allb p (a ++ b) = true -> allb p b = true.
Proof. rewrite allb_app. intros H. apply andb_true_iff in H as [_ H]. exact H. Qed.

Lemma hd_app_nonempty (a b : string) b0 : hd_s (a ++ b) = Some b0 -> a <> "" -> hd_s a = Some b0.
Proof. destruct a; [congruence|]. simpl. auto. Qed.


(** A token starting with [b0] after [tpre], completed from [Bi]. *)
Lemma complete_token (tpre Bi : string) b0 :
  hd_s Bi = Some b0 -> is_space b0 = false -> allb not_space tpre = true ->
  exists s1 s2, Bi = s1 ++ s2 /\ s1 <> "" /\ hd_s s1 = Some b0 /\
                allb not_space (tpre ++ s1) = true /\ stop not_space s2 = true.
Proof.
  intros Hb Hs At. destruct (span not_space Bi) as [s1 s2] eqn:S.
  apply span_spec in S as [-> [A1 T]]. exists s1, s2.
  destruct s1 as [|x s1].
  - simpl in Hb. destruct s2 as [|y s2]; [discriminate|]. inversion Hb; subst.
    simpl in T. unfold not_space in T. rewrite Hs in T. discriminate.
  - simpl in Hb. inversion Hb; subst. repeat split; try discriminate; try assumption.
    rewrite allb_app, At, A1. reflexivity.
Qed.

Lemma stop_space_ne (s t : string) : s <> "" -> allb not_space s = true -> stop is_space (s ++ t) = true.
Proof. intros N A. rewrite stop_app by exact N. apply stop_space_of_nonspace; assumption. Qed.

Lemma hd_app_same (l x y : string) : hd_s x = hd_s y -> hd_s (l ++ x) = hd_s (l ++ y).
Proof. destruct l; simpl; auto. Qed.

Lemma app_ne_r (a b : string) : b <> "" -> a ++ b <> "".
Proof. destruct a; simpl; [auto|discriminate]. Qed.

Lemma stop_space_stars (s : string) : stop is_space (STARS ++ s) = true.
Proof. reflexivity. Qed.

Lemma stop_space_ch c (s : string) : is_space c = false -> stop is_space (String c s) = true.
Proof. intros H. simpl. rewrite H. reflexivity. Qed.

(** The tail [\s+(\d)\s+\S+] of a replacement, read back as a match. *)
Lemma dt_tail d' d (ws3 ws4 t s2 : string) :
  is_space d' = false -> is_space d = false ->
  allb is_space ws3 = true -> allb is_space ws4 = true -> t <> "" -> allb not_space t = true ->
  " " ++ String d' (" " ++ STARS ++ s2) = ws3 ++ String d (ws4 ++ t ++ s2) -> STARS = t.
Proof.
  intros D' D A3 A4 Nt At E.
  destruct (run_unique is_space " " _ ws3 _ eq_refl (stop_space_ch _ _ D') A3 (stop_space_ch _ _ D) E) as [_ E2].
  injection E2 as _ E2.
  destruct (run_unique is_space " " _ ws4 _ eq_refl (stop_space_stars _) A4 (stop_space_ne _ _ Nt At) E2) as [_ E3].
  apply (app_inv_tail_s _ _ s2), E3.
Qed.

Lemma letter_star b0 : letter b0 -> b0 = "*"%char -> False.
Proof. intros [_ [_ [H _]]]. exact H. Qed.

Ltac space_contra Ls :=
  match goal with
  | H : allb is_space ?ws = true, E : ?ws = ?l1 ++ ?b, N : ?l1 <> "", Hd : hd_s (?l1 ++ ?b) = Some _ |- _ =>
      pose proof (hd_space_piece _ _ _ _ H E N Hd); congruence
  end.

Lemma reflect_pwsecret A Bo Bi b0 :
  A <> "" -> hd_s Bo = Some b0 -> hd_s Bi = Some b0 -> letter b0 ->
  (forall K k1 k2 y, (K = "password" \/ K = "secret") -> K = k1 ++ k2 -> k1 <> "" -> k2 <> "" ->
     Bo = k2 ++ y -> False) ->
  canon_at m_pwsecret (A ++ Bi) -> canon_at m_pwsecret (A ++ Bo).
Proof.
  intros HA Ho Hi Lb HK Hc r' rest' H. pose proof H as H0.
  apply m_pwsecret_spec in H as [K [ws1 [d [ws2 [tok [HKK [Sh [T [Eu Er]]]]]]]]].
  pose proof Sh as [N1 [A1 [D [N2 [A2 [N3 A3]]]]]].
  assert (Eu' : A ++ Bo = (K ++ ws1 ++ String d (ws2 ++ tok)) ++ rest') by (rewrite Eu; sapp; reflexivity).
  rewrite Eu' in H0 |- *.
  destruct (split_match _ _ _ _ Eu' HA) as [[l [EA Erest]]|[l [Ew [Hl EB]]]].
  - assert (Hf := frame_pwsecret _ _ (l ++ Bi) _ H0).
    rewrite Erest in Hf. specialize (Hf (hd_app_same _ _ _ (eq_trans Hi (eq_sym Ho)))).
    assert (E2 : r' ++ l ++ Bi = A ++ Bi) by (apply Hc; rewrite EA, app_assoc_s; exact Hf).
    rewrite EA, app_assoc_s in E2. apply app_inv_tail_s in E2. rewrite E2. reflexivity.
  - exfalso. pose proof Lb as [Ls [Ld _]].
    assert (Hl0 : hd_s l = Some b0) by (rewrite EB, hd_app_l in Ho by exact Hl; exact Ho).
    symmetry in Ew. destruct (split_piece _ _ _ _ Ew Hl) as [[l1 [EK [Hl1 El]]]|[l1 [EA El]]].
    + apply (HK K A l1 (ws1 ++ String d (ws2 ++ tok ++ rest')) HKK EK HA Hl1).
      rewrite EB, El. sapp. reflexivity.
    + symmetry in El. destruct (split_piece _ _ _ _ El Hl) as [[l2 [E1 [Hl2 El']]]|[l2 [E1 El']]].
      * rewrite El', hd_app_l in Hl0 by exact Hl2. rewrite E1 in A1.
        pose proof (allb_hd _ _ _ (allb_app_r _ _ _ A1) Hl0). congruence.
      * destruct l2 as [|x l2]; simpl in El'.
        -- rewrite <- El' in Hl0. injection Hl0 as <-. congruence.
        -- injection El' as <- El'. symmetry in El'.
           destruct (split_piece _ _ _ _ El' Hl) as [[l3 [E2 [Hl3 El3]]]|[l3 [E2 El3]]].
           ++ rewrite El3, hd_app_l in Hl0 by exact Hl3. rewrite E2 in A2.
              pose proof (allb_hd _ _ _ (allb_app_r _ _ _ A2) Hl0). congruence.
           ++ subst tok. destruct (complete_token l3 Bi b0 Hi Ls (allb_app_l _ _ _ A3))
                as [s1 [s2 [EBi [Ns1 [Hs1 [At Ts2]]]]]].
              subst A l1 l2 Bi.
              assert (Hm : m_pwsecret ((K ++ ws1 ++ String d (ws2 ++ l3)) ++ s1 ++ s2) =
                           Some (K ++ " " ++ String d " ********", s2)).
              { apply m_pwsecret_spec. exists K, ws1, d, ws2, (l3 ++ s1).
                split; [exact HKK|]. split; [repeat split; auto using app_ne_r|].
                split; [exact Ts2|]. split; [sapp; reflexivity|reflexivity]. }
              pose proof (Hc _ _ Hm) as E3.
              assert (E4 : " " ++ String d (" " ++ STARS ++ s2) = ws1 ++ String d (ws2 ++ (l3 ++ s1) ++ s2)).
              { apply (app_inv_head_s K). transitivity ((K ++ " " ++ String d " ********") ++ s2);
                  [unfold STARS; sapp; reflexivity|]. rewrite E3. sapp. reflexivity. }
              apply dt_tail in E4; auto using app_ne_r, digit_not_space.
              apply (letter_star b0 Lb), (stars_char _ _ _ E4 Hs1).
Qed.

(** The token of [\s+(\d)\s+\S+] is the only place a piece [l] starting
    with a letter can begin. *)
Lemma dt_straddle (l5 l ws3 ws4 tok : string) d b0 :
  l5 ++ l = ws3 ++ String d (ws4 ++ tok) -> l <> "" -> hd_s l = Some b0 -> letter b0 ->
  dt_shape ws3 d ws4 tok ->
  exists l7, l5 = ws3 ++ String d (ws4 ++ l7) /\ tok = l7 ++ l.
Proof.
  intros El Hl Hl0 [Ls [Ld _]] [N1 [A1 [D [N2 [A2 [N3 A3]]]]]].
  destruct (split_piece _ _ _ _ El Hl) as [[l2 [E1 [Hl2 El']]]|[l2 [E1 El']]].
  - rewrite El', hd_app_l in Hl0 by exact Hl2. rewrite E1 in A1.
    pose proof (allb_hd _ _ _ (allb_app_r _ _ _ A1) Hl0). congruence.
  - destruct l2 as [|x l2]; simpl in El'.
    + rewrite <- El' in Hl0. injection Hl0 as <-. congruence.
    + injection El' as <- El'. symmetry in El'.
      destruct (split_piece _ _ _ _ El' Hl) as [[l3 [E2 [Hl3 El3]]]|[l3 [E2 El3]]].
      * rewrite El3, hd_app_l in Hl0 by exact Hl3. rewrite E2 in A2.
        pose proof (allb_hd _ _ _ (allb_app_r _ _ _ A2) Hl0). congruence.
      * exists l3. subst. split; reflexivity.
Qed.

Lemma reflect_community A Bo Bi b0 :
  A <> "" -> hd_s Bo = Some b0 -> hd_s Bi = Some b0 -> letter b0 ->
  (forall k1 k2 y, KC = k1 ++ k2 -> k1 <> "" -> k2 <> "" -> Bo = k2 ++ y -> False) ->
  canon_at m_community (A ++ Bi) -> canon_at m_community (A ++ Bo).
Proof.
  intros HA Ho Hi Lb HK Hc r' rest' H. pose proof H as H0.
  apply m_community_spec in H as [ws [tok [N1 [A1 [N2 [A2 [T [Eu Er]]]]]]]].
  assert (Eu' : A ++ Bo = (KC ++ ws ++ tok) ++ rest') by (rewrite Eu; sapp; reflexivity).
  rewrite Eu' in H0 |- *.
  destruct (split_match _ _ _ _ Eu' HA) as [[l [EA Erest]]|[l [Ew [Hl EB]]]].
  - assert (Hf := frame_community _ _ (l ++ Bi) _ H0).
    rewrite Erest in Hf. specialize (Hf (hd_app_same _ _ _ (eq_trans Hi (eq_sym Ho)))).
    assert (E2 : r' ++ l ++ Bi = A ++ Bi) by (apply Hc; rewrite EA, app_assoc_s; exact Hf).
    rewrite EA, app_assoc_s in E2. apply app_inv_tail_s in E2. rewrite E2. reflexivity.
  - exfalso. pose proof Lb as [Ls [Ld _]].
    assert (Hl0 : hd_s l = Some b0) by (rewrite EB, hd_app_l in Ho by exact Hl; exact Ho).
    symmetry in Ew. destruct (split_piece _ _ _ _ Ew Hl) as [[l1 [EK [Hl1 El]]]|[l1 [EA El]]].
    + apply (HK A l1 (ws ++ tok ++ rest') EK HA Hl1). rewrite EB, El. sapp. reflexivity.
    + symmetry in El. destruct (split_piece _ _ _ _ El Hl) as [[l2 [E1 [Hl2 El']]]|[l2 [E1 El']]].
      * rewrite El', hd_app_l in Hl0 by exact Hl2. rewrite E1 in A1.
        pose proof (allb_hd _ _ _ (allb_app_r _ _ _ A1) Hl0). congruence.
      * subst tok. destruct (complete_token l2 Bi b0 Hi Ls (allb_app_l _ _ _ A2))
          as [s1 [s2 [EBi [Ns1 [Hs1 [At Ts2]]]]]].
        subst A l1 Bi.
        assert (Hm : m_community ((KC ++ ws ++ l2) ++ s1 ++ s2) = Some (KC ++ " ********", s2)).
        { apply m_community_spec. exists ws, (l2 ++ s1).
          repeat split; auto using app_ne_r. sapp. reflexivity. }
        pose proof (Hc _ _ Hm) as E3.
        assert (E4 : " " ++ STARS ++ s2 = ws ++ (l2 ++ s1) ++ s2).
        { apply (app_inv_head_s KC). transitivity ((KC ++ " ********") ++ s2);
            [unfold STARS; sapp; reflexivity|]. rewrite E3. sapp. reflexivity. }
        destruct (run_unique is_space " " _ ws _ eq_refl (stop_space_stars _) A1
                   (stop_space_ne _ _ (app_ne_r _ _ Ns1) At) E4) as [_ E5].
        apply app_inv_tail_s in E5.
        apply (letter_star b0 Lb), (stars_char _ _ _ E5 Hs1).
Qed.


Lemma reflect_username A Bo Bi b0 :
  A <> "" -> hd_s Bo = Some b0 -> hd_s Bi = Some b0 -> letter b0 ->
  (forall k1 k2 y, "username" = k1 ++ k2 -> k1 <> "" -> k2 <> "" -> Bo = k2 ++ y -> False) ->
  (forall z y, Bo = z ++ y -> z <> "" -> allb not_space z = true -> x_tail y -> False) ->
  (forall k1 k2 y, "secret" = k1 ++ k2 -> k2 <> "" -> Bo = k2 ++ y -> False) ->
  canon_at m_username (A ++ Bi) -> canon_at m_username (A ++ Bo).
Proof.
  intros HA Ho Hi Lb HK HX HS Hc r' rest' H. pose proof H as H0.
  apply m_username_spec in H as [ws1 [x [ws2 [ws3 [d [ws4 [tok [Su [Sh [T [Eu Er]]]]]]]]]]].
  pose proof Su as [N1 [A1 [Nx [Ax [N2 A2]]]]].
  pose proof Sh as [N3 [A3 [D [N4 [A4 [Nt At]]]]]].
  assert (Eu' : A ++ Bo = ("username" ++ ws1 ++ x ++ ws2 ++ "secret" ++ ws3 ++ String d (ws4 ++ tok)) ++ rest')
    by (rewrite Eu; sapp; reflexivity).
  rewrite Eu' in H0 |- *.
  destruct (split_match _ _ _ _ Eu' HA) as [[l [EA Erest]]|[l [Ew [Hl EB]]]].
  - assert (Hf := frame_username _ _ (l ++ Bi) _ H0).
    rewrite Erest in Hf. specialize (Hf (hd_app_same _ _ _ (eq_trans Hi (eq_sym Ho)))).
    assert (E2 : r' ++ l ++ Bi = A ++ Bi) by (apply Hc; rewrite EA, app_assoc_s; exact Hf).
    rewrite EA, app_assoc_s in E2. apply app_inv_tail_s in E2. rewrite E2. reflexivity.
  - exfalso. pose proof Lb as [Ls [Ld _]].
    assert (Hl0 : hd_s l = Some b0) by (rewrite EB, hd_app_l in Ho by exact Hl; exact Ho).
    symmetry in Ew. destruct (split_piece _ _ _ _ Ew Hl) as [[l1 [EK [Hl1 El]]]|[l1 [EA El]]].
    { apply (HK A l1 (ws1 ++ x ++ ws2 ++ "secret" ++ ws3 ++ String d (ws4 ++ tok ++ rest')) EK HA Hl1).
      rewrite EB, El. sapp. reflexivity. }
    symmetry in El. destruct (split_piece _ _ _ _ El Hl) as [[l2 [E1 [Hl2 El']]]|[l2 [E1 El']]].
    { rewrite El', hd_app_l in Hl0 by exact Hl2. rewrite E1 in A1.
      pose proof (allb_hd _ _ _ (allb_app_r _ _ _ A1) Hl0). congruence. }
    symmetry in El'. destruct (split_piece _ _ _ _ El' Hl) as [[l3 [E3 [Hl3 El3]]]|[l3 [E3 El3]]].
    { apply (HX l3 (ws2 ++ "secret" ++ ws3 ++ String d (ws4 ++ tok ++ rest'))).
      - rewrite EB, El3. sapp. reflexivity.
      - exact Hl3.
      - rewrite E3 in Ax. exact (allb_app_r _ _ _ Ax).
      - exists ws2, ws3, d, ws4, tok, rest'. auto. }
    symmetry in El3. destruct (split_piece _ _ _ _ El3 Hl) as [[l4 [E4 [Hl4 El4]]]|[l4 [E4 El4]]].
    { rewrite El4, hd_app_l in Hl0 by exact Hl4. rewrite E4 in A2.
      pose proof (allb_hd _ _ _ (allb_app_r _ _ _ A2) Hl0). congruence. }
    symmetry in El4. destruct (split_piece _ _ _ _ El4 Hl) as [[l5 [E5 [Hl5 El5]]]|[l5 [E5 El5]]].
    { apply (HS l4 l5 (ws3 ++ String d (ws4 ++ tok ++ rest')) E5 Hl5).
      rewrite EB, El5. sapp. reflexivity. }
    symmetry in El5. destruct (dt_straddle _ _ _ _ _ _ _ El5 Hl Hl0 Lb Sh) as [l7 [E6 Etok]].
    subst tok. destruct (complete_token l7 Bi b0 Hi Ls (allb_app_l _ _ _ At))
      as [s1 [s2 [EBi [Ns1 [Hs1 [At' Ts2]]]]]].
    subst A l1 l2 l3 l4 l5 Bi.
    assert (Hm : m_username (("username" ++ ws1 ++ x ++ ws2 ++ "secret" ++ ws3 ++ String d (ws4 ++ l7)) ++ s1 ++ s2) =
                 Some (("username" ++ ws1 ++ x ++ ws2 ++ "secret") ++ " 5 ********", s2)).
    { apply m_username_spec. exists ws1, x, ws2, ws3, d, ws4, (l7 ++ s1).
      split; [exact Su|]. split; [repeat split; auto using app_ne_r|].
      split; [exact Ts2|]. split; sapp; reflexivity. }
    pose proof (Hc _ _ Hm) as E7.
    assert (E8 : " " ++ String "5" (" " ++ STARS ++ s2) = ws3 ++ String d (ws4 ++ (l7 ++ s1) ++ s2)).
    { apply (app_inv_head_s ("username" ++ ws1 ++ x ++ ws2 ++ "secret")).
      transitivity ((("username" ++ ws1 ++ x ++ ws2 ++ "secret") ++ " 5 ********") ++ s2);
        [unfold STARS; sapp; reflexivity|]. rewrite E7. sapp. reflexivity. }
    apply dt_tail in E8; auto using app_ne_r, digit_not_space.
    apply (letter_star b0 Lb), (stars_char _ _ _ E8 Hs1).
Qed.


Lemma has_quote_app_dq (a b : string) : has_quote (a ++ String dq b) = true.
Proof. unfold has_quote. rewrite allb_app. simpl. rewrite andb_false_r. reflexivity. Qed.

Lemma quote_split (s : string) :
  has_quote s = true -> exists s1 s3, s = s1 ++ String dq s3 /\ allb not_quote s1 = true.
Proof.
  intros H. destruct (span not_quote s) as [s1 s2] eqn:S. apply span_spec in S as [-> [A1 T]].
  destruct s2 as [|c s3].
  - unfold has_quote in H. rewrite app_nil_r_s, A1 in H. discriminate.
  - simpl in T. unfold not_quote in T. destruct (Ascii.eqb c dq) eqn:Ec; [|discriminate].
    apply Ascii.eqb_eq in Ec. subst c. exists s1, s3. split; [reflexivity|exact A1].
Qed.


Lemma reflect_encpw A Bo Bi b0 :
  A <> "" -> hd_s Bo = Some b0 -> hd_s Bi = Some b0 -> letter b0 ->
  (forall k1 k2 y, KE = k1 ++ k2 -> k1 <> "" -> k2 <> "" -> Bo = k2 ++ y -> key_tail y -> False) ->
  (has_quote Bo = true -> has_quote Bi = true) ->
  canon_at m_encpw (A ++ Bi) -> canon_at m_encpw (A ++ Bo).
Proof.
  intros HA Ho Hi Lb HK HQ Hc r' rest' H. pose proof H as H0.
  apply m_encpw_spec in H as [ws [body [N1 [A1 [N2 [A2 [Eu Er]]]]]]].
  assert (Eu' : A ++ Bo = (KE ++ ws ++ String dq (body ++ String dq "")) ++ rest')
    by (rewrite Eu; sapp; reflexivity).
  rewrite Eu' in H0 |- *.
  destruct (split_match _ _ _ _ Eu' HA) as [[l [EA Erest]]|[l [Ew [Hl EB]]]].
  - assert (Hf := frame_encpw _ _ (l ++ Bi) _ H0).
    assert (E2 : r' ++ l ++ Bi = A ++ Bi) by (apply Hc; rewrite EA, app_assoc_s; exact Hf).
    rewrite EA, app_assoc_s in E2. apply app_inv_tail_s in E2. rewrite E2. reflexivity.
  - exfalso. pose proof Lb as [Ls [Ld [Lst Lq]]].
    assert (Hl0 : hd_s l = Some b0) by (rewrite EB, hd_app_l in Ho by exact Hl; exact Ho).
    symmetry in Ew. destruct (split_piece _ _ _ _ Ew Hl) as [[l1 [EK [Hl1 El]]]|[l1 [EA El]]].
    { apply (HK A l1 (ws ++ String dq (body ++ String dq rest')) EK HA Hl1).
      - rewrite EB, El. sapp. reflexivity.
      - exists ws, (body ++ String dq rest'). auto. }
    symmetry in El. destruct (split_piece _ _ _ _ El Hl) as [[l2 [E1 [Hl2 El']]]|[l2 [E1 El']]].
    { rewrite El', hd_app_l in Hl0 by exact Hl2. rewrite E1 in A1.
      pose proof (allb_hd _ _ _ (allb_app_r _ _ _ A1) Hl0). congruence. }
    destruct l2 as [|c l2]; simpl in El'.
    { rewrite <- El' in Hl0. injection Hl0 as <-. congruence. }
    injection El' as <- El'. symmetry in El'.
    destruct (split_piece _ _ _ _ El' Hl) as [[l3 [E3 [Hl3 El3]]]|[l3 [E3 El3]]].
    + assert (HBi : has_quote Bi = true).
      { apply HQ. rewrite EB, El3, app_assoc_s. simpl. apply has_quote_app_dq. }
      destruct (quote_split _ HBi) as [s1 [s3 [EBi As1]]].
      assert (Ns1 : s1 <> "").
      { intros ->. rewrite EBi in Hi. injection Hi as <-. congruence. }
      assert (Hs1 : hd_s s1 = Some b0) by (rewrite EBi, hd_app_l in Hi by exact Ns1; exact Hi).
      subst body A l1 Bi.
      assert (Hm : m_encpw ((KE ++ ws ++ String dq l2) ++ s1 ++ String dq s3) =
                   Some (KE ++ ws ++ String dq (STARS ++ String dq ""), s3)).
      { apply m_encpw_spec. exists ws, (l2 ++ s1).
        repeat split; auto using app_ne_r.
        - rewrite allb_app, (allb_app_l _ _ _ A2), As1. reflexivity.
        - sapp. reflexivity. }
      pose proof (Hc _ _ Hm) as E4.
      assert (E5 : STARS ++ String dq s3 = (l2 ++ s1) ++ String dq s3).
      { apply (app_inv_head_s (KE ++ ws ++ String dq "")).
        transitivity ((KE ++ ws ++ String dq (STARS ++ String dq "")) ++ s3); [sapp; reflexivity|].
        rewrite E4. sapp. reflexivity. }
      apply app_inv_tail_s in E5. apply (letter_star b0 Lb), (stars_char _ _ _ E5 Hs1).
    + destruct l3 as [|c l3]; simpl in El3.
      * rewrite <- El3 in Hl0. injection Hl0 as <-. congruence.
      * injection El3 as _ El3. symmetry in El3. apply app_eq_nil_s in El3 as [_ ->]. congruence.
Qed.

(* ------------------------------------------------------------------ *)
(** ** No match where no keyword starts *)

Lemma canon_at_encpw_pre u : prefixb KE u = false -> canon_at m_encpw u.
Proof.
  intros P r rest H. apply m_encpw_spec in H as [ws [body [_ [_ [_ [_ [-> _]]]]]]].
  rewrite prefixb_app_self in P. discriminate.
Qed.

Lemma canon_at_pwsecret_pre u :
  prefixb "password" u = false -> prefixb "secret" u = false -> canon_at m_pwsecret u.
Proof.
  intros P1 P2 r rest H. apply m_pwsecret_spec in H as [K [ws1 [d [ws2 [tok [[-> | ->] [_ [_ [-> _]]]]]]]]].
  - rewrite prefixb_app_self in P1. discriminate.
  - rewrite prefixb_app_self in P2. discriminate.
Qed.

Lemma canon_at_username_pre u : prefixb "username" u = false -> canon_at m_username u.
Proof.
  intros P r rest H. apply m_username_spec in H as [ws1 [x [ws2 [ws3 [d [ws4 [tok [_ [_ [_ [-> _]]]]]]]]]]].
  rewrite prefixb_app_self in P. discriminate.
Qed.

Lemma canon_at_community_pre u : prefixb KC u = false -> canon_at m_community u.
Proof.
  intros P r rest H. apply m_community_spec in H as [ws [tok [_ [_ [_ [_ [_ [-> _]]]]]]]].
  unfold KC in P. rewrite prefixb_app_self in P. discriminate.
Qed.

Lemma prefixb_hd k K (u : string) c :
  hd_s u = Some c -> Ascii.eqb k c = false -> prefixb (String k K) u = false.
Proof. destruct u as [|c' u]; [discriminate|]. intros H; inversion H; subst. simpl. intros ->. reflexivity. Qed.

Lemma prefixb_app_false K (a b : string) :
  prefixb K a = false -> prefixb a K = false -> prefixb K (a ++ b) = false.
Proof.
  revert K; induction a as [|x a IH]; intros K H1 H2.
  - destruct K; discriminate.
  - destruct K as [|k K]; [discriminate|]. simpl in *.
    destruct (Ascii.eqb k x) eqn:E; [|reflexivity]. simpl in *.
    apply Ascii.eqb_eq in E; subst. rewrite Ascii.eqb_refl in H2. apply IH; assumption.
Qed.

Lemma prefixb_app_space K (a b : string) c :
  allb not_space K = true -> hd_s b = Some c -> is_space c = true ->
  prefixb K a = false -> prefixb K (a ++ b) = false.
Proof.
  revert K; induction a as [|x a IH]; intros K AK Hb Hc H.
  - destruct K as [|k K]; [discriminate|]. apply (prefixb_hd _ _ _ _ Hb).
    simpl in AK. apply andb_true_iff in AK as [AK _].
    destruct (Ascii.eqb k c) eqn:E; [|reflexivity]. apply Ascii.eqb_eq in E; subst.
    unfold not_space in AK. rewrite Hc in AK. discriminate.
  - destruct K as [|k K]; [discriminate|]. simpl in *.
    apply andb_true_iff in AK as [_ AK].
    destruct (Ascii.eqb k x); [|reflexivity]. simpl in *. apply IH; assumption.
Qed.

Lemma digit_eqb_letter k d : is_digit d = true -> is_digit k = false -> Ascii.eqb k d = false.
Proof.
  intros Hd Hk. destruct (Ascii.eqb k d) eqn:E; [|reflexivity].
  apply Ascii.eqb_eq in E; subst. congruence.
Qed.


Lemma suffixes_In (a b : string) : b <> "" -> In b (suffixes (a ++ b)).
Proof.
  intros Hb. induction a as [|x a IH]; simpl.
  - destruct b; [congruence|left; reflexivity].
  - right. exact IH.
Qed.

Lemma suffix_cases (r1 r2 a b : string) :
  r1 ++ r2 = a ++ b -> r2 <> "" ->
  (exists a2, In a2 (suffixes a) /\ r2 = a2 ++ b) \/ (exists b1, b = b1 ++ r2).
Proof.
  intros E N. destruct (app_eq_app_s _ _ _ _ E) as [l [[Ea Eb]|[Er Eb]]].
  - destruct l as [|x l].
    + right. exists "". simpl in Eb |- *. symmetry. exact Eb.
    + left. exists (String x l). split; [rewrite Ea; apply suffixes_In; discriminate|exact Eb].
  - right. exists l. exact Eb.
Qed.

Lemma suffix_lit (s b1 r2 : string) : s = b1 ++ r2 -> r2 <> "" -> In r2 (suffixes s).
Proof. intros -> N. apply suffixes_In, N. Qed.

(* ------------------------------------------------------------------ *)
(** ** Quotes *)

Lemma has_quote_app (a b : string) : has_quote (a ++ b) = has_quote a || has_quote b.
Proof. unfold has_quote. rewrite allb_app. apply negb_andb. Qed.

Lemma allb_impl (p q : ascii -> bool) (s : string) :
  (forall c, p c = true -> q c = true) -> allb p s = true -> allb q s = true.
Proof.
  intros H. induction s as [|c s IH]; simpl; [auto|].
  intros A. apply andb_true_iff in A as [A1 A2]. rewrite (H c A1), (IH A2). reflexivity.
Qed.

Lemma space_no_quote (s : string) : allb is_space s = true -> has_quote s = false.
Proof.
  intros A. unfold has_quote. rewrite (allb_impl is_space not_quote); [reflexivity| |exact A].
  intros c Hc. unfold not_quote. destruct (Ascii.eqb c dq) eqn:E; [|reflexivity].
  apply Ascii.eqb_eq in E; subst. discriminate.
Qed.

Lemma digit_not_quote d : is_digit d = true -> Ascii.eqb d dq = false.
Proof.
  intros H. destruct (Ascii.eqb d dq) eqn:E; [|reflexivity]. apply Ascii.eqb_eq in E; subst. discriminate.
Qed.

Section Quotes.
Variable m : matcher.
Hypothesis Hm : wf_matcher m.
Hypothesis Hq : forall u r rest, m u = Some (r, rest) -> has_quote r = true -> has_quote u = true.

Lemma re_sub_quote t : has_quote (re_sub m t) = true -> has_quote t = true.
Proof.
  remember (String.length t) as n eqn:En. revert t En.
  induction n as [n IH] using lt_wf_ind. intros t En H.
  destruct (m t) as [[r rest]|] eqn:E.
  - rewrite (re_sub_match m Hm _ _ _ E), has_quote_app in H.
    destruct (wf_consume m Hm _ _ _ E) as [w [Ew _]].
    apply orb_true_iff in H as [H|H]; [exact (Hq _ _ _ E H)|].
    rewrite Ew, has_quote_app. apply orb_true_iff. right.
    apply (IH (String.length rest)); [subst n; apply (wf_length m Hm _ _ _ E)|reflexivity|exact H].
  - destruct t as [|c t]; [rewrite (re_sub_nil m Hm) in H; exact H|].
    rewrite (re_sub_nomatch m _ _ E) in H.
    change (has_quote (String c "" ++ re_sub m t) = true) in H.
    change (has_quote (String c "" ++ t) = true).
    rewrite has_quote_app in H |- *. apply orb_true_iff in H as [H|H]; [rewrite H; reflexivity|].
    apply orb_true_iff. right. apply (IH (String.length t)); [subst n; simpl; lia|reflexivity|exact H].
Qed.

End Quotes.

Lemma quote_pwsecret u r rest : m_pwsecret u = Some (r, rest) -> has_quote r = true -> has_quote u = true.
Proof.
  intros H Q. apply m_pwsecret_spec in H as [K [ws1 [d [ws2 [tok [HK [[_ [_ [D _]]] [_ [_ ->]]]]]]]]].
  destruct HK as [-> | ->]; unfold has_quote in Q; simpl in Q; unfold not_quote in Q;
    rewrite (digit_not_quote d D) in Q; discriminate.
Qed.

Lemma quote_username u r rest : m_username u = Some (r, rest) -> has_quote r = true -> has_quote u = true.
Proof.
  intros H Q. apply m_username_spec in H as [ws1 [x [ws2 [ws3 [d [ws4 [tok [[_ [A1 [_ [_ [_ A2]]]]] [_ [_ [-> ->]]]]]]]]]]].
  rewrite !has_quote_app, (space_no_quote _ A1), (space_no_quote _ A2) in *.
  simpl in Q |- *. rewrite orb_false_r in Q. rewrite Q. reflexivity.
Qed.

Lemma quote_community u r rest : m_community u = Some (r, rest) -> has_quote r = true -> has_quote u = true.
Proof. intros H Q. apply m_community_spec in H as [ws [tok [_ [_ [_ [_ [_ [_ ->]]]]]]]]. discriminate. Qed.

Lemma quote_encpw u r rest : m_encpw u = Some (r, rest) -> has_quote r = true -> has_quote u = true.
Proof.
  intros H _. apply m_encpw_spec in H as [ws [body [_ [_ [_ [_ [-> _]]]]]]].
  rewrite <- app_assoc_s. apply has_quote_app_dq.
Qed.

Lemma HQ_gen m w rest r : wf_matcher m ->
  (forall u r rest, m u = Some (r, rest) -> has_quote r = true -> has_quote u = true) ->
  m (w ++ rest) = Some (r, rest) -> has_quote (r ++ re_sub m rest) = true -> has_quote (w ++ rest) = true.
Proof.
  intros Hm Hq H Q. rewrite has_quote_app in Q. apply orb_true_iff in Q as [Q|Q].
  - exact (Hq _ _ _ H Q).
  - rewrite has_quote_app. apply orb_true_iff. right. exact (re_sub_quote m Hm Hq _ Q).
Qed.

Lemma proper_suffix (K k1 k2 : string) :
  K = k1 ++ k2 -> k1 <> "" -> k2 <> "" -> exists c K', K = String c K' /\ In k2 (suffixes K').
Proof.
  intros E N1 N2. destruct k1 as [|c k1]; [congruence|]. exists c, (k1 ++ k2).
  split; [exact E|apply suffixes_In, N2].
Qed.

Ltac enum_in H :=
  simpl in H;
  repeat match type of H with
  | _ \/ _ => destruct H as [H|H]
  | False => destruct H
  end; try subst.

Ltac kw_suffix HK Hk1 Hk2 :=
  let c := fresh "c" in let K' := fresh "K'" in let EK := fresh "EK" in let Hin := fresh "Hin" in
  destruct (proper_suffix _ _ _ HK Hk1 Hk2) as [c [K' [EK Hin]]];
  cbv [KE KC] in EK; injection EK as _ <-; enum_in Hin.

Lemma letter_e : letter "e". Proof. repeat split; discriminate. Qed.
Lemma letter_p : letter "p". Proof. repeat split; discriminate. Qed.
Lemma letter_s : letter "s". Proof. repeat split; discriminate. Qed.
Lemma letter_u : letter "u". Proof. repeat split; discriminate. Qed.

Lemma hd_app_some (r v : string) b : hd_s r = Some b -> hd_s (r ++ v) = Some b.
Proof. destruct r; simpl; congruence. Qed.



Section HO.
Variable m : matcher.
Hypothesis Hm : wf_matcher m.
Hypothesis Hl : starts_letter m.

Lemma HO_encpw :
  (forall u r rest, m u = Some (r, rest) -> has_quote r = true -> has_quote u = true) ->
  (forall u r rest, m u = Some (r, rest) -> forall k1 k2 y, KE = k1 ++ k2 -> k1 <> "" -> k2 <> "" ->
     r ++ re_sub m rest = k2 ++ y -> key_tail y -> False) ->
  HO_ok m m_encpw.
Proof.
  intros Hq HK c p w rest r H Hc. destruct (Hl _ _ _ H) as [b0 [Lb Hd]].
  change (canon_at m_encpw (String c p ++ (r ++ re_sub m rest))).
  apply (reflect_encpw _ _ (w ++ rest) b0); try assumption; [discriminate| | |].
  - apply hd_app_some. rewrite (wf_head m Hm _ _ _ H). exact Hd.
  - exact (HK _ _ _ H).
  - exact (HQ_gen m w rest r Hm Hq H).
Qed.

Lemma HO_pwsecret :
  (forall u r rest, m u = Some (r, rest) -> forall K k1 k2 y, (K = "password" \/ K = "secret") ->
     K = k1 ++ k2 -> k1 <> "" -> k2 <> "" -> r ++ re_sub m rest = k2 ++ y -> False) ->
  HO_ok m m_pwsecret.
Proof.
  intros HK c p w rest r H Hc. destruct (Hl _ _ _ H) as [b0 [Lb Hd]].
  change (canon_at m_pwsecret (String c p ++ (r ++ re_sub m rest))).
  apply (reflect_pwsecret _ _ (w ++ rest) b0); try assumption; [discriminate| |].
  - apply hd_app_some. rewrite (wf_head m Hm _ _ _ H). exact Hd.
  - exact (HK _ _ _ H).
Qed.

Lemma HO_username :
  (forall u r rest, m u = Some (r, rest) -> forall k1 k2 y, "username" = k1 ++ k2 -> k1 <> "" -> k2 <> "" ->
     r ++ re_sub m rest = k2 ++ y -> False) ->
  (forall u r rest, m u = Some (r, rest) -> forall z y, r ++ re_sub m rest = z ++ y -> z <> "" ->
     allb not_space z = true -> x_tail y -> False) ->
  (forall u r rest, m u = Some (r, rest) -> forall k1 k2 y, "secret" = k1 ++ k2 -> k2 <> "" ->
     r ++ re_sub m rest = k2 ++ y -> False) ->
  HO_ok m m_username.
Proof.
  intros HK HX HS c p w rest r H Hc. destruct (Hl _ _ _ H) as [b0 [Lb Hd]].
  change (canon_at m_username (String c p ++ (r ++ re_sub m rest))).
  apply (reflect_username _ _ (w ++ rest) b0); try assumption; [discriminate| | | |].
  - apply hd_app_some. rewrite (wf_head m Hm _ _ _ H). exact Hd.
  - exact (HK _ _ _ H).
  - exact (HX _ _ _ H).
  - exact (HS _ _ _ H).
Qed.

Lemma HO_community :
  (forall u r rest, m u = Some (r, rest) -> forall k1 k2 y, KC = k1 ++ k2 -> k1 <> "" -> k2 <> "" ->
     r ++ re_sub m rest = k2 ++ y -> False) ->
  HO_ok m m_community.
Proof.
  intros HK c p w rest r H Hc. destruct (Hl _ _ _ H) as [b0 [Lb Hd]].
  change (canon_at m_community (String c p ++ (r ++ re_sub m rest))).
  apply (reflect_community _ _ (w ++ rest) b0); try assumption; [discriminate| |].
  - apply hd_app_some. rewrite (wf_head m Hm _ _ _ H). exact Hd.
  - exact (HK _ _ _ H).
Qed.

End HO.

Lemma sl_encpw : starts_letter m_encpw.
Proof.
  intros u r rest H. apply m_encpw_spec in H as [ws [body [_ [_ [_ [_ [-> _]]]]]]].
  exists "e"%char. split; [exact letter_e|reflexivity].
Qed.

Lemma sl_pwsecret : starts_letter m_pwsecret.
Proof.
  intros u r rest H. apply m_pwsecret_spec in H as [K [ws1 [d [ws2 [tok [[-> | ->] [_ [_ [-> _]]]]]]]]].
  - exists "p"%char. split; [exact letter_p|reflexivity].
  - exists "s"%char. split; [exact letter_s|reflexivity].
Qed.

Lemma sl_username : starts_letter m_username.
Proof.
  intros u r rest H. apply m_username_spec in H as [ws1 [x [ws2 [ws3 [d [ws4 [tok [_ [_ [_ [-> _]]]]]]]]]]].
  exists "u"%char. split; [exact letter_u|reflexivity].
Qed.

Lemma sl_community : starts_letter m_community.
Proof.
  intros u r rest H. apply m_community_spec in H as [ws [tok [_ [_ [_ [_ [_ [-> _]]]]]]]].
  exists "s"%char. split; [exact letter_s|reflexivity].
Qed.

(* ------------------------------------------------------------------ *)
(** ** A keyword cannot straddle the start of a replacement *)

Lemma kt_digit d (X ws y' : string) :
  is_digit d = true -> allb is_space ws = true -> " " ++ String d X = ws ++ String dq y' -> False.
Proof.
  intros D A E.
  destruct (run_unique is_space " " _ ws _ eq_refl (stop_space_ch _ _ (digit_not_space d D)) A
              (stop_space_ch _ _ dq_not_space) E) as [_ E2].
  injection E2 as ->. discriminate.
Qed.

Lemma ks_encpw_encpw u r rest : m_encpw u = Some (r, rest) ->
  forall k1 k2 y, KE = k1 ++ k2 -> k1 <> "" -> k2 <> "" -> r ++ re_sub m_encpw rest = k2 ++ y -> key_tail y -> False.
Proof.
  intros H k1 k2 y HK Hk1 Hk2 EB _. apply m_encpw_spec in H as [ws [body [_ [_ [_ [_ [_ ->]]]]]]].
  kw_suffix HK Hk1 Hk2. all: cbv [KE] in EB; simpl in EB; discriminate EB.
Qed.

Lemma ks_pwsecret_encpw u r rest : m_pwsecret u = Some (r, rest) ->
  forall k1 k2 y, KE = k1 ++ k2 -> k1 <> "" -> k2 <> "" -> r ++ re_sub m_pwsecret rest = k2 ++ y -> key_tail y -> False.
Proof.
  intros H k1 k2 y HK Hk1 Hk2 EB [ws [y' [_ [Aw ->]]]].
  apply m_pwsecret_spec in H as [K [ws1 [d [ws2 [tok [HKK [[_ [_ [D _]]] [_ [_ ->]]]]]]]]].
  kw_suffix HK Hk1 Hk2.
  all: destruct HKK as [-> | ->]; simpl in EB; try discriminate EB.
  apply (kt_digit d (" ********" ++ re_sub m_pwsecret rest) ws y' D Aw).
  apply (app_inv_head_s "password"). exact EB.
Qed.

Lemma ks_username_encpw u r rest : m_username u = Some (r, rest) ->
  forall k1 k2 y, KE = k1 ++ k2 -> k1 <> "" -> k2 <> "" -> r ++ re_sub m_username rest = k2 ++ y -> key_tail y -> False.
Proof.
  intros H k1 k2 y HK Hk1 Hk2 EB _.
  apply m_username_spec in H as [ws1 [x [ws2 [ws3 [d [ws4 [tok [_ [_ [_ [_ ->]]]]]]]]]]].
  kw_suffix HK Hk1 Hk2. all: simpl in EB; discriminate EB.
Qed.

Lemma ks_community_encpw u r rest : m_community u = Some (r, rest) ->
  forall k1 k2 y, KE = k1 ++ k2 -> k1 <> "" -> k2 <> "" -> r ++ re_sub m_community rest = k2 ++ y -> key_tail y -> False.
Proof.
  intros H k1 k2 y HK Hk1 Hk2 EB _.
  apply m_community_spec in H as [ws [tok [_ [_ [_ [_ [_ [_ ->]]]]]]]].
  kw_suffix HK Hk1 Hk2. all: cbv [KC] in EB; simpl in EB; discriminate EB.
Qed.

Lemma ks_pwsecret_pwsecret u r rest : m_pwsecret u = Some (r, rest) ->
  forall K k1 k2 y, (K = "password" \/ K = "secret") -> K = k1 ++ k2 -> k1 <> "" -> k2 <> "" ->
  r ++ re_sub m_pwsecret rest = k2 ++ y -> False.
Proof.
  intros H K k1 k2 y HK' HK Hk1 Hk2 EB.
  apply m_pwsecret_spec in H as [K0 [ws1 [d [ws2 [tok [HKK [_ [_ [_ ->]]]]]]]]].
  destruct HK' as [-> | ->]; kw_suffix HK Hk1 Hk2.
  all: destruct HKK as [-> | ->]; simpl in EB; discriminate EB.
Qed.

Lemma ks_username_pwsecret u r rest : m_username u = Some (r, rest) ->
  forall K k1 k2 y, (K = "password" \/ K = "secret") -> K = k1 ++ k2 -> k1 <> "" -> k2 <> "" ->
  r ++ re_sub m_username rest = k2 ++ y -> False.
Proof.
  intros H K k1 k2 y HK' HK Hk1 Hk2 EB.
  apply m_username_spec in H as [ws1 [x [ws2 [ws3 [d [ws4 [tok [_ [_ [_ [_ ->]]]]]]]]]]].
  destruct HK' as [-> | ->]; kw_suffix HK Hk1 Hk2. all: simpl in EB; discriminate EB.
Qed.

Lemma ks_community_pwsecret u r rest : m_community u = Some (r, rest) ->
  forall K k1 k2 y, (K = "password" \/ K = "secret") -> K = k1 ++ k2 -> k1 <> "" -> k2 <> "" ->
  r ++ re_sub m_community rest = k2 ++ y -> False.
Proof.
  intros H K k1 k2 y HK' HK Hk1 Hk2 EB.
  apply m_community_spec in H as [ws [tok [_ [_ [_ [_ [_ [_ ->]]]]]]]].
  destruct HK' as [-> | ->]; kw_suffix HK Hk1 Hk2. all: cbv [KC] in EB; simpl in EB; discriminate EB.
Qed.

Lemma ks_username_username u r rest : m_username u = Some (r, rest) ->
  forall k1 k2 y, "username" = k1 ++ k2 -> k1 <> "" -> k2 <> "" -> r ++ re_sub m_username rest = k2 ++ y -> False.
Proof.
  intros H k1 k2 y HK Hk1 Hk2 EB.
  apply m_username_spec in H as [ws1 [x [ws2 [ws3 [d [ws4 [tok [_ [_ [_ [_ ->]]]]]]]]]]].
  kw_suffix HK Hk1 Hk2. all: simpl in EB; discriminate EB.
Qed.

Lemma ks_community_username u r rest : m_community u = Some (r, rest) ->
  forall k1 k2 y, "username" = k1 ++ k2 -> k1 <> "" -> k2 <> "" -> r ++ re_sub m_community rest = k2 ++ y -> False.
Proof.
  intros H k1 k2 y HK Hk1 Hk2 EB.
  apply m_community_spec in H as [ws [tok [_ [_ [_ [_ [_ [_ ->]]]]]]]].
  kw_suffix HK Hk1 Hk2. all: cbv [KC] in EB; simpl in EB; discriminate EB.
Qed.

Lemma ss_username_username u r rest : m_username u = Some (r, rest) ->
  forall k1 k2 y, "secret" = k1 ++ k2 -> k2 <> "" -> r ++ re_sub m_username rest = k2 ++ y -> False.
Proof.
  intros H k1 k2 y HK Hk2 EB.
  apply m_username_spec in H as [ws1 [x [ws2 [ws3 [d [ws4 [tok [_ [_ [_ [_ ->]]]]]]]]]]].
  pose proof (suffix_lit _ _ _ HK Hk2) as Hin. enum_in Hin. all: simpl in EB; discriminate EB.
Qed.

Lemma ss_community_username u r rest : m_community u = Some (r, rest) ->
  forall k1 k2 y, "secret" = k1 ++ k2 -> k2 <> "" -> r ++ re_sub m_community rest = k2 ++ y -> False.
Proof.
  intros H k1 k2 y HK Hk2 EB.
  apply m_community_spec in H as [ws [tok [_ [_ [_ [_ [_ [_ ->]]]]]]]].
  pose proof (suffix_lit _ _ _ HK Hk2) as Hin. enum_in Hin. all: cbv [KC] in EB; simpl in EB; discriminate EB.
Qed.

Lemma ks_community_community u r rest : m_community u = Some (r, rest) ->
  forall k1 k2 y, KC = k1 ++ k2 -> k1 <> "" -> k2 <> "" -> r ++ re_sub m_community rest = k2 ++ y -> False.
Proof.
  intros H k1 k2 y HK Hk1 Hk2 EB.
  apply m_community_spec in H as [ws [tok [_ [_ [_ [_ [_ [_ ->]]]]]]]].
  kw_suffix HK Hk1 Hk2. all: cbv [KC] in EB; simpl in EB; discriminate EB.
Qed.

Lemma stop_nonspace_ws (ws s : string) : ws <> "" -> allb is_space ws = true -> stop not_space (ws ++ s) = true.
Proof. intros N A. rewrite stop_app by exact N. apply stop_nonspace_of_space; assumption. Qed.

Lemma xs_username_username u r rest : m_username u = Some (r, rest) ->
  forall z y, r ++ re_sub m_username rest = z ++ y -> z <> "" -> allb not_space z = true -> x_tail y -> False.
Proof.
  intros H z y EB Nz Az [ws2' [ws3' [d' [ws4' [tok' [rest'' [Nw2 [Aw2 [[N3 [A3 [D3 _]]] ->]]]]]]]]].
  apply m_username_spec in H as [ws1 [x [ws2 [ws3 [d [ws4 [tok [[N1 [A1 [Nx [Ax [N2 A2]]]]] [_ [_ [_ ->]]]]]]]]]]].
  set (v := re_sub m_username rest) in EB.
  assert (E1 : "username" ++ (ws1 ++ x ++ ws2 ++ "secret 5 ********" ++ v) =
               z ++ (ws2' ++ "secret" ++ ws3' ++ String d' (ws4' ++ tok' ++ rest'')))
    by (rewrite <- EB; sapp; reflexivity).
  destruct (run_unique not_space "username" _ z _ eq_refl (stop_nonspace_ws _ _ N1 A1) Az
              (stop_nonspace_ws _ _ Nw2 Aw2) E1) as [_ E2].
  destruct (run_unique is_space ws1 _ ws2' ("secret" ++ _) A1 (stop_space_ne _ _ Nx Ax) Aw2 eq_refl E2) as [_ E3].
  destruct (run_unique not_space x _ "secret" _ Ax (stop_nonspace_ws _ _ N2 A2) eq_refl
              (stop_nonspace_ws _ _ N3 A3) E3) as [_ E4].
  destruct (run_unique is_space ws2 ("secret 5 ********" ++ v) ws3' _ A2 eq_refl A3
              (stop_space_ch _ _ (digit_not_space _ D3)) E4) as [_ E5].
  injection E5 as E5. subst d'. discriminate.
Qed.

Lemma xs_community_username u r rest : m_community u = Some (r, rest) ->
  forall z y, r ++ re_sub m_community rest = z ++ y -> z <> "" -> allb not_space z = true -> x_tail y -> False.
Proof.
  intros H z y EB Nz Az [ws2' [ws3' [d' [ws4' [tok' [rest'' [Nw2 [Aw2 [_ ->]]]]]]]]].
  apply m_community_spec in H as [ws [tok [_ [_ [_ [_ [_ [_ ->]]]]]]]].
  set (v := re_sub m_community rest) in EB.
  assert (E1 : "snmp-server" ++ (" community ********" ++ v) =
               z ++ (ws2' ++ "secret" ++ ws3' ++ String d' (ws4' ++ tok' ++ rest'')))
    by exact EB.
  destruct (run_unique not_space "snmp-server" (" community ********" ++ v) z _ eq_refl eq_refl Az
              (stop_nonspace_ws _ _ Nw2 Aw2) E1) as [_ E2].
  destruct (run_unique is_space " " ("community ********" ++ v) ws2' ("secret" ++ _) eq_refl eq_refl Aw2 eq_refl E2)
    as [_ E3].
  discriminate E3.
Qed.

(* ------------------------------------------------------------------ *)
(** ** Inside a replacement *)


Lemma canon_at_det m u r rest : m u = Some (r, rest) -> r ++ rest = u -> canon_at m u.
Proof. intros H E r' rest' H'. rewrite H in H'. injection H' as <- <-. exact E. Qed.

Lemma canon_full_encpw (ws v : string) : ws <> "" -> allb is_space ws = true ->
  canon_at m_encpw ((KE ++ ws ++ String dq (STARS ++ String dq "")) ++ v).
Proof.
  intros N A. apply (canon_at_det _ _ (KE ++ ws ++ String dq (STARS ++ String dq "")) v); [|reflexivity].
  apply m_encpw_spec. exists ws, STARS. repeat split; try assumption; try discriminate. sapp. reflexivity.
Qed.

Lemma canon_full_pwsecret K d (v : string) : (K = "password" \/ K = "secret") -> is_digit d = true ->
  stop not_space v = true -> canon_at m_pwsecret ((K ++ " " ++ String d " ********") ++ v).
Proof.
  intros HK D T. apply (canon_at_det _ _ (K ++ " " ++ String d " ********") v); [|reflexivity].
  apply m_pwsecret_spec. exists K, " ", d, " ", STARS.
  split; [exact HK|]. split; [repeat split; try assumption; discriminate|].
  split; [exact T|]. split; [unfold STARS; sapp; reflexivity|reflexivity].
Qed.

Lemma canon_full_username (ws1 x ws2 v : string) : u_shape ws1 x ws2 -> stop not_space v = true ->
  canon_at m_username (("username" ++ ws1 ++ x ++ ws2 ++ "secret" ++ " 5 ********") ++ v).
Proof.
  intros Su T. apply (canon_at_det _ _ ("username" ++ ws1 ++ x ++ ws2 ++ "secret" ++ " 5 ********") v); [|reflexivity].
  apply m_username_spec. exists ws1, x, ws2, " ", "5"%char, " ", STARS.
  split; [exact Su|]. split; [repeat split; discriminate|].
  split; [exact T|]. split; [unfold STARS; sapp; reflexivity|reflexivity].
Qed.

Lemma canon_full_community (v : string) : stop not_space v = true ->
  canon_at m_community ((KC ++ " ********") ++ v).
Proof.
  intros T. apply (canon_at_det _ _ (KC ++ " ********") v); [|reflexivity].
  apply m_community_spec. exists " ", STARS. repeat split; try assumption; discriminate.
Qed.

Lemma suffix_cases' (r1 r2 a b : string) :
  r1 ++ r2 = a ++ b -> r2 <> "" ->
  (exists a1 a2, a = a1 ++ a2 /\ a2 <> "" /\ r2 = a2 ++ b) \/ (exists b1, b = b1 ++ r2).
Proof.
  intros E N. destruct (app_eq_app_s _ _ _ _ E) as [l [[Ea Eb]|[Er Eb]]].
  - destruct l as [|x l].
    + right. exists "". simpl in Eb |- *. symmetry. exact Eb.
    + left. exists r1, (String x l). split; [exact Ea|split; [discriminate|exact Eb]].
  - right. exists l. exact Eb.
Qed.

Lemma hd_space_suffix (ws a1 a2 b : string) :
  allb is_space ws = true -> ws = a1 ++ a2 -> a2 <> "" ->
  exists c, hd_s (a2 ++ b) = Some c /\ is_space c = true.
Proof.
  intros A -> N. apply allb_app_r in A. destruct a2 as [|c a2]; [congruence|].
  exists c. split; [reflexivity|]. simpl in A. apply andb_true_iff in A as [A _]. exact A.
Qed.

Lemma stop_rest m u r rest : m u = Some (r, rest) -> wf_matcher m ->
  stop not_space rest = true -> stop not_space (re_sub m rest) = true.
Proof. intros _ Hm T. rewrite (stop_hd _ _ _ (hd_re_sub m Hm rest)). exact T. Qed.

(** Positions in the replacement of [m_community]. *)
Lemma r_cases_community u r rest r1 r2 : m_community u = Some (r, rest) -> r = r1 ++ r2 -> r2 <> "" ->
  stop not_space rest = true /\ In r2 (suffixes "snmp-server community ********").
Proof.
  intros H Er N. apply m_community_spec in H as [ws [tok [_ [_ [_ [_ [T [_ ->]]]]]]]].
  split; [exact T|]. exact (suffix_lit _ _ _ Er N).
Qed.

(** Positions in the replacement of [m_pwsecret]. *)
Lemma r_cases_pwsecret u r rest r1 r2 : m_pwsecret u = Some (r, rest) -> r = r1 ++ r2 -> r2 <> "" ->
  exists K d, (K = "password" \/ K = "secret") /\ is_digit d = true /\ stop not_space rest = true /\
  ((exists a2, In a2 (suffixes K) /\ r2 = a2 ++ " " ++ String d " ********") \/
   r2 = String " " (String d " ********") \/ r2 = String d " ********" \/ In r2 (suffixes " ********")).
Proof.
  intros H Er N. apply m_pwsecret_spec in H as [K [ws1 [d [ws2 [tok [HK [[_ [_ [D _]]] [T [_ ->]]]]]]]]].
  exists K, d. split; [exact HK|]. split; [exact D|]. split; [exact T|].
  destruct (suffix_cases _ _ _ _ (eq_sym Er) N) as [[a2 [Hin Er2]]|[b1 Eb]].
  - left. exists a2. split; assumption.
  - right. destruct b1 as [|c1 b1]; [left; symmetry; exact Eb|right].
    injection Eb as _ Eb. destruct b1 as [|c2 b1]; [left; symmetry; exact Eb|right].
    injection Eb as _ Eb. exact (suffix_lit _ _ _ Eb N).
Qed.

(** Positions in the replacement of [m_username]. *)
Lemma r_cases_username u r rest r1 r2 : m_username u = Some (r, rest) -> r = r1 ++ r2 -> r2 <> "" ->
  exists ws1 x ws2, u_shape ws1 x ws2 /\ stop not_space rest = true /\
  ((exists a2, In a2 (suffixes "username") /\ r2 = a2 ++ ws1 ++ x ++ ws2 ++ "secret 5 ********") \/
   (forall b, exists c, hd_s (r2 ++ b) = Some c /\ is_space c = true) \/
   (exists x2, x2 <> "" /\ allb not_space x2 = true /\ r2 = x2 ++ ws2 ++ "secret 5 ********") \/
   In r2 (suffixes "secret 5 ********")).
Proof.
  intros H Er N. apply m_username_spec in H as [ws1 [x [ws2 [ws3 [d [ws4 [tok [Su [_ [T [_ ->]]]]]]]]]]].
  exists ws1, x, ws2. split; [exact Su|]. split; [exact T|].
  pose proof Su as [N1 [A1 [Nx [Ax [N2 A2]]]]].
  destruct (suffix_cases _ _ _ _ (eq_sym Er) N) as [[a2 [Hin Er2]]|[b1 Eb]].
  { left. exists a2. split; assumption. }
  right. destruct (suffix_cases' _ _ _ _ (eq_sym Eb) N) as [[a1 [a2 [Ew [Na Er2]]]]|[b2 Eb2]].
  { left. intros b. subst r2. rewrite app_assoc_s. exact (hd_space_suffix _ _ _ _ A1 Ew Na). }
  destruct (suffix_cases' _ _ _ _ (eq_sym Eb2) N) as [[a1 [a2 [Ex [Na Er2]]]]|[b3 Eb3]].
  { right. left. exists a2. split; [exact Na|]. split; [|exact Er2].
    rewrite Ex in Ax. exact (allb_app_r _ _ _ Ax). }
  destruct (suffix_cases' _ _ _ _ (eq_sym Eb3) N) as [[a1 [a2 [Ew [Na Er2]]]]|[b4 Eb4]].
  { left. intros b. subst r2. rewrite app_assoc_s. exact (hd_space_suffix _ _ _ _ A2 Ew Na). }
  right. right. exact (suffix_lit _ _ _ Eb4 N).
Qed.

(** Positions in the replacement of [m_encpw]. *)
Lemma r_cases_encpw u r rest r1 r2 : m_encpw u = Some (r, rest) -> r = r1 ++ r2 -> r2 <> "" ->
  exists ws, ws <> "" /\ allb is_space ws = true /\
  ((exists a2, In a2 (suffixes KE) /\ r2 = a2 ++ ws ++ String dq (STARS ++ String dq "")) \/
   (forall b, exists c, hd_s (r2 ++ b) = Some c /\ is_space c = true) \/
   In r2 (suffixes (String dq (STARS ++ String dq "")))).
Proof.
  intros H Er N. apply m_encpw_spec in H as [ws [body [Nw [Aw [_ [_ [_ ->]]]]]]].
  exists ws. split; [exact Nw|]. split; [exact Aw|].
  destruct (suffix_cases _ _ _ _ (eq_sym Er) N) as [[a2 [Hin Er2]]|[b1 Eb]].
  { left. exists a2. split; assumption. }
  right. destruct (suffix_cases' _ _ _ _ (eq_sym Eb) N) as [[a1 [a2 [Ew [Na Er2]]]]|[b2 Eb2]].
  { left. intros b. subst r2. rewrite app_assoc_s. exact (hd_space_suffix _ _ _ _ Aw Ew Na). }
  right. exact (suffix_lit _ _ _ Eb2 N).
Qed.

Lemma space_eqb k c : is_space c = true -> is_space k = false -> Ascii.eqb k c = false.
Proof.
  intros Hc Hk. destruct (Ascii.eqb k c) eqn:E; [|reflexivity].
  apply Ascii.eqb_eq in E; subst. congruence.
Qed.

Lemma hd_ws (ws b : string) : ws <> "" -> allb is_space ws = true ->
  exists c, hd_s (ws ++ b) = Some c /\ is_space c = true.
Proof.
  destruct ws as [|c ws]; [congruence|]. intros _ A. exists c. split; [reflexivity|].
  simpl in A. apply andb_true_iff in A as [A _]. exact A.
Qed.

Ltac kw_pre :=
  first [apply canon_at_encpw_pre | apply canon_at_pwsecret_pre
        | apply canon_at_username_pre | apply canon_at_community_pre]; cbv [KE KC].

Ltac by_prefix := kw_pre; reflexivity.

Ltac by_hd_space c Hc Hs :=
  kw_pre; (apply (prefixb_hd _ _ _ c); [exact Hc|apply space_eqb; [exact Hs|reflexivity]]).

Ltac by_app_space Hc Hs :=
  rewrite ?app_assoc_s; kw_pre; (eapply prefixb_app_space; [reflexivity|exact Hc|exact Hs|reflexivity]).

(** A run of non-spaces inside the replacement of [m_username]. *)
Lemma xpos_encpw (x2 ws2 v : string) : x2 <> "" -> allb not_space x2 = true -> ws2 <> "" -> allb is_space ws2 = true ->
  canon_at m_encpw ((x2 ++ ws2 ++ "secret 5 ********") ++ v).
Proof.
  intros Nx Ax N2 A2 r rest H. exfalso.
  apply m_encpw_spec in H as [ws [body [Nw [Aw [_ [_ [Eu _]]]]]]].
  rewrite !app_assoc_s in Eu.
  destruct (run_unique not_space x2 _ KE _ Ax (stop_nonspace_ws _ _ N2 A2) eq_refl
              (stop_nonspace_ws _ _ Nw Aw) Eu) as [_ E2].
  destruct (run_unique is_space ws2 ("secret 5 ********" ++ v) ws (String dq (body ++ String dq rest))
              A2 eq_refl Aw eq_refl E2) as [_ E3].
  discriminate E3.
Qed.

Lemma xpos_pwsecret (x2 ws2 v : string) : x2 <> "" -> allb not_space x2 = true -> ws2 <> "" -> allb is_space ws2 = true ->
  canon_at m_pwsecret ((x2 ++ ws2 ++ "secret 5 ********") ++ v).
Proof.
  intros Nx Ax N2 A2 r rest H. exfalso.
  apply m_pwsecret_spec in H as [K [ws1 [d [ws3 [tok [HK [[N1 [A1 [D _]]] [_ [Eu _]]]]]]]]].
  rewrite !app_assoc_s in Eu.
  assert (AK : allb not_space K = true) by (destruct HK as [-> | ->]; reflexivity).
  destruct (run_unique not_space x2 _ K _ Ax (stop_nonspace_ws _ _ N2 A2) AK
              (stop_nonspace_ws _ _ N1 A1) Eu) as [_ E2].
  destruct (run_unique is_space ws2 ("secret 5 ********" ++ v) ws1 _ A2 eq_refl A1
              (stop_space_ch _ _ (digit_not_space _ D)) E2) as [_ E3].
  injection E3 as E3. subst d. discriminate.
Qed.

Lemma xpos_username (x2 ws2 v : string) : x2 <> "" -> allb not_space x2 = true -> ws2 <> "" -> allb is_space ws2 = true ->
  canon_at m_username ((x2 ++ ws2 ++ "secret 5 ********") ++ v).
Proof.
  intros Nx Ax N2 A2 r rest H. exfalso.
  apply m_username_spec in H as [ws1 [x [ws3 [ws4 [d [ws5 [tok [[N1 [A1 [Nx' [Ax' [N3 A3]]]]] [_ [_ [Eu _]]]]]]]]]]].
  rewrite !app_assoc_s in Eu.
  destruct (run_unique not_space x2 _ "username" _ Ax (stop_nonspace_ws _ _ N2 A2) eq_refl
              (stop_nonspace_ws _ _ N1 A1) Eu) as [_ E2].
  destruct (run_unique is_space ws2 ("secret 5 ********" ++ v) ws1 _ A2 eq_refl A1
              (stop_space_ne _ _ Nx' Ax') E2) as [_ E3].
  destruct (run_unique not_space "secret" (" 5 ********" ++ v) x _ eq_refl eq_refl Ax'
              (stop_nonspace_ws _ _ N3 A3) E3) as [_ E4].
  destruct (run_unique is_space " " ("5 ********" ++ v) ws3 ("secret" ++ _) eq_refl eq_refl A3 eq_refl E4) as [_ E5].
  discriminate E5.
Qed.

(** [m_community] then [m']. *)
Ltac HM_community_tac :=
  let u := fresh "u" in let r := fresh "r" in let rest := fresh "rest" in let H := fresh "H" in
  let r1 := fresh "r1" in let r2 := fresh "r2" in let Er := fresh "Er" in let N := fresh "N" in
  let T := fresh "T" in let Hin := fresh "Hin" in
  intros u r rest H r1 r2 Er N;
  destruct (r_cases_community _ _ _ _ _ H Er N) as [T Hin]; enum_in Hin;
  first [by_prefix | exact (canon_full_community _ (stop_rest _ _ _ _ H wf_community T))].

Lemma HM_community_encpw : HM_ok m_community m_encpw. Proof. HM_community_tac. Qed.
Lemma HM_community_pwsecret : HM_ok m_community m_pwsecret. Proof. HM_community_tac. Qed.
Lemma HM_community_username : HM_ok m_community m_username. Proof. HM_community_tac. Qed.
Lemma HM_community_community : HM_ok m_community m_community. Proof. HM_community_tac. Qed.

(** [m_pwsecret] then [m']. *)
Ltac HM_pwsecret_tac :=
  let u := fresh "u" in let r := fresh "r" in let rest := fresh "rest" in let H := fresh "H" in
  let r1 := fresh "r1" in let r2 := fresh "r2" in let Er := fresh "Er" in let N := fresh "N" in
  let T := fresh "T" in let Hin := fresh "Hin" in let K := fresh "K" in let d := fresh "d" in
  let HK := fresh "HK" in let D := fresh "D" in let a2 := fresh "a2" in
  intros u r rest H r1 r2 Er N;
  destruct (r_cases_pwsecret _ _ _ _ _ H Er N) as [K [d [HK [D [T [[a2 [Hin ->]]|[->|[->|Hin]]]]]]]];
  [destruct HK as [-> | ->]; enum_in Hin;
   first [by_prefix | exact (canon_full_pwsecret _ _ _ (or_introl eq_refl) D (stop_rest _ _ _ _ H wf_pwsecret T))
         | exact (canon_full_pwsecret _ _ _ (or_intror eq_refl) D (stop_rest _ _ _ _ H wf_pwsecret T))]
  | by_prefix
  | kw_pre; (apply (prefixb_hd _ _ _ d); [reflexivity|apply digit_eqb_letter; [exact D|reflexivity]])
  | enum_in Hin; by_prefix].

Lemma HM_pwsecret_encpw : HM_ok m_pwsecret m_encpw. Proof. HM_pwsecret_tac. Qed.
Lemma HM_pwsecret_pwsecret : HM_ok m_pwsecret m_pwsecret. Proof. HM_pwsecret_tac. Qed.

(** [m_username] then [m']. *)
Ltac HM_username_tac xpos :=
  let u := fresh "u" in let r := fresh "r" in let rest := fresh "rest" in let H := fresh "H" in
  let r1 := fresh "r1" in let r2 := fresh "r2" in let Er := fresh "Er" in let N := fresh "N" in
  let T := fresh "T" in let Hin := fresh "Hin" in let ws1 := fresh "ws1" in let x := fresh "x" in
  let ws2 := fresh "ws2" in let Su := fresh "Su" in let a2 := fresh "a2" in let Hsp := fresh "Hsp" in
  let x2 := fresh "x2" in let Nx2 := fresh "Nx2" in let Ax2 := fresh "Ax2" in
  let N1 := fresh "N1" in let A1 := fresh "A1" in let Nx := fresh "Nx" in let Ax := fresh "Ax" in
  let N2 := fresh "N2" in let A2 := fresh "A2" in let c := fresh "c" in let Hc := fresh "Hc" in
  let Hs := fresh "Hs" in
  intros u r rest H r1 r2 Er N;
  destruct (r_cases_username _ _ _ _ _ H Er N)
    as [ws1 [x [ws2 [Su [T [[a2 [Hin ->]]|[Hsp|[[x2 [Nx2 [Ax2 ->]]]|Hin]]]]]]]];
  pose proof Su as [N1 [A1 [Nx [Ax [N2 A2]]]]];
  [destruct (hd_ws ws1 (x ++ ws2 ++ "secret 5 ********" ++ re_sub m_username rest) N1 A1) as [c [Hc Hs]];
   enum_in Hin;
   first [by_prefix | exact (canon_full_username _ _ _ _ Su (stop_rest _ _ _ _ H wf_username T))
         | by_app_space Hc Hs]
  | destruct (Hsp (re_sub m_username rest)) as [c [Hc Hs]]; by_hd_space c Hc Hs
  | apply xpos; assumption
  | enum_in Hin;
    first [by_prefix
          | exact (canon_full_pwsecret "secret" "5" _ (or_intror eq_refl) eq_refl (stop_rest _ _ _ _ H wf_username T))]].

Lemma HM_username_encpw : HM_ok m_username m_encpw. Proof. HM_username_tac xpos_encpw. Qed.
Lemma HM_username_pwsecret : HM_ok m_username m_pwsecret. Proof. HM_username_tac xpos_pwsecret. Qed.
Lemma HM_username_username : HM_ok m_username m_username. Proof. HM_username_tac xpos_username. Qed.

Lemma HM_encpw_encpw : HM_ok m_encpw m_encpw.
Proof.
  intros u r rest H r1 r2 Er N.
  destruct (r_cases_encpw _ _ _ _ _ H Er N) as [ws [Nw [Aw [[a2 [Hin ->]]|[Hsp|Hin]]]]].
  - destruct (hd_ws ws (String dq (STARS ++ String dq "") ++ re_sub m_encpw rest) Nw Aw) as [c [Hc Hs]].
    cbv [KE] in Hin. enum_in Hin.
    all: first [exact (canon_full_encpw ws _ Nw Aw) | by_app_space Hc Hs].
  - destruct (Hsp (re_sub m_encpw rest)) as [c [Hc Hs]]. by_hd_space c Hc Hs.
  - enum_in Hin. all: by_prefix.
Qed.

Lemma canon_suffix m (a b : string) : canon m (a ++ b) -> canon m b.
Proof. intros Hc a' u E. apply (Hc (a ++ a')). rewrite E, app_assoc_s. reflexivity. Qed.

Lemma canon_head m c (t : string) : canon m (String c t) -> canon_at m (String c t).
Proof. intros Hc. exact (Hc "" _ eq_refl). Qed.

(** Canonicity of [m'] is kept by [re_sub m]. *)
Lemma keep_canon m m' t : wf_matcher m -> m' "" = None -> HM_ok m m' -> HO_ok m m' ->
  canon m' t -> canon m' (re_sub m t).
Proof.
  intros Hm Hn HM HO Ht.
  apply (transfer_canon m m' (canon m') Hm Hn (canon_suffix m') (fun c t H _ => canon_head m' c t H) HM HO t Ht).
Qed.

(** After [re_sub m], [m] is canonical everywhere. *)
Lemma self_canon m t : wf_matcher m -> HM_ok m m -> HO_ok m m -> canon m (re_sub m t).
Proof.
  intros Hm HM HO.
  apply (transfer_canon m m (fun _ => True) Hm (wf_nil m Hm) (fun _ _ _ => I)
           (fun c t _ H r rest H' => ltac:(congruence)) HM HO t I).
Qed.

Lemma HO_encpw_encpw : HO_ok m_encpw m_encpw.
Proof. apply HO_encpw; [exact wf_encpw|exact sl_encpw|exact quote_encpw|exact ks_encpw_encpw]. Qed.
Lemma HO_pwsecret_encpw : HO_ok m_pwsecret m_encpw.
Proof. apply HO_encpw; [exact wf_pwsecret|exact sl_pwsecret|exact quote_pwsecret|exact ks_pwsecret_encpw]. Qed.
Lemma HO_username_encpw : HO_ok m_username m_encpw.
Proof. apply HO_encpw; [exact wf_username|exact sl_username|exact quote_username|exact ks_username_encpw]. Qed.
Lemma HO_community_encpw : HO_ok m_community m_encpw.
Proof. apply HO_encpw; [exact wf_community|exact sl_community|exact quote_community|exact ks_community_encpw]. Qed.
Lemma HO_pwsecret_pwsecret : HO_ok m_pwsecret m_pwsecret.
Proof. apply HO_pwsecret; [exact wf_pwsecret|exact sl_pwsecret|exact ks_pwsecret_pwsecret]. Qed.
Lemma HO_username_pwsecret : HO_ok m_username m_pwsecret.
Proof. apply HO_pwsecret; [exact wf_username|exact sl_username|exact ks_username_pwsecret]. Qed.
Lemma HO_community_pwsecret : HO_ok m_community m_pwsecret.
Proof. apply HO_pwsecret; [exact wf_community|exact sl_community|exact ks_community_pwsecret]. Qed.
Lemma HO_username_username : HO_ok m_username m_username.
Proof.
  apply HO_username; [exact wf_username|exact sl_username|exact ks_username_username
                     |exact xs_username_username|exact ss_username_username].
Qed.
Lemma HO_community_username : HO_ok m_community m_username.
Proof.
  apply HO_username; [exact wf_community|exact sl_community|exact ks_community_username
                     |exact xs_community_username|exact ss_community_username].
Qed.
Lemma HO_community_community : HO_ok m_community m_community.
Proof. apply HO_community; [exact wf_community|exact sl_community|exact ks_community_community]. Qed.

(* ------------------------------------------------------------------ *)
(** ** Idempotence of [_sanitize_text] *)

(** C9: [_sanitize_text] is idempotent: for every string [x],
    [_sanitize_text (_sanitize_text x) = _sanitize_text x].  After the four
    passes every match of every pattern is already in its redacted form, so
    a second run of the four passes changes nothing. *)
Theorem C9_sanitize_idempotent : forall x, _sanitize_text (_sanitize_text x) = _sanitize_text x.
Proof.
  intros x. unfold _sanitize_text at 2.
  set (s1 := re_sub m_encpw x). set (s2 := re_sub m_pwsecret s1).
  set (s3 := re_sub m_username s2). set (s4 := re_sub m_community s3).
  assert (E1 : canon m_encpw s1) by exact (self_canon _ x wf_encpw HM_encpw_encpw HO_encpw_encpw).
  assert (E2 : canon m_encpw s2)
    by exact (keep_canon _ _ s1 wf_pwsecret eq_refl HM_pwsecret_encpw HO_pwsecret_encpw E1).
  assert (P2 : canon m_pwsecret s2)
    by exact (self_canon _ s1 wf_pwsecret HM_pwsecret_pwsecret HO_pwsecret_pwsecret).
  assert (E3 : canon m_encpw s3)
    by exact (keep_canon _ _ s2 wf_username eq_refl HM_username_encpw HO_username_encpw E2).
  assert (P3 : canon m_pwsecret s3)
    by exact (keep_canon _ _ s2 wf_username eq_refl HM_username_pwsecret HO_username_pwsecret P2).
  assert (U3 : canon m_username s3)
    by exact (self_canon _ s2 wf_username HM_username_username HO_username_username).
  assert (E4 : canon m_encpw s4)
    by exact (keep_canon _ _ s3 wf_community eq_refl HM_community_encpw HO_community_encpw E3).
  assert (P4 : canon m_pwsecret s4)
    by exact (keep_canon _ _ s3 wf_community eq_refl HM_community_pwsecret HO_community_pwsecret P3).
  assert (U4 : canon m_username s4)
    by exact (keep_canon _ _ s3 wf_community eq_refl HM_community_username HO_community_username U3).
  assert (C4 : canon m_community s4)
    by exact (self_canon _ s3 wf_community HM_community_community HO_community_community).
  change (re_sub m_community (re_sub m_username (re_sub m_pwsecret (re_sub m_encpw s4))) = s4).
  rewrite (canon_fixed _ _ E4), (canon_fixed _ _ P4), (canon_fixed _ _ U4), (canon_fixed _ _ C4).
  reflexivity.
Qed.

Lemma setdefault_assoc {A} (m : list (string * list A)) k v k' :
  assoc k' (setdefault_append m k v)
  = if String.eqb k' k then Some (match assoc k m with Some vs => app vs [v] | None => [v] end)
    else assoc k' m.
Proof.
  induction m as [|[k0 vs] m IH]; simpl.
  - destruct (String.eqb k' k); reflexivity.
  - destruct (String.eqb_spec k k0) as [E|Hk]; simpl.
    + subst k0. destruct (String.eqb k' k); reflexivity.
    + rewrite IH. destruct (String.eqb_spec k' k) as [E|Hk']; [|reflexivity].
      subst k'. destruct (String.eqb_spec k k0); [contradiction|reflexivity].
Qed.

Lemma fold_sd_assoc {A B} (g : B -> string) (h : B -> A) l acc k :
  assoc k (fold_sd g h l acc)
  = match assoc k acc, map h (filter (fun b => String.eqb (g b) k) l) with
    | None, [] => None
    | None, vs => Some vs
    | Some vs0, vs => Some (app vs0 vs)
    end.
Proof.
  unfold fold_sd. revert acc; induction l as [|b l IH]; intros acc; simpl.
  - destruct (assoc k acc); [rewrite app_nil_r|]; reflexivity.
  - rewrite IH, setdefault_assoc.
    rewrite (String.eqb_sym k (g b)).
    destruct (String.eqb_spec (g b) k) as [<-|_]; simpl; [|reflexivity].
    destruct (assoc (g b) acc); simpl; [rewrite <- app_assoc|]; reflexivity.
Qed.

Lemma fold_sd_keys {A B} (g : B -> string) (h : B -> A) l acc k :
  In k (map fst (fold_sd g h l acc)) <-> In k (map g l) \/ In k (map fst acc).
Proof.
  unfold fold_sd. revert acc; induction l as [|b l IH]; intros acc; simpl; [tauto|].
  rewrite IH, setdefault_keys. intuition congruence.
Qed.

Lemma build_msg_map_assoc alarms d :
  assoc d (build_msg_map alarms) = match messages_of alarms d with [] => None | ms => Some ms end.
Proof.
  unfold build_msg_map, messages_of. rewrite fold_sd_assoc. simpl.
  destruct (map message _); reflexivity.
Qed.

Lemma detect_loop_NoDup m cm : NoDup (map fst cm) -> NoDup (map fst (detect_loop m cm)).
Proof.
  induction cm as [|[k cs] cm IH]; simpl; intros ND; [constructor|].
  inversion ND as [|? ? Hk ND']; subst.
  destruct (silent_candidate m k cs); simpl; [|apply IH, ND'].
  constructor; [|apply IH, ND'].
  intros Hin. apply in_map_iff in Hin as [[q ev] [Eq Hq]]. simpl in Eq; subst q.
  apply Hk, (detect_loop_keys m cm k ev Hq).
Qed.

Lemma detect_NoDup topo m : NoDup (map fst (_detect_silent_failures topo m)).
Proof. apply detect_loop_NoDup, children_map_NoDup. Qed.

Lemma filter_key {A} (l : list (string * A)) d :
  NoDup (map fst l) ->
  filter (fun p => String.eqb (fst p) d) l = match assoc d l with Some v => [(d, v)] | None => [] end.
Proof.
  induction l as [|[k v] l IH]; simpl; intros ND; [reflexivity|].
  inversion ND as [|? ? Hk ND']; subst.
  rewrite (IH ND'). rewrite (String.eqb_sym k d).
  destruct (String.eqb_spec d k) as [->|_]; [|reflexivity].
  rewrite (assoc_not_key k l Hk). reflexivity.
Qed.

Lemma inject_assoc (mm : msg_map_t) (silent : list (string * evidence)) d :
  NoDup (map fst silent) -> (forall q ev, In (q, ev) silent -> assoc q mm = None) ->
  assoc d (inject_silent mm silent) = if has_key d silent then Some [SILENT_MESSAGE] else assoc d mm.
Proof.
  intros ND Hn. unfold inject_silent. rewrite fold_sd_assoc, (filter_key silent d ND).
  unfold has_key. destruct (assoc d silent) as [ev|] eqn:E.
  - rewrite (Hn d ev (assoc_In _ _ _ E)). reflexivity.
  - destruct (assoc d mm); [rewrite app_nil_r|]; reflexivity.
Qed.

(** The message lists of [analyze]: a suspect gets the synthetic alarm, any
    other device its own messages. *)
Lemma msg_map_assoc topo alarms d :
  let S := _detect_silent_failures topo (build_msg_map alarms) in
  assoc d (inject_silent (build_msg_map alarms) S)
  = if has_key d S then Some [SILENT_MESSAGE]
    else match messages_of alarms d with [] => None | ms => Some ms end.
Proof.
  intros S. rewrite inject_assoc; [rewrite build_msg_map_assoc; reflexivity|apply detect_NoDup|].
  intros q ev H. apply has_key_assoc, (detect_not_alarmed topo _ q ev H).
Qed.

Lemma suspect_no_messages topo alarms d :
  has_key d (_detect_silent_failures topo (build_msg_map alarms)) = true -> messages_of alarms d = [].
Proof.
  unfold has_key. destruct (assoc d _) as [ev|] eqn:E; [intros _|discriminate].
  apply assoc_In, detect_not_alarmed, has_key_assoc in E.
  rewrite build_msg_map_assoc in E. destruct (messages_of alarms d); [reflexivity|discriminate].
Qed.

Lemma analyze_In e topo alarms rs r :
  alarms <> [] -> analyze e topo alarms = Some rs -> In r rs ->
  let S := _detect_silent_failures topo (build_msg_map alarms) in
  let MM := inject_silent (build_msg_map alarms) S in
  exists msgs, assoc (r_id r) MM = Some msgs /\
    analyze_device e topo S (map fst MM) (r_id r) msgs = Some r.
Proof.
  intros Hne H Hin S MM. destruct alarms as [|a0 l]; [congruence|].
  unfold analyze in H. destruct (analyze_results e topo (a0 :: l)) as [rs0|] eqn:E; [|discriminate].
  injection H as <-. apply (proj1 (sort_desc_In _ _)) in Hin.
  unfold analyze_results in E. fold S MM in E.
  destruct (map_opt_In_inv _ _ _ _ E Hin) as [[d msgs] [Hd Hr]]. simpl in Hr.
  exists msgs. rewrite (analyze_device_id _ _ _ _ _ _ _ Hr). split; [|exact Hr].
  apply In_assoc_NoDup; [apply msg_map_NoDup|exact Hd].
Qed.

Lemma analyze_device_label e topo S al dev msgs r :
  analyze_device e topo S al dev msgs = Some r -> r_label r = join " / " msgs.
Proof.
  unfold analyze_device.
  destruct (_ && _); [intros [= <-]; reflexivity|].
  destruct (_ && _); [intros [= <-]; reflexivity|].
  destruct (assoc dev S); [intros [= <-]; reflexivity|].
  destruct (if is_unknown _ then _ else _) as [sp|]; [|discriminate].
  destruct (if sp then _ else _). intros [= <-]. reflexivity.
Qed.

Lemma sort_desc_perm l : Permutation (sort_desc l) l.
Proof.
  unfold sort_desc.
  assert (Hi : forall x acc, Permutation (insert_desc x acc) (x :: acc)).
  { intros x acc. induction acc as [|y acc IH]; simpl; [reflexivity|].
    destruct (Qle_bool _ _); [|reflexivity].
    rewrite IH. apply perm_swap. }
  cut (forall acc, Permutation (fold_left (fun acc x => insert_desc x acc) l acc) (rev l ++ acc)).
  { intros H. rewrite H, app_nil_r. apply Permutation_sym, Permutation_rev. }
  induction l as [|x l IH]; intros acc; simpl; [reflexivity|].
  rewrite IH, Hi, <- app_assoc. simpl.
  apply Permutation_app_head, Permutation_refl.
Qed.

Lemma insert_desc_SS x l :
  StronglySorted prob_desc l -> StronglySorted prob_desc (insert_desc x l).
Proof.
  induction l as [|y l IH]; simpl; intros H; [repeat constructor|].
  inversion H as [|? ? Hl Hy]; subst.
  destruct (Qle_bool (r_prob x) (r_prob y)) eqn:E.
  - apply Qle_bool_iff in E. constructor; [apply IH, Hl|].
    apply Forall_forall. intros z Hz. apply insert_desc_In in Hz as [->|Hz]; [exact E|].
    rewrite Forall_forall in Hy. apply Hy, Hz.
  - assert (E' : (r_prob y <= r_prob x)%Q).
    { apply Qlt_le_weak, Qnot_le_lt. intros C. apply Qle_bool_iff in C. congruence. }
    constructor; [exact H|]. constructor; [exact E'|].
    rewrite Forall_forall in Hy |- *. intros z Hz. unfold prob_desc in *.
    apply (Qle_trans _ (r_prob y)); [apply Hy, Hz|exact E'].
Qed.

Lemma sort_desc_SS l : StronglySorted prob_desc (sort_desc l).
Proof.
  unfold sort_desc.
  cut (forall acc, StronglySorted prob_desc acc ->
         StronglySorted prob_desc (fold_left (fun acc x => insert_desc x acc) l acc)).
  { intros H. apply H. constructor. }
  induction l as [|x l IH]; intros acc H; simpl; [exact H|].
  apply IH, insert_desc_SS, H.
Qed.

Lemma analyze_shape e topo alarms rs :
  analyze e topo alarms = Some rs ->
  (alarms = [] /\ rs = [SYSTEM_RESULT]) \/
  exists rs0, analyze_results e topo alarms = Some rs0 /\ rs = sort_desc rs0.
Proof.
  unfold analyze. destruct alarms as [|a0 l]; [intros [= <-]; left; split; reflexivity|].
  destruct (analyze_results e topo (a0 :: l)) as [rs0|]; [|discriminate].
  intros [= <-]. right. exists rs0. split; reflexivity.
Qed.

Lemma analyze_device_table e topo S al dev msgs r :
  analyze_device e topo S al dev msgs = Some r -> tier_table r.
Proof.
  unfold analyze_device, tier_table.
  destruct (_ && _); [intros [= <-]; simpl; tauto|].
  destruct (_ && _); [intros [= <-]; simpl; tauto|].
  destruct (assoc dev S); [intros [= <-]; simpl; tauto|].
  destruct (if is_unknown _ then _ else _) as [sp|]; [|discriminate].
  destruct sp; [intros [= <-]; simpl; tauto|].
  destruct (status _); intros [= <-]; simpl; tauto.
Qed.

Lemma tier_table_mono x y :
  tier_table x -> tier_table y -> prob_desc x y -> tier_asc x y.
Proof.
  unfold tier_table, prob_desc, tier_asc, Qle.
  intros Hx Hy;
    destruct Hx as [[-> ->]|[[-> ->]|[[-> ->]|[[-> ->]|[[-> ->]|[[-> ->]|[-> ->]]]]]]];
    destruct Hy as [[-> ->]|[[-> ->]|[[-> ->]|[[-> ->]|[[-> ->]|[[-> ->]|[-> ->]]]]]]];
    simpl; lia.
Qed.

Lemma SS_impl {T} (R R' : T -> T -> Prop) (P : T -> Prop) l :
  (forall x y, P x -> P y -> R x y -> R' x y) -> Forall P l ->
  StronglySorted R l -> StronglySorted R' l.
Proof.
  intros Himp HP H. induction H as [|x l Hl IH Hx]; constructor.
  - inversion HP; subst. apply IH. assumption.
  - inversion HP as [|? ? Px Pl]; subst. rewrite Forall_forall in *.
    intros y Hy. apply Himp; auto.
Qed.

(** The results of [analyze] are ordered by non-increasing confidence. *)
Theorem analyze_sorted_by_prob e topo alarms rs :
  analyze e topo alarms = Some rs -> StronglySorted prob_desc rs.
Proof.
  intros H. destruct (analyze_shape _ _ _ _ H) as [[_ ->]|[rs0 [_ ->]]].
  - repeat constructor.
  - apply sort_desc_SS.
Qed.

(** The results of [analyze] are also ordered by non-decreasing tier. *)
Theorem analyze_sorted_by_tier e topo alarms rs :
  analyze e topo alarms = Some rs -> StronglySorted tier_asc rs.
Proof.
  intros H. destruct (analyze_shape _ _ _ _ H) as [[_ ->]|[rs0 [E ->]]].
  - repeat constructor.
  - apply (SS_impl prob_desc _ tier_table); [exact tier_table_mono| |apply sort_desc_SS].
    apply Forall_forall. intros r Hr. apply (proj1 (sort_desc_In _ _)) in Hr.
    unfold analyze_results in E.
    destruct (map_opt_In_inv _ _ _ _ E Hr) as [[d msgs] [_ Hd]].
    apply (analyze_device_table _ _ _ _ _ _ _ Hd).
Qed.

Lemma map_opt_Forall2 {A B} (f : A -> option B) l ys :
  map_opt f l = Some ys -> Forall2 (fun x y => f x = Some y) l ys.
Proof.
  revert ys; induction l as [|x l IH]; intros ys H; simpl in H.
  - injection H as <-. constructor.
  - destruct (f x) eqn:Ex; [|discriminate].
    destruct (map_opt f l) eqn:El; [|discriminate]. injection H as <-.
    constructor; [exact Ex|apply IH; reflexivity].
Qed.

(** For a non-empty alarm list, [analyze] returns one result per device, and the devices are exactly those with an alarm and the silent-failure suspects. *)
Theorem analyze_one_result_per_device e topo alarms rs :
  alarms <> [] -> analyze e topo alarms = Some rs ->
  NoDup (map r_id rs) /\
  forall d, In d (map r_id rs) <->
            In d (map device_id alarms)
            \/ In d (map fst (_detect_silent_failures topo (build_msg_map alarms))).
Proof.
  intros Hne H. destruct (analyze_shape _ _ _ _ H) as [[E _]|[rs0 [E ->]]]; [contradiction|].
  unfold analyze_results in E.
  set (S := _detect_silent_failures topo (build_msg_map alarms)) in E.
  set (MM := inject_silent (build_msg_map alarms) S) in E.
  assert (Hids : map r_id rs0 = map fst MM).
  { apply map_opt_Forall2 in E. clear -E. induction E as [|[d msgs] r l rs E' _ IH]; [reflexivity|].
    simpl. rewrite IH. simpl in E'. rewrite (analyze_device_id _ _ _ _ _ _ _ E'). reflexivity. }
  assert (Hp : Permutation (map r_id (sort_desc rs0)) (map fst MM)).
  { rewrite <- Hids. apply Permutation_map, sort_desc_perm. }
  split.
  - apply (Permutation_NoDup (Permutation_sym Hp)), msg_map_NoDup.
  - intros d. split; intros Hd.
    + apply (Permutation_in _ Hp) in Hd. unfold MM, inject_silent in Hd.
      apply fold_sd_keys in Hd as [Hd|Hd]; [right; exact Hd|].
      unfold build_msg_map in Hd. apply fold_sd_keys in Hd as [Hd|[]]. left; exact Hd.
    + apply (Permutation_in _ (Permutation_sym Hp)). unfold MM, inject_silent.
      apply fold_sd_keys. destruct Hd as [Hd|Hd]; [right|left; exact Hd].
      unfold build_msg_map. apply fold_sd_keys. left; exact Hd.
Qed.

(** For a non-empty alarm list, the label of each result is the device's alarm messages in arrival order joined by " / ", or the synthetic silent-failure message for a suspect without alarms. *)
Theorem analyze_label e topo alarms rs r :
  alarms <> [] -> analyze e topo alarms = Some rs -> In r rs ->
  r_label r = match messages_of alarms (r_id r) with
              | [] => SILENT_MESSAGE
              | ms => join " / " ms
              end.
Proof.
  intros Hne H Hin. destruct (analyze_In _ _ _ _ _ Hne H Hin) as [msgs [Hm Hr]].
  rewrite (analyze_device_label _ _ _ _ _ _ _ Hr).
  rewrite msg_map_assoc in Hm.
  destruct (has_key (r_id r) _) eqn:Hk.
  - injection Hm as <-. rewrite (suspect_no_messages _ _ _ Hk). reflexivity.
  - destruct (messages_of alarms (r_id r)); [discriminate|]. injection Hm as <-. reflexivity.
Qed.

(** A result carrying an analyst report is for a silent-failure suspect that raised no alarm itself. *)
Theorem analyze_silent_report_only_unalarmed e topo alarms rs r :
  analyze e topo alarms = Some rs -> In r rs -> r_analyst_report r <> None ->
  ~ In (r_id r) (map device_id alarms) /\
  has_key (r_id r) (_detect_silent_failures topo (build_msg_map alarms)) = true.
Proof.
  intros H Hin Hrep. destruct alarms as [|a0 l] eqn:Ea.
  - unfold analyze in H. injection H as <-. destruct Hin as [<-|[]]. simpl in Hrep. congruence.
  - rewrite <- Ea in *. assert (Hne : alarms <> []) by (rewrite Ea; discriminate).
    destruct (analyze_In _ _ _ _ _ Hne H Hin) as [msgs [_ Hr]].
    assert (Hs : has_key (r_id r) (_detect_silent_failures topo (build_msg_map alarms)) = true).
    { revert Hr. unfold analyze_device.
      destruct (_ && _); [intros [= Heq]; rewrite <- Heq in Hrep; simpl in Hrep; congruence|].
      destruct (_ && _); [intros [= Heq]; rewrite <- Heq in Hrep; simpl in Hrep; congruence|].
      unfold has_key. destruct (assoc (r_id r) _); [reflexivity|].
      destruct (if is_unknown _ then _ else _) as [sp|]; [|discriminate].
      destruct (if sp then _ else _). intros [= Heq]; rewrite <- Heq in Hrep; simpl in Hrep; congruence. }
    split; [|exact Hs].
    intros Hd. apply in_map_iff in Hd as [a [Ed Ha]].
    pose proof (alarmed_not_suspect topo alarms a Ha) as Hn. rewrite Ed in Hn.
    unfold has_key in Hs. rewrite Hn in Hs. discriminate.
Qed.

Lemma in_keys_has_key {A} (k : string) (m : list (string * A)) :
  In k (map fst m) -> has_key k m = true.
Proof.
  unfold has_key. induction m as [|[k' v] m IH]; simpl; [intros []|].
  intros [->|H]; [rewrite String.eqb_refl; reflexivity|].
  destruct (String.eqb k k'); [reflexivity|apply IH, H].
Qed.

(** A result with confidence 0.2 (cascade suppression) is for a device that raised an alarm containing "unreachable" and whose non-empty parent has an alarm or is a silent-failure suspect. *)
Theorem analyze_cascade_only_under_alarmed_parent e topo alarms rs r :
  analyze e topo alarms = Some rs -> In r rs -> r_prob r = 2 # 10 ->
  exists p m, _get_parent_id topo (r_id r) = Some p /\ p <> "" /\
    (In p (map device_id alarms)
     \/ has_key p (_detect_silent_failures topo (build_msg_map alarms)) = true) /\
    In m (messages_of alarms (r_id r)) /\ contains "unreachable" (lower m) = true.
Proof.
  intros H Hin Hp. destruct alarms as [|a0 l] eqn:Ea.
  - unfold analyze in H. injection H as <-. destruct Hin as [<-|[]]. discriminate Hp.
  - rewrite <- Ea in *. assert (Hne : alarms <> []) by (rewrite Ea; discriminate).
    destruct (analyze_In _ _ _ _ _ Hne H Hin) as [msgs [Hm Hr]].
    revert Hr. unfold analyze_device.
    destruct (_ && _); [intros [= Heq]; rewrite <- Heq in Hp; discriminate Hp|].
    destruct (existsb _ msgs && parent_is_alarmed _ _ _) eqn:Hc.
    + intros _. apply andb_true_iff in Hc as [Hu Ha].
      unfold parent_is_alarmed in Ha.
      destruct (_get_parent_id topo (r_id r)) as [q|] eqn:Eq; [|discriminate].
      simpl in Ha. apply andb_true_iff in Ha as [Hq Ha].
      apply existsb_exists in Ha as [q' [Hq' Eqq]]. apply String.eqb_eq in Eqq. subst q'.
      rewrite msg_map_assoc in Hm.
      destruct (has_key (r_id r) _) eqn:Hk.
      * injection Hm as <-. discriminate Hu.
      * destruct (messages_of alarms (r_id r)) as [|m0 ms] eqn:Em; [discriminate|].
        injection Hm as <-. apply existsb_exists in Hu as [m [Hm Hmu]].
        exists q, m. split; [reflexivity|]. split; [destruct q; [discriminate|congruence]|].
        split; [|split; [exact Hm|exact Hmu]].
        unfold inject_silent in Hq'. apply fold_sd_keys in Hq' as [Hq'|Hq'];
          [right; apply in_keys_has_key, Hq'|left].
        unfold build_msg_map in Hq'. apply fold_sd_keys in Hq' as [Hq'|[]]. exact Hq'.
    + destruct (assoc (r_id r) (_detect_silent_failures topo (build_msg_map alarms)));
        [intros [= Heq]; rewrite <- Heq in Hp; discriminate Hp|].
      destruct (if is_unknown _ then _ else _) as [sp|]; [|discriminate].
      destruct sp; [intros [= Heq]; rewrite <- Heq in Hp; discriminate Hp|].
      destruct (status _); intros [= Heq]; rewrite <- Heq in Hp; discriminate Hp.
Qed.

Lemma local_rules_shape topo d j a :
  local_safety_rules topo d j = Some a -> (exists s, reason a = JStr s) /\ status a <> NORMAL.
Proof.
  intros H. unfold local_safety_rules in H. cbv zeta in H.
  repeat match type of H with context [if ?b then _ else _] => destruct b end;
    try discriminate H; injection H as <-; (split; [eexists; reflexivity|discriminate]).
Qed.

Lemma ard_no_service e topo d alerts :
  _ensure_api_configured e = false ->
  (exists s, reason (analyze_redundancy_depth e topo d alerts) = JStr s) /\
  (alerts <> [] -> status (analyze_redundancy_depth e topo d alerts) <> NORMAL).
Proof.
  intros He. destruct alerts as [|a0 l]; [split; [eexists; reflexivity|congruence]|].
  unfold analyze_redundancy_depth.
  destruct (local_safety_rules _ _ _) as [a|] eqn:El.
  - destruct (local_rules_shape _ _ _ _ El) as [Hs Hn]. split; [exact Hs|intros _; exact Hn].
  - rewrite He. simpl. split; [eexists; reflexivity|discriminate].
Qed.

(** Without a configured inference service, [analyze_redundancy_depth] never classifies a non-empty alert list as Normal. *)
Theorem ard_not_normal_without_service e topo d alerts :
  alerts <> [] -> _ensure_api_configured e = false ->
  status (analyze_redundancy_depth e topo d alerts) <> NORMAL.
Proof. intros Hne He. apply (proj2 (ard_no_service e topo d alerts He)), Hne. Qed.

Lemma map_opt_not_None {A B} (f : A -> option B) l :
  (forall x, f x <> None) -> map_opt f l <> None.
Proof.
  intros Hf. induction l as [|x l IH]; simpl; [discriminate|].
  destruct (f x) eqn:E; [|exfalso; apply (Hf x), E].
  destruct (map_opt f l); [discriminate|contradiction].
Qed.

(** Without a configured inference service, [analyze] never raises. *)
Theorem analyze_total_without_service e topo alarms :
  _ensure_api_configured e = false -> analyze e topo alarms <> None.
Proof.
  intros He. unfold analyze. destruct alarms as [|a0 l]; [discriminate|].
  unfold analyze_results.
  destruct (map_opt _ _) eqn:E; [discriminate|].
  exfalso. revert E. apply map_opt_not_None. intros [d msgs]. simpl.
  unfold analyze_device.
  destruct (_ && _); [discriminate|]. destruct (_ && _); [discriminate|].
  destruct (assoc d _); [discriminate|].
  destruct (ard_no_service e topo d msgs He) as [[s Hs] _]. cbv zeta. rewrite Hs.
  destruct (is_unknown _); simpl; [destruct (contains _ _)|]; simpl;
    try destruct (status _); discriminate.
Qed.

(** A single PSU failure (no stop condition, no "dual") on a device whose PSU count is below 2 is classified Critical with impact type Hardware/Physical. *)
Theorem ard_single_psu_failure_without_redundancy_is_critical e topo d alerts :
  (_get_psu_count topo d 1 < 2)%Z ->
  let joined := join " " (map _sanitize_text alerts) in
  let jl := lower joined in
  ((contains "power supply" jl && contains "failed" jl) || (contains "psu" jl && contains "fail" jl))
    = true ->
  contains "dual" jl = false ->
  stop_condition joined = false ->
  analyze_redundancy_depth e topo d alerts
  = mk CRITICAL ("Single PSU failure without redundancy (psu_count=" ++ z_to_str (_get_psu_count topo d 1)
                 ++ ") (local safety rule).") "Hardware/Physical".
Proof.
  intros Hn joined jl Hfail Hdual Hstop.
  destruct alerts as [|a0 l]; [discriminate Hfail|].
  unfold analyze_redundancy_depth, local_safety_rules.
  fold joined. rewrite Hstop. fold jl. rewrite Hdual.
  rewrite !andb_true_r. rewrite Hfail.
  destruct (2 <=? _get_psu_count topo d 1)%Z eqn:E; [apply Z.leb_le in E; lia|reflexivity].
Qed.

Lemma sanitize_canon x :
  let s := _sanitize_text x in
  canon m_encpw s /\ canon m_pwsecret s /\ canon m_username s /\ canon m_community s.
Proof.
  intros s. unfold s, _sanitize_text.
  set (s1 := re_sub m_encpw x). set (s2 := re_sub m_pwsecret s1).
  set (s3 := re_sub m_username s2).
  assert (E1 : canon m_encpw s1) by exact (self_canon _ x wf_encpw HM_encpw_encpw HO_encpw_encpw).
  assert (E2 : canon m_encpw s2)
    by exact (keep_canon _ _ s1 wf_pwsecret eq_refl HM_pwsecret_encpw HO_pwsecret_encpw E1).
  assert (P2 : canon m_pwsecret s2)
    by exact (self_canon _ s1 wf_pwsecret HM_pwsecret_pwsecret HO_pwsecret_pwsecret).
  assert (E3 : canon m_encpw s3)
    by exact (keep_canon _ _ s2 wf_username eq_refl HM_username_encpw HO_username_encpw E2).
  assert (P3 : canon m_pwsecret s3)
    by exact (keep_canon _ _ s2 wf_username eq_refl HM_username_pwsecret HO_username_pwsecret P2).
  assert (U3 : canon m_username s3)
    by exact (self_canon _ s2 wf_username HM_username_username HO_username_username).
  split; [exact (keep_canon _ _ s3 wf_community eq_refl HM_community_encpw HO_community_encpw E3)|].
  split; [exact (keep_canon _ _ s3 wf_community eq_refl HM_community_pwsecret HO_community_pwsecret P3)|].
  split; [exact (keep_canon _ _ s3 wf_community eq_refl HM_community_username HO_community_username U3)|].
  exact (self_canon _ s3 wf_community HM_community_community HO_community_community).
Qed.

(** In the output of [_sanitize_text], every place where one of its four patterns matches already carries the mask: the encrypted password reads ["********"], a password or secret reads [<digit> ********], a username secret reads [secret 5 ********] and a community reads [snmp-server community ********]. *)
Theorem sanitize_masks_every_secret x a u :
  _sanitize_text x = a ++ u ->
  (forall r rest, m_encpw u = Some (r, rest) ->
     exists ws, u = "encrypted-password" ++ ws ++ String dq ("********" ++ String dq rest)) /\
  (forall r rest, m_pwsecret u = Some (r, rest) ->
     exists K d, (K = "password" \/ K = "secret") /\ u = K ++ " " ++ String d (" ********" ++ rest)) /\
  (forall r rest, m_username u = Some (r, rest) ->
     exists ws1 y ws2, u = "username" ++ ws1 ++ y ++ ws2 ++ "secret 5 ********" ++ rest) /\
  (forall r rest, m_community u = Some (r, rest) -> u = "snmp-server community ********" ++ rest).
Proof.
  intros H. destruct (sanitize_canon x) as [CE [CP [CU CC]]]. rewrite H in CE, CP, CU, CC.
  split; [|split; [|split]]; intros r rest Hm.
  - pose proof (CE a u eq_refl r rest Hm) as Hu.
    apply m_encpw_spec in Hm as [ws [body [_ [_ [_ [_ [_ ->]]]]]]].
    exists ws. rewrite <- Hu. unfold KE, STARS. sapp. reflexivity.
  - pose proof (CP a u eq_refl r rest Hm) as Hu.
    apply m_pwsecret_spec in Hm as [K [ws1 [d [ws2 [tok [HK [_ [_ [_ ->]]]]]]]]].
    exists K, d. split; [exact HK|]. rewrite <- Hu. sapp. reflexivity.
  - pose proof (CU a u eq_refl r rest Hm) as Hu.
    apply m_username_spec in Hm as [ws1 [y [ws2 [ws3 [d [ws4 [tok [_ [_ [_ [_ ->]]]]]]]]]]].
    exists ws1, y, ws2. rewrite <- Hu. sapp. reflexivity.
  - pose proof (CC a u eq_refl r rest Hm) as Hu.
    apply m_community_spec in Hm as [ws [tok [_ [_ [_ [_ [_ [_ ->]]]]]]]].
    rewrite <- Hu. unfold KC. sapp. reflexivity.
Qed.

Lemma contains_prefix p s : prefixb p s = true -> contains p s = true.
Proof. destruct s; simpl; intros H; rewrite H; reflexivity. Qed.

Lemma contains_lit p t : contains p (p ++ t) = true.
Proof. apply contains_prefix, prefixb_app_self. Qed.

Lemma no_match_canon m x : (forall a u r rest, x = a ++ u -> m u = Some (r, rest) -> False) -> canon m x.
Proof. intros H a u E r rest Hm. exfalso. exact (H a u r rest E Hm). Qed.

(** [_sanitize_text] returns a text unchanged when it contains none of "password", "secret" and "snmp-server community". *)
Theorem sanitize_keyword_free_unchanged x :
  contains "password" x = false -> contains "secret" x = false ->
  contains "snmp-server community" x = false -> _sanitize_text x = x.
Proof.
  intros Hp Hs Hc.
  assert (Hcon : forall p a u, x = a ++ u -> contains p u = true -> contains p x = true).
  { intros p a u -> Hu. apply contains_app_r, Hu. }
  assert (CE : canon m_encpw x).
  { apply no_match_canon. intros a u r rest E Hm.
    apply m_encpw_spec in Hm as [ws [body [_ [_ [_ [_ [Hu _]]]]]]].
    assert (C : contains "password" u = true).
    { rewrite Hu. unfold KE. change "encrypted-password" with ("encrypted-" ++ "password").
      rewrite app_assoc_s. apply contains_app_r, contains_lit. }
    rewrite (Hcon _ _ _ E C) in Hp. discriminate. }
  assert (CP : canon m_pwsecret x).
  { apply no_match_canon. intros a u r rest E Hm.
    apply m_pwsecret_spec in Hm as [K [ws1 [d [ws2 [tok [[-> | ->] [_ [_ [Hu _]]]]]]]]];
      rewrite Hu in E.
    - rewrite (Hcon _ _ _ E (contains_lit _ _)) in Hp. discriminate.
    - rewrite (Hcon _ _ _ E (contains_lit _ _)) in Hs. discriminate. }
  assert (CU : canon m_username x).
  { apply no_match_canon. intros a u r rest E Hm.
    apply m_username_spec in Hm as [ws1 [y [ws2 [ws3 [d [ws4 [tok [_ [_ [_ [Hu _]]]]]]]]]]].
    assert (C : contains "secret" u = true).
    { rewrite Hu. do 4 apply contains_app_r. apply contains_lit. }
    rewrite (Hcon _ _ _ E C) in Hs. discriminate. }
  assert (CC : canon m_community x).
  { apply no_match_canon. intros a u r rest E Hm.
    apply m_community_spec in Hm as [ws [tok [_ [_ [_ [_ [_ [Hu _]]]]]]]].
    rewrite Hu in E. unfold KC in E. rewrite (Hcon _ _ _ E (contains_lit _ _)) in Hc. discriminate. }
  unfold _sanitize_text.
  rewrite (canon_fixed _ _ CE), (canon_fixed _ _ CP),
    (canon_fixed _ _ CU), (canon_fixed _ _ CC).
  reflexivity.
Qed.

Lemma lower_char_idem c : lower_char (lower_char c) = lower_char c.
Proof. destruct c as [[] [] [] [] [] [] [] []]; reflexivity. Qed.

Lemma lower_idem s : lower (lower s) = lower s.
Proof.
  unfold lower. induction s as [|c s IH]; simpl; [reflexivity|]. rewrite lower_char_idem, IH. reflexivity.
Qed.

(** [_is_connection_loss] gives the same answer on a message and on its lower-cased form. *)
Theorem is_connection_loss_case_insensitive msg :
  _is_connection_loss (lower msg) = _is_connection_loss msg.
Proof. unfold _is_connection_loss. rewrite lower_idem. reflexivity. Qed.

Lemma srev_app a b : srev (a ++ b) = srev b ++ srev a.
Proof.
  induction a as [|c a IH]; simpl; [rewrite app_nil_r_s; reflexivity|].
  rewrite IH, app_assoc_s. reflexivity.
Qed.

Lemma srev_srev s : srev (srev s) = s.
Proof. induction s as [|c s IH]; simpl; [reflexivity|]. rewrite srev_app, IH. reflexivity. Qed.

Lemma substring_prefix a b : substring 0 (String.length a) (a ++ b) = a.
Proof. induction a as [|c a IH]; simpl; [destruct b; reflexivity|rewrite IH; reflexivity]. Qed.

Lemma substring_after a b n : substring (String.length a) n (a ++ b) = substring 0 n b.
Proof. induction a as [|c a IH]; simpl; [reflexivity|exact IH]. Qed.

Lemma strip_ends c s d :
  is_space c = false -> is_space d = false ->
  strip (String c (s ++ String d "")) = String c (s ++ String d "").
Proof.
  intros Hc Hd. unfold strip.
  assert (E1 : lstrip (String c (s ++ String d "")) = String c (s ++ String d "")) by (simpl; rewrite Hc; reflexivity).
  rewrite E1. simpl srev at 2. rewrite srev_app. simpl (srev (String d "")).
  simpl append. simpl lstrip. rewrite Hd. simpl. rewrite srev_app, srev_srev. reflexivity.
Qed.

Lemma strip_fenced t : strip ("```json" ++ t ++ "```") = "```json" ++ t ++ "```".
Proof.
  assert (E : "```json" ++ t ++ "```" = String "`" (("``json" ++ t ++ "``") ++ String "`" "")).
  { simpl. rewrite !app_assoc_s. reflexivity. }
  rewrite E. apply strip_ends; reflexivity.
Qed.

Lemma strip_code_fence_fenced t : strip_code_fence ("```json" ++ t ++ "```") = t.
Proof.
  unfold strip_code_fence. rewrite prefixb_app_self.
  change 7 with (String.length "```json"). rewrite drop_app.
  unfold endswith, drop_end. rewrite length_app_s. simpl String.length.
  replace (String.length t + 3 - 3) with (String.length t) by lia.
  rewrite substring_after, substring_prefix.
  replace (3 <=? String.length t + 3) with true by (symmetry; apply Nat.leb_le; lia).
  reflexivity.
Qed.

(** A reply wrapped in a leading json code fence and a trailing fence is classified exactly like the bare reply (for a bare reply that is already stripped and has no fence of its own). *)
Theorem ai_reply_fence_ignored (loads : string -> option json) t :
  strip t = t -> prefixb "```json" t = false -> endswith "```" t = false ->
  ai_fallback_with loads (ReplyText ("```json" ++ t ++ "```")) = ai_fallback_with loads (ReplyText t).
Proof.
  intros Hs Hp He. unfold ai_fallback_with.
  rewrite strip_fenced, strip_code_fence_fenced, Hs.
  unfold strip_code_fence. rewrite Hp, He. reflexivity.
Qed.


Lemma children_map_assoc topo p :
  let cs := map fst (filter (fun di : string * device_info =>
                               match parent_id (snd di) with
                               | Some q => nonempty q && String.eqb q p
                               | None => false
                               end) topo) in
  assoc p (children_map topo) = match cs with [] => None | _ => Some cs end.
Proof.
  intros cs. unfold cs, children_map. clear cs.
  cut (forall acc, assoc p (fold_left (fun m (di : string * device_info) =>
               let (dev_id, info) := di in
               match parent_id info with
               | Some p => if nonempty p then setdefault_append m p dev_id else m
               | None => m
               end) topo acc)
         = match assoc p acc, map fst (filter (fun di : string * device_info =>
                               match parent_id (snd di) with
                               | Some q => nonempty q && String.eqb q p
                               | None => false
                               end) topo) with
           | None, [] => None
           | None, cs => Some cs
           | Some c0, cs => Some (app c0 cs)
           end).
  { intros H. rewrite H. simpl. destruct (map fst _); reflexivity. }
  induction topo as [|[d info] topo IH]; intros acc; simpl.
  - destruct (assoc p acc); [rewrite app_nil_r|]; reflexivity.
  - rewrite IH. destruct (parent_id info) as [q|]; [|reflexivity].
    destruct (nonempty q); simpl; [|reflexivity].
    rewrite setdefault_assoc, (String.eqb_sym q p).
    destruct (String.eqb_spec p q) as [<-|_]; simpl; [|reflexivity].
    destruct (assoc p acc); simpl; [rewrite <- app_assoc|]; reflexivity.
Qed.

(** [children_map] (built in [__init__]) maps a parent [p] to exactly the ids of the topology entries whose [parent_id] is the non-empty string [p], in topology order; a parent with no such entry, and the empty id, have no entry. *)
Theorem children_map_lookup topo p :
  let cs := map fst (filter (fun di : string * device_info =>
                               match parent_id (snd di) with
                               | Some q => nonempty q && String.eqb q p
                               | None => false
                               end) topo) in
  assoc p (children_map topo) = match cs with [] => None | _ => Some cs end.
Proof. exact (children_map_assoc topo p). Qed.

Lemma filter_length_le' {T} (f : T -> bool) l : (length (filter f l) <= length l)%nat.
Proof. induction l as [|x l IH]; simpl; [lia|destruct (f x); simpl; lia]. Qed.

(** Every suspect reported by [_detect_silent_failures] has no alarm of its own; its evidence counts its affected children, at least 2 and at most the total, and at least half of the total; each affected child is a topology child of the suspect that raised a connection-loss message. *)
Theorem silent_evidence_consistent topo m p ev :
  In (p, ev) (_detect_silent_failures topo m) ->
  has_key p m = false /\
  evidence_count ev = length (ev_children ev) /\
  (2 <= evidence_count ev <= total_children ev)%nat /\
  (total_children ev <= 2 * evidence_count ev)%nat /\
  forall c, In c (ev_children ev) ->
    existsb _is_connection_loss (msgs_of m c) = true /\
    exists info, In (c, info) topo /\ parent_id info = Some p.
Proof.
  intros H. pose proof (detect_not_alarmed _ _ _ _ H) as Hk. split; [exact Hk|].
  unfold _detect_silent_failures in H.
  assert (ND := children_map_NoDup topo).
  apply In_assoc_NoDup in H; [|apply detect_loop_NoDup, ND].
  rewrite (detect_loop_assoc _ _ _ ND) in H.
  destruct (assoc p (children_map topo)) as [cs|] eqn:Ecs; [|discriminate].
  destruct cs as [|c0 cs0] eqn:Ec; [discriminate|]. rewrite <- Ec in *.
  assert (Hne : cs <> []) by (rewrite Ec; discriminate).
  rewrite (silent_candidate_spec _ _ _ Hne Hk) in H. cbv zeta in H.
  set (aff := affected_children m cs) in H.
  destruct (_ && _) eqn:Hc; [|discriminate]. injection H as <-. simpl.
  apply andb_true_iff in Hc as [H2 Hr]. apply Nat.leb_le in H2.
  apply Qle_bool_iff in Hr. unfold Qle in Hr. simpl in Hr.
  assert (Hlen : (length aff <= length cs)%nat) by apply filter_length_le'.
  assert (Hpos : Z.pos (Pos.of_nat (length cs)) = Z.of_nat (length cs)).
  { assert (Hn0 : length cs <> 0) by (rewrite Ec; discriminate).
    rewrite <- (Nat2Pos.id _ Hn0) at 2. symmetry. apply positive_nat_Z. }
  rewrite Hpos in Hr.
  split; [reflexivity|]. split; [lia|]. split; [lia|].
  intros c Hc. unfold aff, affected_children in Hc. apply filter_In in Hc as [Hc Hl].
  split; [exact Hl|].
  rewrite children_map_assoc in Ecs.
  destruct (map fst _) as [|x xs] eqn:Em; [discriminate|]. injection Ecs as Ecs.
  rewrite <- Ecs, <- Em in Hc. apply in_map_iff in Hc as [[c' info] [Ec' Hin]].
  simpl in Ec'. subst c'. apply filter_In in Hin as [Hin Hp]. simpl in Hp.
  exists info. split; [exact Hin|].
  destruct (parent_id info) as [q|]; [|discriminate].
  apply andb_true_iff in Hp as [_ Hq]. apply String.eqb_eq in Hq. subst q. reflexivity.
Qed.

Lemma case_P c : Ascii.eqb (upper_char c) "P" = Ascii.eqb (lower_char c) "p".
Proof. destruct c as [[] [] [] [] [] [] [] []]; reflexivity. Qed.
Lemma case_S c : Ascii.eqb (upper_char c) "S" = Ascii.eqb (lower_char c) "s".
Proof. destruct c as [[] [] [] [] [] [] [] []]; reflexivity. Qed.
Lemma case_U c : Ascii.eqb (upper_char c) "U" = Ascii.eqb (lower_char c) "u".
Proof. destruct c as [[] [] [] [] [] [] [] []]; reflexivity. Qed.

Lemma upper_PSU s : String.eqb (upper s) "PSU" = String.eqb (lower s) "psu".
Proof.
  destruct s as [|a [|b [|c t]]]; unfold upper, lower; simpl smap; cbn [String.eqb];
    rewrite ?case_P, ?case_S, ?case_U; try reflexivity; destruct t; reflexivity.
Qed.

(** Without a usable [hw_inventory.psu_count], [_get_psu_count] returns 2 when [redundancy_type] is "psu" in any letter case, and the default otherwise. *)
Theorem psu_count_without_inventory topo d dflt :
  (forall n, hw_psu_count (_get_metadata topo d) <> Some (Some n)) ->
  _get_psu_count topo d dflt
  = if String.eqb (lower (redundancy_type (_get_metadata topo d))) "psu" then 2%Z else dflt.
Proof.
  intros H. unfold _get_psu_count. rewrite upper_PSU.
  destruct (hw_psu_count _) as [[n|]|]; [exfalso; apply (H n); reflexivity|reflexivity|reflexivity].
Qed.

(* ------------------------------------------------------------------ *)
(** ** Concrete runs of the properties above *)

Lemma silent_evidence_consistent_witness :
  In ("CORE", evidence_core) (_detect_silent_failures topo_core4 (build_msg_map alarms_silent)) /\
  has_key "CORE" (build_msg_map alarms_silent) = false /\
  evidence_count evidence_core = length (ev_children evidence_core) /\
  (2 <= evidence_count evidence_core <= total_children evidence_core)%nat /\
  (total_children evidence_core <= 2 * evidence_count evidence_core)%nat /\
  forall c, In c (ev_children evidence_core) ->
    existsb _is_connection_loss (msgs_of (build_msg_map alarms_silent) c) = true /\
    exists info, In (c, info) topo_core4 /\ parent_id info = Some "CORE".
Proof.
  assert (H : In ("CORE", evidence_core) (_detect_silent_failures topo_core4 (build_msg_map alarms_silent)))
    by (vm_compute; left; reflexivity).
  split; [exact H|]. exact (silent_evidence_consistent topo_core4 _ "CORE" evidence_core H).
Defined.

Lemma sanitize_masks_every_secret_witness :
  let x := "snmp-server community public" in
  let u := "snmp-server community ********" in
  _sanitize_text x = "" ++ u /\
  (forall r rest, m_encpw u = Some (r, rest) ->
     exists ws, u = "encrypted-password" ++ ws ++ String dq ("********" ++ String dq rest)) /\
  (forall r rest, m_pwsecret u = Some (r, rest) ->
     exists K d, (K = "password" \/ K = "secret") /\ u = K ++ " " ++ String d (" ********" ++ rest)) /\
  (forall r rest, m_username u = Some (r, rest) ->
     exists ws1 y ws2, u = "username" ++ ws1 ++ y ++ ws2 ++ "secret 5 ********" ++ rest) /\
  (forall r rest, m_community u = Some (r, rest) -> u = "snmp-server community ********" ++ rest).
Proof.
  intros x u. assert (H : _sanitize_text x = "" ++ u) by (vm_compute; reflexivity).
  split; [exact H|]. exact (sanitize_masks_every_secret x "" u H).
Defined.

Lemma sanitize_keyword_free_unchanged_witness :
  let x := "interface Gi0/1 shutdown" in
  contains "password" x = false /\ contains "secret" x = false /\
  contains "snmp-server community" x = false /\ _sanitize_text x = x.
Proof.
  intros x.
  assert (H1 : contains "password" x = false) by (vm_compute; reflexivity).
  assert (H2 : contains "secret" x = false) by (vm_compute; reflexivity).
  assert (H3 : contains "snmp-server community" x = false) by (vm_compute; reflexivity).
  split; [exact H1|]. split; [exact H2|]. split; [exact H3|].
  exact (sanitize_keyword_free_unchanged x H1 H2 H3).
Defined.

Lemma ai_reply_fence_ignored_witness :
  strip "{}" = "{}" /\ prefixb "```json" "{}" = false /\ endswith "```" "{}" = false /\
  ai_fallback_with Json.loads (ReplyText ("```json" ++ "{}" ++ "```"))
  = ai_fallback_with Json.loads (ReplyText "{}").
Proof.
  assert (H1 : strip "{}" = "{}") by reflexivity.
  assert (H2 : prefixb "```json" "{}" = false) by reflexivity.
  assert (H3 : endswith "```" "{}" = false) by reflexivity.
  split; [exact H1|]. split; [exact H2|]. split; [exact H3|].
  exact (ai_reply_fence_ignored Json.loads "{}" H1 H2 H3).
Defined.

Lemma psu_count_without_inventory_witness :
  (forall n, hw_psu_count (_get_metadata topo_psu_type "R2") <> Some (Some n)) /\
  _get_psu_count topo_psu_type "R2" 1
  = if String.eqb (lower (redundancy_type (_get_metadata topo_psu_type "R2"))) "psu" then 2%Z else 1%Z.
Proof.
  assert (H : forall n, hw_psu_count (_get_metadata topo_psu_type "R2") <> Some (Some n))
    by (intros n; vm_compute; discriminate).
  split; [exact H|]. exact (psu_count_without_inventory topo_psu_type "R2" 1 H).
Defined.

Lemma ard_single_psu_failure_without_redundancy_is_critical_witness :
  let joined := join " " (map _sanitize_text ["PSU1 failed"]) in
  let jl := lower joined in
  (_get_psu_count topo_core4 "A1" 1 < 2)%Z /\
  ((contains "power supply" jl && contains "failed" jl) || (contains "psu" jl && contains "fail" jl))
    = true /\
  contains "dual" jl = false /\ stop_condition joined = false /\
  analyze_redundancy_depth env_no_key topo_core4 "A1" ["PSU1 failed"]
  = mk CRITICAL ("Single PSU failure without redundancy (psu_count="
                 ++ z_to_str (_get_psu_count topo_core4 "A1" 1) ++ ") (local safety rule).")
       "Hardware/Physical".
Proof.
  intros joined jl.
  assert (H1 : (_get_psu_count topo_core4 "A1" 1 < 2)%Z) by (vm_compute; reflexivity).
  assert (H2 : ((contains "power supply" jl && contains "failed" jl)
                || (contains "psu" jl && contains "fail" jl)) = true) by (vm_compute; reflexivity).
  assert (H3 : contains "dual" jl = false) by (vm_compute; reflexivity).
  assert (H4 : stop_condition joined = false) by (vm_compute; reflexivity).
  split; [exact H1|]. split; [exact H2|]. split; [exact H3|]. split; [exact H4|].
  exact (ard_single_psu_failure_without_redundancy_is_critical env_no_key topo_core4 "A1"
           ["PSU1 failed"] H1 H2 H3 H4).
Defined.

Lemma ard_not_normal_without_service_witness :
  ["Link flap"] <> [] /\ _ensure_api_configured env_no_key = false /\
  status (analyze_redundancy_depth env_no_key topo_core4 "A1" ["Link flap"]) <> NORMAL.
Proof.
  assert (H1 : ["Link flap"] <> []) by discriminate.
  assert (H2 : _ensure_api_configured env_no_key = false) by reflexivity.
  split; [exact H1|]. split; [exact H2|].
  exact (ard_not_normal_without_service env_no_key topo_core4 "A1" ["Link flap"] H1 H2).
Defined.

Lemma analyze_total_without_service_witness :
  _ensure_api_configured env_no_key = false /\ analyze env_no_key topo_core4 alarms_silent <> None.
Proof.
  assert (H : _ensure_api_configured env_no_key = false) by reflexivity.
  split; [exact H|]. exact (analyze_total_without_service env_no_key topo_core4 alarms_silent H).
Defined.

Lemma analyze_sorted_by_prob_witness :
  analyze env_no_key topo_core4 alarms_silent = Some results_silent /\
  StronglySorted prob_desc results_silent.
Proof.
  assert (H : analyze env_no_key topo_core4 alarms_silent = Some results_silent)
    by (vm_compute; reflexivity).
  split; [exact H|]. exact (analyze_sorted_by_prob _ _ _ _ H).
Defined.

Lemma analyze_sorted_by_tier_witness :
  analyze env_no_key topo_core4 alarms_silent = Some results_silent /\
  StronglySorted tier_asc results_silent.
Proof.
  assert (H : analyze env_no_key topo_core4 alarms_silent = Some results_silent)
    by (vm_compute; reflexivity).
  split; [exact H|]. exact (analyze_sorted_by_tier _ _ _ _ H).
Defined.

Lemma analyze_one_result_per_device_witness :
  alarms_silent <> [] /\
  analyze env_no_key topo_core4 alarms_silent = Some results_silent /\
  NoDup (map r_id results_silent) /\
  forall d, In d (map r_id results_silent) <->
            In d (map device_id alarms_silent)
            \/ In d (map fst (_detect_silent_failures topo_core4 (build_msg_map alarms_silent))).
Proof.
  assert (H1 : alarms_silent <> []) by discriminate.
  assert (H2 : analyze env_no_key topo_core4 alarms_silent = Some results_silent)
    by (vm_compute; reflexivity).
  split; [exact H1|]. split; [exact H2|].
  exact (analyze_one_result_per_device _ _ _ _ H1 H2).
Defined.

Lemma analyze_label_witness :
  let r := hd SYSTEM_RESULT results_silent in
  alarms_silent <> [] /\
  analyze env_no_key topo_core4 alarms_silent = Some results_silent /\
  In r results_silent /\
  r_label r = match messages_of alarms_silent (r_id r) with
              | [] => SILENT_MESSAGE
              | ms => join " / " ms
              end.
Proof.
  intros r.
  assert (H1 : alarms_silent <> []) by discriminate.
  assert (H2 : analyze env_no_key topo_core4 alarms_silent = Some results_silent)
    by (vm_compute; reflexivity).
  assert (H3 : In r results_silent) by (vm_compute; left; reflexivity).
  split; [exact H1|]. split; [exact H2|]. split; [exact H3|].
  exact (analyze_label _ _ _ _ _ H1 H2 H3).
Defined.

Lemma analyze_silent_report_only_unalarmed_witness :
  let r := hd SYSTEM_RESULT results_silent in
  analyze env_no_key topo_core4 alarms_silent = Some results_silent /\
  In r results_silent /\ r_analyst_report r <> None /\
  ~ In (r_id r) (map device_id alarms_silent) /\
  has_key (r_id r) (_detect_silent_failures topo_core4 (build_msg_map alarms_silent)) = true.
Proof.
  intros r.
  assert (H1 : analyze env_no_key topo_core4 alarms_silent = Some results_silent)
    by (vm_compute; reflexivity).
  assert (H2 : In r results_silent) by (vm_compute; left; reflexivity).
  assert (H3 : r_analyst_report r <> None) by (vm_compute; discriminate).
  split; [exact H1|]. split; [exact H2|]. split; [exact H3|].
  exact (analyze_silent_report_only_unalarmed _ _ _ _ _ H1 H2 H3).
Defined.

Lemma analyze_cascade_only_under_alarmed_parent_witness :
  let r := nth 1 results_cascade SYSTEM_RESULT in
  analyze env_no_key topo_core4 alarms_cascade = Some results_cascade /\
  In r results_cascade /\ r_prob r = 2 # 10 /\
  exists p m, _get_parent_id topo_core4 (r_id r) = Some p /\ p <> "" /\
    (In p (map device_id alarms_cascade)
     \/ has_key p (_detect_silent_failures topo_core4 (build_msg_map alarms_cascade)) = true) /\
    In m (messages_of alarms_cascade (r_id r)) /\ contains "unreachable" (lower m) = true.
Proof.
  intros r.
  assert (H1 : analyze env_no_key topo_core4 alarms_cascade = Some results_cascade)
    by (vm_compute; reflexivity).
  assert (H2 : In r results_cascade) by (vm_compute; right; left; reflexivity).
  assert (H3 : r_prob r = 2 # 10) by (vm_compute; reflexivity).
  split; [exact H1|]. split; [exact H2|]. split; [exact H3|].
  exact (analyze_cascade_only_under_alarmed_parent _ _ _ _ _ H1 H2 H3).
Defined.
